(** * Blackjack game service: cards, scoring and the game state machine

    A shallow embedding of [app/models/card.py], [app/core/config.py],
    [app/models/database.py] and [app/services/game_service.py], with the
    counters of [app/services/metrics_service.py], the handlers of
    [app/routes/game.py] and the database figures of
    [app/routes/health.py].

    - Python integers are unbounded, hence [Z].
    - The persisted hands and deck are JSON lists of card dictionaries
      (the output of [Card.to_dict]); they are kept in that encoding and
      decoded with [Card.from_dict] where the service does so.
    - A Python list used as a stack ([list.pop()]) keeps its order: the
      last element is the top of the deck.
    - [random.shuffle] and [datetime.utcnow] are inputs of the request
      that calls them.
    - The database session is an explicit value threaded through every
      operation; a Python exception is an outcome of its own.  When a
      call raises, the session is rolled back: the database is the one of
      the last commit.
    - An [Integer] column holds a signed 64-bit integer (the database is
      SQLite); a commit that binds any other value raises
      [OverflowError].
    - A Python float is a binary64 value, with the arithmetic of the
      standard library's specification of IEEE 754.
    - The metrics object is a value threaded through the handlers like
      the database session. *)

From Stdlib Require Import String Ascii DecimalString.
From Stdlib Require Import ZArith QArith Qround Bool Arith Lia List Permutation.
From Stdlib Require Import Floats.SpecFloat.
Import ListNotations.

Local Open Scope string_scope.
Local Open Scope list_scope.
Local Open Scope Z_scope.

(* ===================================================================== *)
(** ** app/models/card.py *)
(* ===================================================================== *)

Inductive Suit := SPADES | HEARTS | DIAMONDS | CLUBS.

Inductive Rank :=
  ACE | TWO | THREE | FOUR | FIVE | SIX | SEVEN | EIGHT | NINE | TEN
| JACK | QUEEN | KING.

(** The string values of the two [str] enums. *)
Definition Suit_value (s : Suit) : string :=
  match s with
  | SPADES => "♠" | HEARTS => "♥" | DIAMONDS => "♦" | CLUBS => "♣"
  end.

Definition Rank_value (r : Rank) : string :=
  match r with
  | ACE => "A" | TWO => "2" | THREE => "3" | FOUR => "4" | FIVE => "5"
  | SIX => "6" | SEVEN => "7" | EIGHT => "8" | NINE => "9" | TEN => "10"
  | JACK => "J" | QUEEN => "Q" | KING => "K"
  end.

(** Iteration order of the enums ([for suit in Suit], [for rank in Rank]). *)
Definition all_suits : list Suit := [SPADES; HEARTS; DIAMONDS; CLUBS].
Definition all_ranks : list Rank :=
  [ACE; TWO; THREE; FOUR; FIVE; SIX; SEVEN; EIGHT; NINE; TEN; JACK; QUEEN; KING].

(** [Suit(s)] and [Rank(s)]: lookup of an enum member by value; [None] is
    the [ValueError] raised for a string that is no member's value. *)
Definition Suit_of_value (s : string) : option Suit :=
  find (fun x => String.eqb (Suit_value x) s) all_suits.

Definition Rank_of_value (s : string) : option Rank :=
  find (fun x => String.eqb (Rank_value x) s) all_ranks.

Definition RANK_VALUES (r : Rank) : Z :=
  match r with
  | ACE => 11
  | TWO => 2 | THREE => 3 | FOUR => 4 | FIVE => 5 | SIX => 6
  | SEVEN => 7 | EIGHT => 8 | NINE => 9 | TEN => 10
  | JACK => 10 | QUEEN => 10 | KING => 10
  end.

Record Card := mkCard { suit : Suit; rank : Rank }.

Definition value (c : Card) : Z := RANK_VALUES (rank c).

Definition is_ace (c : Card) : bool :=
  match rank c with ACE => true | _ => false end.

(** The JSON object written by [Card.to_dict]. *)
Record CardDict := mkCardDict { d_suit : string; d_rank : string; d_value : Z }.

Definition to_dict (c : Card) : CardDict :=
  {| d_suit := Suit_value (suit c);
     d_rank := Rank_value (rank c);
     d_value := value c |}.

Definition from_dict (d : CardDict) : option Card :=
  match Suit_of_value (d_suit d), Rank_of_value (d_rank d) with
  | Some s, Some r => Some (mkCard s r)
  | _, _ => None
  end.

(** [[Card.from_dict(c) for c in ds]]: fails as soon as one element does. *)
Fixpoint cards_from_dicts (ds : list CardDict) : option (list Card) :=
  match ds with
  | [] => Some []
  | d :: rest =>
      match from_dict d with
      | None => None
      | Some c =>
          match cards_from_dicts rest with
          | None => None
          | Some cs => Some (c :: cs)
          end
      end
  end.

(** [list.pop()]: removes and returns the last element; [None] is the
    [IndexError] of an empty list. *)
Definition pop {A : Type} (l : list A) : option (A * list A) :=
  match rev l with
  | [] => None
  | x :: r => Some (x, rev r)
  end.

(** *** Deck *)

(** The unshuffled deck built by [_initialize_deck]. *)
Definition ordered_deck : list Card :=
  flat_map (fun s => map (fun r => mkCard s r) all_ranks) all_suits.

(** The outcomes of [random.shuffle] during one request: its [n]-th call
    turns the list [l] into [rng n l]. *)
Definition shuffler := nat -> list Card -> list Card.

(** A [Deck] object, with the number of shuffles it has consumed. *)
Record Deck := mkDeck { _cards : list Card; shuffles : nat }.

Definition shuffle (rng : shuffler) (d : Deck) : Deck :=
  {| _cards := rng (shuffles d) (_cards d); shuffles := S (shuffles d) |}.

Definition _initialize_deck (rng : shuffler) (d : Deck) : Deck :=
  shuffle rng {| _cards := ordered_deck; shuffles := shuffles d |}.

(** [Deck()] *)
Definition new_Deck (rng : shuffler) : Deck :=
  _initialize_deck rng {| _cards := []; shuffles := O |}.

(** [Deck.draw]: reinitialises an empty deck, then pops. *)
Definition draw (rng : shuffler) (d : Deck) : option (Card * Deck) :=
  let d1 := match _cards d with
            | [] => _initialize_deck rng d
            | _ :: _ => d
            end in
  match pop (_cards d1) with
  | None => None
  | Some (c, rest) => Some (c, {| _cards := rest; shuffles := shuffles d1 |})
  end.

Definition remaining (d : Deck) : nat := length (_cards d).

(* ===================================================================== *)
(** ** Python numbers and exceptions *)
(* ===================================================================== *)

(** The exceptions the service can raise. *)
Inductive exn := IndexError | ValueError | OverflowError.

(** A Python [float] is an IEEE 754 binary64 value: a signed zero, a
    signed infinity, NaN, or [S754_finite s m e], which is
    (-1)^s * m * 2^e.  Sums and products are rounded to nearest, ties to
    even. *)
Definition float : Set := spec_float.

Definition prec : Z := 53.
Definition emax : Z := 1024.

(** The conversion of the integer operand of a mixed operation: the
    nearest float, or [OverflowError] ("int too large to convert to
    float") when that is not finite. *)
Definition float_of_int (n : Z) : exn + float :=
  match binary_normalize prec emax n 0 false with
  | S754_infinity _ => inl OverflowError
  | x => inr x
  end.

(** [n + x] and [n * x] of an integer and a float. *)
Definition int_add_float (n : Z) (x : float) : exn + float :=
  match float_of_int n with
  | inl e => inl e
  | inr a => inr (SFadd prec emax a x)
  end.

Definition int_mul_float (n : Z) (x : float) : exn + float :=
  match float_of_int n with
  | inl e => inl e
  | inr a => inr (SFmul prec emax a x)
  end.

(** [int(x)] of a float: truncation toward zero; [OverflowError] on an
    infinity and [ValueError] on NaN. *)
Definition int_of_float (x : float) : exn + Z :=
  match x with
  | S754_zero _ => inr 0
  | S754_finite s m e => inr (cond_Zopp s (Z.shiftl (Z.pos m) e))
  | S754_infinity _ => inl OverflowError
  | S754_nan => inl ValueError
  end.

(* ===================================================================== *)
(** ** app/core/config.py *)
(* ===================================================================== *)

(** The game settings; [blackjack_payout] is a float. *)
Record Settings := mkSettings {
  initial_balance : Z;
  min_bet : Z;
  max_bet : Z;
  dealer_stand_threshold : Z;
  blackjack_payout : float
}.

(** The float literal [1.5], which is 6755399441055744 * 2^-52. *)
Definition float_1_5 : float := S754_finite false 6755399441055744 (-52).

Definition default_settings : Settings :=
  {| initial_balance := 100;
     min_bet := 1;
     max_bet := 1000;
     dealer_stand_threshold := 17;
     blackjack_payout := float_1_5 |}.

(* ===================================================================== *)
(** ** ScoreCalculator (app/services/game_service.py) *)
(* ===================================================================== *)

(** First loop of [calculate]: non-ace values are summed, aces counted. *)
Definition count_card (st : Z * nat) (c : Card) : Z * nat :=
  let (score, aces) := st in
  if is_ace c then (score, S aces) else (score + value c, aces).

(** Second loop: [for _ in range(aces)]. *)
Fixpoint add_aces (aces : nat) (score : Z) : Z :=
  match aces with
  | O => score
  | S n => add_aces n (if score + 11 <=? 21 then score + 11 else score + 1)
  end.

Definition calculate (cards : list Card) : Z :=
  let (score, aces) := fold_left count_card cards (0, O) in
  add_aces aces score.

Definition is_bust (score : Z) : bool := 21 <? score.

Definition is_blackjack (cards : list Card) : bool :=
  if negb (Nat.eqb (length cards) 2) then false
  else calculate cards =? 21.

(* ===================================================================== *)
(** ** app/models/database.py *)
(* ===================================================================== *)

Inductive GameStatus :=
  IN_PROGRESS | PLAYER_WIN | DEALER_WIN | PUSH | PLAYER_BUST | DEALER_BUST
| BLACKJACK.

(** The string stored in the [status] column. *)
Definition GameStatus_value (s : GameStatus) : string :=
  match s with
  | IN_PROGRESS => "in_progress"
  | PLAYER_WIN => "player_win"
  | DEALER_WIN => "dealer_win"
  | PUSH => "push"
  | PLAYER_BUST => "player_bust"
  | DEALER_BUST => "dealer_bust"
  | BLACKJACK => "blackjack"
  end.

(** [status == GameStatus.IN_PROGRESS.value] *)
Definition in_progress (s : GameStatus) : bool :=
  String.eqb (GameStatus_value s) (GameStatus_value IN_PROGRESS).

(** An [Integer] column holds a signed 64-bit integer: binding any other
    Python integer raises [OverflowError].  An INSERT binds every column
    of the new row; an UPDATE binds the attributes whose value differs
    from the one loaded. *)
Definition fits (z : Z) : bool := (- 2 ^ 63 <=? z) && (z <? 2 ^ 63).

Definition storable (loaded new : Z) : bool := (loaded =? new) || fits new.

(** A row of [players].  The service only ever writes the columns below;
    the two timestamps filled in by column defaults are left out. *)
Module Player.
Record t := mk {
  id : nat;
  session_id : string;
  balance : Z;
  total_games : Z;
  total_wins : Z;
  total_losses : Z;
  total_pushes : Z
}.

Definition set_balance (p : t) (v : Z) : t :=
  mk (id p) (session_id p) v (total_games p) (total_wins p)
     (total_losses p) (total_pushes p).
Definition set_total_games (p : t) (v : Z) : t :=
  mk (id p) (session_id p) (balance p) v (total_wins p)
     (total_losses p) (total_pushes p).
Definition set_total_wins (p : t) (v : Z) : t :=
  mk (id p) (session_id p) (balance p) (total_games p) v
     (total_losses p) (total_pushes p).
Definition set_total_losses (p : t) (v : Z) : t :=
  mk (id p) (session_id p) (balance p) (total_games p) (total_wins p)
     v (total_pushes p).
Definition set_total_pushes (p : t) (v : Z) : t :=
  mk (id p) (session_id p) (balance p) (total_games p) (total_wins p)
     (total_losses p) v.

(** The [Integer] values an INSERT of the row, or an UPDATE of the loaded
    row, can bind. *)
Definition insertable (p : t) : bool :=
  fits (balance p) && fits (total_games p) && fits (total_wins p) &&
  fits (total_losses p) && fits (total_pushes p).

Definition updatable (loaded p : t) : bool :=
  storable (balance loaded) (balance p) &&
  storable (total_games loaded) (total_games p) &&
  storable (total_wins loaded) (total_wins p) &&
  storable (total_losses loaded) (total_losses p) &&
  storable (total_pushes loaded) (total_pushes p).
End Player.

(** A row of [game_sessions]; [completed_at] is [None] until the service
    stamps it ([created_at], a column default, is left out). *)
Module GameSession.
Record t := mk {
  id : nat;
  player_id : nat;
  bet_amount : Z;
  status : GameStatus;
  player_hand : list CardDict;
  dealer_hand : list CardDict;
  deck_state : list CardDict;
  player_score : Z;
  dealer_score : Z;
  completed_at : option Z;
  payout : Z;
  message : string
}.

Definition set_status (g : t) (v : GameStatus) : t :=
  mk (id g) (player_id g) (bet_amount g) v (player_hand g) (dealer_hand g)
     (deck_state g) (player_score g) (dealer_score g) (completed_at g)
     (payout g) (message g).
Definition set_player_hand (g : t) (v : list CardDict) : t :=
  mk (id g) (player_id g) (bet_amount g) (status g) v (dealer_hand g)
     (deck_state g) (player_score g) (dealer_score g) (completed_at g)
     (payout g) (message g).
Definition set_dealer_hand (g : t) (v : list CardDict) : t :=
  mk (id g) (player_id g) (bet_amount g) (status g) (player_hand g) v
     (deck_state g) (player_score g) (dealer_score g) (completed_at g)
     (payout g) (message g).
Definition set_deck_state (g : t) (v : list CardDict) : t :=
  mk (id g) (player_id g) (bet_amount g) (status g) (player_hand g)
     (dealer_hand g) v (player_score g) (dealer_score g) (completed_at g)
     (payout g) (message g).
Definition set_player_score (g : t) (v : Z) : t :=
  mk (id g) (player_id g) (bet_amount g) (status g) (player_hand g)
     (dealer_hand g) (deck_state g) v (dealer_score g) (completed_at g)
     (payout g) (message g).
Definition set_dealer_score (g : t) (v : Z) : t :=
  mk (id g) (player_id g) (bet_amount g) (status g) (player_hand g)
     (dealer_hand g) (deck_state g) (player_score g) v (completed_at g)
     (payout g) (message g).
Definition set_completed_at (g : t) (v : option Z) : t :=
  mk (id g) (player_id g) (bet_amount g) (status g) (player_hand g)
     (dealer_hand g) (deck_state g) (player_score g) (dealer_score g) v
     (payout g) (message g).
Definition set_payout (g : t) (v : Z) : t :=
  mk (id g) (player_id g) (bet_amount g) (status g) (player_hand g)
     (dealer_hand g) (deck_state g) (player_score g) (dealer_score g)
     (completed_at g) v (message g).
Definition set_message (g : t) (v : string) : t :=
  mk (id g) (player_id g) (bet_amount g) (status g) (player_hand g)
     (dealer_hand g) (deck_state g) (player_score g) (dealer_score g)
     (completed_at g) (payout g) v.

Definition insertable (g : t) : bool :=
  fits (bet_amount g) && fits (player_score g) && fits (dealer_score g) &&
  fits (payout g).

Definition updatable (loaded g : t) : bool :=
  storable (bet_amount loaded) (bet_amount g) &&
  storable (player_score loaded) (player_score g) &&
  storable (dealer_score loaded) (dealer_score g) &&
  storable (payout loaded) (payout g).
End GameSession.

(** The two tables, rows in insertion (primary key) order. *)
Record DB := mkDB {
  players : list Player.t;
  games : list GameSession.t
}.

Definition empty_db : DB := {| players := []; games := [] |}.

(** Flushing a modified row: the row with the object's primary key is
    overwritten. *)
Definition save_player (p : Player.t) (db : DB) : DB :=
  {| players := map (fun q => if Nat.eqb (Player.id q) (Player.id p)
                              then p else q) (players db);
     games := games db |}.

Definition save_game (g : GameSession.t) (db : DB) : DB :=
  {| players := players db;
     games := map (fun h => if Nat.eqb (GameSession.id h) (GameSession.id g)
                            then g else h) (games db) |}.

(** [db.add(row)] of a new row; the key is the next integer. *)
Definition next_player_id (db : DB) : nat := S (length (players db)).
Definition next_game_id (db : DB) : nat := S (length (games db)).

Definition add_player (p : Player.t) (db : DB) : DB :=
  {| players := players db ++ [p]; games := games db |}.

Definition add_game (g : GameSession.t) (db : DB) : DB :=
  {| players := players db; games := games db ++ [g] |}.

(* ===================================================================== *)
(** ** GameService (app/services/game_service.py) *)
(* ===================================================================== *)

(** What a service call leaves behind: [(game, "")], [(None, error)], or an
    exception escaping the call (only committed changes survive it). *)
Inductive outcome :=
| Done (db : DB) (game : GameSession.t)
| Rejected (db : DB) (error : string)
| Raised (db : DB) (e : exn).

Definition db_of (o : outcome) : DB :=
  match o with
  | Done db _ => db
  | Rejected db _ => db
  | Raised db _ => db
  end.

(** [str(n)] of an integer inside an f-string. *)
Definition str (n : Z) : string := NilZero.string_of_int (Z.to_int n).

(** [db.commit()] with a modified player row and a new, or a modified,
    game row: the rows are written, or nothing is and [OverflowError]
    escapes. *)
Definition commit_new_game (db : DB) (loaded player : Player.t)
    (game : GameSession.t) : outcome :=
  if Player.updatable loaded player && GameSession.insertable game
  then Done (add_game game (save_player player db)) game
  else Raised db OverflowError.

Definition commit_game (db : DB) (loaded player : Player.t)
    (loaded_game game : GameSession.t) : outcome :=
  if Player.updatable loaded player
     && GameSession.updatable loaded_game game
  then Done (save_game game (save_player player db)) game
  else Raised db OverflowError.

Definition find_player (session_id : string) (db : DB) : option Player.t :=
  find (fun p => String.eqb (Player.session_id p) session_id) (players db).

(** [None] is the [OverflowError] of the commit of a new row. *)
Definition get_or_create_player (cfg : Settings) (session_id : string)
    (db : DB) : option (Player.t * DB) :=
  match find_player session_id db with
  | Some player => Some (player, db)
  | None =>
      let player :=
        Player.mk (next_player_id db) session_id (initial_balance cfg)
                  0 0 0 0 in
      if Player.insertable player then Some (player, add_player player db)
      else None
  end.

Definition get_active_game (player_id : nat) (db : DB)
    : option GameSession.t :=
  find (fun g => Nat.eqb (GameSession.player_id g) player_id
                 && in_progress (GameSession.status g)) (games db).

(** Sequencing of a draw that may raise. *)
Definition draw_or_raise (db : DB) (o : option (Card * Deck))
    (k : Card -> Deck -> outcome) : outcome :=
  match o with
  | None => Raised db IndexError
  | Some (c, d) => k c d
  end.

(** Sequencing of a decoding that may raise. *)
Definition decode_or_raise (db : DB) (o : option (list Card))
    (k : list Card -> outcome) : outcome :=
  match o with
  | None => Raised db ValueError
  | Some cs => k cs
  end.

(** Sequencing of a step of arithmetic that may raise. *)
Definition value_or_raise {A : Type} (db : DB) (v : exn + A)
    (k : A -> outcome) : outcome :=
  match v with
  | inl e => Raised db e
  | inr a => k a
  end.

Definition start_game (cfg : Settings) (rng : shuffler) (now : Z)
    (session_id : string) (bet : Z) (db0 : DB) : outcome :=
  match get_or_create_player cfg session_id db0 with
  | None => Raised db0 OverflowError
  | Some (player, db) =>
  let loaded := player in
  (* Validate bet *)
  if bet <? min_bet cfg then
    Rejected db ("Minimum bet is $" ++ str (min_bet cfg))
  else if max_bet cfg <? bet then
    Rejected db ("Maximum bet is $" ++ str (max_bet cfg))
  else if Player.balance player <? bet then
    Rejected db "Insufficient balance"
  else
  (* Check for existing active game *)
  match get_active_game (Player.id player) db with
  | Some _ => Rejected db "Game already in progress"
  | None =>
      (* Deduct bet from balance *)
      let player := Player.set_balance player (Player.balance player - bet) in
      (* Create new deck and deal initial hands *)
      let deck := new_Deck rng in
      draw_or_raise db (draw rng deck) (fun c1 deck =>
      draw_or_raise db (draw rng deck) (fun c2 deck =>
      let player_hand := [c1; c2] in
      draw_or_raise db (draw rng deck) (fun c3 deck =>
      draw_or_raise db (draw rng deck) (fun c4 deck =>
      let dealer_hand := [c3; c4] in
      let player_score := calculate player_hand in
      let dealer_score := calculate dealer_hand in
      let game :=
        GameSession.mk (next_game_id db) (Player.id player) bet IN_PROGRESS
          (map to_dict player_hand) (map to_dict dealer_hand)
          (map to_dict (_cards deck)) player_score dealer_score
          None 0 "" in
      (* Check for natural blackjack *)
      if is_blackjack player_hand then
        let completed game player :=
          let game := GameSession.set_completed_at game (Some now) in
          let player :=
            Player.set_total_games player (Player.total_games player + 1) in
          commit_new_game db loaded player game in
        if is_blackjack dealer_hand then
          let game := GameSession.set_status game PUSH in
          let game :=
            GameSession.set_message game "Both have Blackjack! Push!" in
          let game := GameSession.set_payout game bet in
          let player :=
            Player.set_balance player (Player.balance player + bet) in
          let player :=
            Player.set_total_pushes player (Player.total_pushes player + 1) in
          completed game player
        else
          let game := GameSession.set_status game BLACKJACK in
          let game := GameSession.set_message game "Blackjack! You win!" in
          (* int(bet * (1 + self.settings.blackjack_payout)) *)
          value_or_raise db (int_add_float 1 (blackjack_payout cfg))
          (fun factor =>
          value_or_raise db (int_mul_float bet factor) (fun product =>
          value_or_raise db (int_of_float product) (fun payout =>
          let game := GameSession.set_payout game payout in
          let player :=
            Player.set_balance player (Player.balance player + payout) in
          let player :=
            Player.set_total_wins player (Player.total_wins player + 1) in
          completed game player)))
      else commit_new_game db loaded player game))))
  end
  end.

Definition hit (cfg : Settings) (now : Z) (session_id : string) (db0 : DB)
    : outcome :=
  match get_or_create_player cfg session_id db0 with
  | None => Raised db0 OverflowError
  | Some (player, db) =>
  let loaded := player in
  match get_active_game (Player.id player) db with
  | None => Rejected db "No active game"
  | Some game =>
      let loaded_game := game in
      (* Reconstruct deck from state *)
      decode_or_raise db (cards_from_dicts (GameSession.deck_state game))
      (fun deck_cards =>
      match deck_cards with
      | [] => Rejected db "Deck is empty"
      | _ :: _ =>
          (* Draw card *)
          match pop deck_cards with
          | None => Raised db IndexError
          | Some (new_card, deck_cards) =>
              decode_or_raise db
                (cards_from_dicts (GameSession.player_hand game))
              (fun player_hand =>
              let player_hand := player_hand ++ [new_card] in
              (* Update game state *)
              let game :=
                GameSession.set_player_hand game (map to_dict player_hand) in
              let game :=
                GameSession.set_deck_state game (map to_dict deck_cards) in
              let game :=
                GameSession.set_player_score game (calculate player_hand) in
              (* Check for bust *)
              let (game, player) :=
                if is_bust (GameSession.player_score game) then
                  let game := GameSession.set_status game PLAYER_BUST in
                  let game :=
                    GameSession.set_message game "Bust! You lose!" in
                  let game := GameSession.set_completed_at game (Some now) in
                  let player :=
                    Player.set_total_games player
                      (Player.total_games player + 1) in
                  let player :=
                    Player.set_total_losses player
                      (Player.total_losses player + 1) in
                  (game, player)
                else (game, player) in
              commit_game db loaded player loaded_game game)
          end
      end)
  end
  end.

(** The dealer's loop of [stand],
    [while dealer_score < threshold and deck_cards], on the deck read from
    its top: [stack] is [deck_cards] reversed, so that [pop()] takes its
    head.  Returns the dealer's hand and what is left of the stack. *)
Fixpoint dealer_draws (threshold : Z) (dealer_hand stack : list Card)
    : list Card * list Card :=
  match stack with
  | [] => (dealer_hand, [])
  | c :: rest =>
      if calculate dealer_hand <? threshold
      then dealer_draws threshold (dealer_hand ++ [c]) rest
      else (dealer_hand, stack)
  end.

Definition stand (cfg : Settings) (now : Z) (session_id : string) (db0 : DB)
    : outcome :=
  match get_or_create_player cfg session_id db0 with
  | None => Raised db0 OverflowError
  | Some (player, db) =>
  let loaded := player in
  match get_active_game (Player.id player) db with
  | None => Rejected db "No active game"
  | Some game =>
      let loaded_game := game in
      (* Reconstruct hands and deck *)
      decode_or_raise db (cards_from_dicts (GameSession.player_hand game))
      (fun player_hand =>
      decode_or_raise db (cards_from_dicts (GameSession.dealer_hand game))
      (fun dealer_hand =>
      decode_or_raise db (cards_from_dicts (GameSession.deck_state game))
      (fun deck_cards =>
      (* Dealer draws until reaching threshold *)
      let (dealer_hand, stack) :=
        dealer_draws (dealer_stand_threshold cfg) dealer_hand
                     (rev deck_cards) in
      let deck_cards := rev stack in
      let dealer_score := calculate dealer_hand in
      (* Update game state *)
      let game := GameSession.set_dealer_hand game (map to_dict dealer_hand) in
      let game := GameSession.set_deck_state game (map to_dict deck_cards) in
      let game := GameSession.set_dealer_score game dealer_score in
      let player_score := GameSession.player_score game in
      (* Determine winner *)
      let game := GameSession.set_completed_at game (Some now) in
      let player :=
        Player.set_total_games player (Player.total_games player + 1) in
      let (game, player) :=
        if is_bust dealer_score then
          let game := GameSession.set_status game DEALER_BUST in
          let game := GameSession.set_message game "Dealer busts! You win!" in
          let game :=
            GameSession.set_payout game (GameSession.bet_amount game * 2) in
          let player :=
            Player.set_balance player
              (Player.balance player + GameSession.payout game) in
          let player :=
            Player.set_total_wins player (Player.total_wins player + 1) in
          (game, player)
        else if player_score <? dealer_score then
          let game := GameSession.set_status game DEALER_WIN in
          let game := GameSession.set_message game "Dealer wins!" in
          let player :=
            Player.set_total_losses player (Player.total_losses player + 1) in
          (game, player)
        else if dealer_score <? player_score then
          let game := GameSession.set_status game PLAYER_WIN in
          let game := GameSession.set_message game "You win!" in
          let game :=
            GameSession.set_payout game (GameSession.bet_amount game * 2) in
          let player :=
            Player.set_balance player
              (Player.balance player + GameSession.payout game) in
          let player :=
            Player.set_total_wins player (Player.total_wins player + 1) in
          (game, player)
        else
          let game := GameSession.set_status game PUSH in
          let game := GameSession.set_message game "Push!" in
          let game :=
            GameSession.set_payout game (GameSession.bet_amount game) in
          let player :=
            Player.set_balance player
              (Player.balance player + GameSession.payout game) in
          let player :=
            Player.set_total_pushes player (Player.total_pushes player + 1) in
          (game, player) in
      commit_game db loaded player loaded_game game)))
  end
  end.

(** The API response of [get_game_state]. *)
Record GameState := mkGameState {
  playerHand : list CardDict;
  dealerHand : list CardDict;
  playerScore : Z;
  dealerScore : Z;
  balance : Z;
  bet : Z;
  gameOver : bool;
  message : string
}.

Definition hidden_card : CardDict :=
  {| d_suit := "?"; d_rank := "?"; d_value := 0 |}.

(** [None] is the [IndexError] of [game.dealer_hand[0]] on an empty hand. *)
Definition get_game_state (game : GameSession.t) (player : Player.t)
    : option GameState :=
  let player_hand := GameSession.player_hand game in
  (* Hide dealer's hole card if game is in progress *)
  let shown :=
    if in_progress (GameSession.status game) then
      match GameSession.dealer_hand game with
      | [] => None
      | first :: _ => Some ([first; hidden_card], d_value first)
      end
    else Some (GameSession.dealer_hand game, GameSession.dealer_score game) in
  match shown with
  | None => None
  | Some (dealer_hand, dealer_score) =>
      Some {| playerHand := player_hand;
              dealerHand := dealer_hand;
              playerScore := GameSession.player_score game;
              dealerScore := dealer_score;
              balance := Player.balance player;
              bet := GameSession.bet_amount game;
              gameOver := negb (in_progress (GameSession.status game));
              message := GameSession.message game |}
  end.

(** [None] is the [OverflowError] of a commit. *)
Definition reset_player (cfg : Settings) (session_id : string) (db0 : DB)
    : option (Player.t * DB) :=
  match get_or_create_player cfg session_id db0 with
  | None => None
  | Some (player, db) =>
      let loaded := player in
      let player := Player.set_balance player (initial_balance cfg) in
      if Player.updatable loaded player
      then Some (player, save_player player db)
      else None
  end.

(** *** Requests and reachable database states *)

Inductive request :=
| StartGame (rng : shuffler) (now : Z) (session_id : string) (bet : Z)
| Hit (now : Z) (session_id : string)
| Stand (now : Z) (session_id : string)
| Reset (session_id : string).

Definition run (cfg : Settings) (r : request) (db : DB) : DB :=
  match r with
  | StartGame rng now sid bet => db_of (start_game cfg rng now sid bet db)
  | Hit now sid => db_of (hit cfg now sid db)
  | Stand now sid => db_of (stand cfg now sid db)
  | Reset sid =>
      match reset_player cfg sid db with
      | Some (_, db') => db'
      | None => db
      end
  end.

(** What [random.shuffle] guarantees: the result is a permutation. *)
Definition fair (rng : shuffler) : Prop :=
  forall n l, Permutation l (rng n l).

Definition fair_request (r : request) : Prop :=
  match r with
  | StartGame rng _ _ _ => fair rng
  | _ => True
  end.

(** The states the service can bring an empty database to. *)
Inductive reachable (cfg : Settings) : DB -> Prop :=
| reachable_empty : reachable cfg empty_db
| reachable_run : forall db r,
    fair_request r -> reachable cfg db -> reachable cfg (run cfg r db).

(* ===================================================================== *)
(** ** Further code of the same files *)
(* ===================================================================== *)

(** [Card.__str__] *)
Definition Card_str (c : Card) : string :=
  (Rank_value (rank c) ++ Suit_value (suit c))%string.


(** [[deck.draw() for _ in range(n)]]: [n] draws in a row. *)
Fixpoint draw_many (rng : shuffler) (n : nat) (d : Deck)
    : option (list Card * Deck) :=
  match n with
  | O => Some ([], d)
  | S n' =>
      match draw rng d with
      | None => None
      | Some (c, d') =>
          match draw_many rng n' d' with
          | None => None
          | Some (cs, d'') => Some (c :: cs, d'')
          end
      end
  end.

(** *** [GameService.get_player_stats] *)

(** The win rate, [round(total_wins / total_games * 100, 2)], is a binary64
    value; it is kept as the two integers it is computed from, and
    [rate_zero] is the literal [0.0]. *)
Inductive WinRate := rate_zero | rate_of (total_wins total_games : Z).

Module Stats.
Record t := mk {
  balance : Z;
  total_games : Z;
  total_wins : Z;
  total_losses : Z;
  total_pushes : Z;
  win_rate : WinRate
}.
End Stats.

Definition get_player_stats (session_id : string) (db : DB)
    : option Stats.t :=
  match find_player session_id db with
  | None => None
  | Some player =>
      let win_rate :=
        if 0 <? Player.total_games player
        then rate_of (Player.total_wins player) (Player.total_games player)
        else rate_zero in
      Some (Stats.mk (Player.balance player) (Player.total_games player)
              (Player.total_wins player) (Player.total_losses player)
              (Player.total_pushes player) win_rate)
  end.

(* ===================================================================== *)
(** ** app/services/metrics_service.py *)
(* ===================================================================== *)

(** The counters and containers of [Metrics].  A recorded duration is a
    finite binary64 value, hence a rational; [endpoint_counts] is a [dict],
    kept in insertion order as Python keeps it.  The lock is left out: the
    operations below are the critical sections.  The average, the uptime
    and the text they are printed in are binary64 computations and are not
    part of this development. *)
Module Metrics.
Record t := mk {
  request_count : Z;
  error_count : Z;
  response_times : list Q;
  endpoint_counts : list (string * Z);
  start_time : Q
}.

Definition set_request_count (m : t) (v : Z) : t :=
  mk v (error_count m) (response_times m) (endpoint_counts m) (start_time m).
Definition set_error_count (m : t) (v : Z) : t :=
  mk (request_count m) v (response_times m) (endpoint_counts m)
     (start_time m).
Definition set_response_times (m : t) (v : list Q) : t :=
  mk (request_count m) (error_count m) v (endpoint_counts m) (start_time m).
Definition set_endpoint_counts (m : t) (v : list (string * Z)) : t :=
  mk (request_count m) (error_count m) (response_times m) v (start_time m).
End Metrics.

(** [deque(maxlen=1000)] and its [append]: a full deque drops its leftmost
    element first. *)
Definition maxlen : nat := 1000.

Definition deque_append {A : Type} (q : list A) (x : A) : list A :=
  if Nat.eqb (List.length q) maxlen then tl q ++ [x] else q ++ [x].

(** [d.get(key, default)] and [d[key] = v] of a [dict]: a new key goes to
    the end, a known key keeps its place. *)
Fixpoint dict_get (d : list (string * Z)) (key : string) (default : Z) : Z :=
  match d with
  | [] => default
  | (k, v) :: rest =>
      if String.eqb k key then v else dict_get rest key default
  end.

Fixpoint dict_set (d : list (string * Z)) (key : string) (v : Z)
    : list (string * Z) :=
  match d with
  | [] => [(key, v)]
  | (k, w) :: rest =>
      if String.eqb k key then (k, v) :: rest
      else (k, w) :: dict_set rest key v
  end.

(** [Metrics()] at time [start_time]. *)
Definition new_Metrics (start_time : Q) : Metrics.t :=
  Metrics.mk 0 0 [] [] start_time.

(** [endpoint] is [None] (the default) or a string; [if endpoint:] holds
    for a string that is not empty. *)
Definition increment_request (endpoint : option string) (m : Metrics.t)
    : Metrics.t :=
  let m := Metrics.set_request_count m (Metrics.request_count m + 1) in
  match endpoint with
  | None => m
  | Some e =>
      if String.eqb e EmptyString then m
      else
        Metrics.set_endpoint_counts m
          (dict_set (Metrics.endpoint_counts m) e
             (dict_get (Metrics.endpoint_counts m) e 0 + 1))
  end.

Definition increment_error (m : Metrics.t) : Metrics.t :=
  Metrics.set_error_count m (Metrics.error_count m + 1).

Definition record_response_time (duration_ms : Q) (m : Metrics.t)
    : Metrics.t :=
  Metrics.set_response_times m
    (deque_append (Metrics.response_times m) duration_ms).

(** [s.replace(old, new)] for one-character [old] and [new], and
    [s.strip(c)] for one character, on the characters of the string. *)
Definition replace (old new : ascii) (s : list ascii) : list ascii :=
  map (fun c => if Ascii.eqb c old then new else c) s.

Fixpoint lstrip (c : ascii) (s : list ascii) : list ascii :=
  match s with
  | [] => []
  | a :: s' => if Ascii.eqb a c then lstrip c s' else s
  end.

Definition rstrip (c : ascii) (s : list ascii) : list ascii :=
  rev (lstrip c (rev s)).

Definition strip (c : ascii) (s : list ascii) : list ascii :=
  rstrip c (lstrip c s).

(** The metric name of an endpoint in [get_prometheus_format]. *)
Definition safe_endpoint (endpoint : string) : string :=
  string_of_list_ascii
    (strip "_" (replace "-" "_" (replace "/" "_"
                                   (list_ascii_of_string endpoint)))).

(* ===================================================================== *)
(** ** app/routes/health.py *)
(* ===================================================================== *)

(** The two database figures of [/metrics] and [/metrics/prometheus]. *)
Definition total_players (db : DB) : nat := List.length (players db).

Definition active_games (db : DB) : nat :=
  List.length
    (filter (fun g => in_progress (GameSession.status g)) (games db)).

(* ===================================================================== *)
(** ** app/routes/game.py *)
(* ===================================================================== *)

(** What leaves a route handler: one of its JSON bodies, or an exception
    (of the service, or the [AttributeError] of [get_game_state] on
    [None]).  The session cookie is left out. *)
Inductive route_exn := service_exn (e : exn) | AttributeError.

Inductive response :=
| error_response (error : string)
| state_response (state : GameState)
| stats_response (stats : Stats.t)
| balance_response (balance : Z) (message : string)
| server_error (e : route_exn).

(** A handler takes the global metrics and the database session and hands
    both back with its response. *)
Module Routes.

Definition start_game (cfg : Settings) (rng : shuffler) (now : Z) (bet : Z)
    (session_id : string) (m : Metrics.t) (db : DB)
    : response * Metrics.t * DB :=
  let m := increment_request (Some "/api/start-game") m in
  match start_game cfg rng now session_id bet db with
  | Raised db e => (server_error (service_exn e), m, db)
  | Rejected db error =>
      if negb (String.eqb error EmptyString) then
        (error_response error, increment_error m, db)
      else (server_error AttributeError, m, db)
  | Done db game =>
      match get_or_create_player cfg session_id db with
      | None => (server_error (service_exn OverflowError), m, db)
      | Some (player, db) =>
          match get_game_state game player with
          | None => (server_error (service_exn IndexError), m, db)
          | Some state => (state_response state, m, db)
          end
      end
  end.

Definition hit (cfg : Settings) (now : Z) (session_id : string)
    (m : Metrics.t) (db : DB) : response * Metrics.t * DB :=
  let m := increment_request (Some "/api/hit") m in
  match hit cfg now session_id db with
  | Raised db e => (server_error (service_exn e), m, db)
  | Rejected db error =>
      if negb (String.eqb error EmptyString) then
        (error_response error, increment_error m, db)
      else (server_error AttributeError, m, db)
  | Done db game =>
      match get_or_create_player cfg session_id db with
      | None => (server_error (service_exn OverflowError), m, db)
      | Some (player, db) =>
          match get_game_state game player with
          | None => (server_error (service_exn IndexError), m, db)
          | Some state => (state_response state, m, db)
          end
      end
  end.

Definition stand (cfg : Settings) (now : Z) (session_id : string)
    (m : Metrics.t) (db : DB) : response * Metrics.t * DB :=
  let m := increment_request (Some "/api/stand") m in
  match stand cfg now session_id db with
  | Raised db e => (server_error (service_exn e), m, db)
  | Rejected db error =>
      if negb (String.eqb error EmptyString) then
        (error_response error, increment_error m, db)
      else (server_error AttributeError, m, db)
  | Done db game =>
      match get_or_create_player cfg session_id db with
      | None => (server_error (service_exn OverflowError), m, db)
      | Some (player, db) =>
          match get_game_state game player with
          | None => (server_error (service_exn IndexError), m, db)
          | Some state => (state_response state, m, db)
          end
      end
  end.

Definition get_stats (session_id : string) (m : Metrics.t) (db : DB)
    : response * Metrics.t * DB :=
  let m := increment_request (Some "/api/stats") m in
  match get_player_stats session_id db with
  | None => (error_response "Player not found", m, db)
  | Some stats => (stats_response stats, m, db)
  end.

Definition reset_balance (cfg : Settings) (session_id : string)
    (m : Metrics.t) (db : DB) : response * Metrics.t * DB :=
  let m := increment_request (Some "/api/reset") m in
  match reset_player cfg session_id db with
  | None => (server_error (service_exn OverflowError), m, db)
  | Some (player, db) =>
      (balance_response (Player.balance player)
         "Balance reset successfully", m, db)
  end.

End Routes.

(* ===================================================================== *)
(** ** The specification's notions *)
(* ===================================================================== *)

(** The definitions of this part are not taken from the code: they say,
    in the specification's words, what the code is compared with, or name
    the invariants and sample states of the proofs. *)

(** Every total of a hand when each ace counts, independently, 1 or 11. *)
Fixpoint ace_totals (hand : list Card) : list Z :=
  match hand with
  | [] => [0]
  | c :: rest =>
      if is_ace c
      then map (Z.add 1) (ace_totals rest) ++ map (Z.add 11) (ace_totals rest)
      else map (Z.add (value c)) (ace_totals rest)
  end.

(** The best achievable value: the largest total that does not exceed 21,
    or the smallest total when all of them do. *)
Definition best_value (hand : list Card) : Z :=
  match filter (fun t => t <=? 21) (ace_totals hand) with
  | t :: ts => fold_left Z.max ts t
  | [] =>
      match ace_totals hand with
      | t :: ts => fold_left Z.min ts t
      | [] => 0
      end
  end.

(** The sum of the base values of the cards that are not aces, and the
    number of aces. *)
Definition non_ace_sum (hand : list Card) : Z :=
  fold_right (fun c acc => if is_ace c then acc else value c + acc) 0 hand.

Definition ace_count (hand : list Card) : nat :=
  List.length (filter is_ace hand).

(** The cumulative totals of a player add up. *)
Definition totals_add_up (p : Player.t) : Prop :=
  Player.total_games p =
  Player.total_wins p + Player.total_losses p + Player.total_pushes p.

(** The number of open games of a player. *)
Definition open_games (player_id : nat) (db : DB) : nat :=
  List.length
    (filter (fun g => Nat.eqb (GameSession.player_id g) player_id
                      && in_progress (GameSession.status g)) (games db)).

(** The resolution table of [stand]: status and payout from the final
    dealer score, the player's score and the bet. *)
Definition resolution (dealer_score player_score bet : Z)
    : GameStatus * Z :=
  if 21 <? dealer_score then (DEALER_BUST, 2 * bet)
  else if player_score <? dealer_score then (DEALER_WIN, 0)
  else if dealer_score <? player_score then (PLAYER_WIN, 2 * bet)
  else (PUSH, bet).

(** The row a session is resolved to and the database with it: the stored
    row and the database as it is, or, on first contact, the new row (next
    key, initial balance, zero totals) and the database with that row
    added.  [get_or_create_player] returns this pair, unless the commit
    of the new row raises. *)
Definition resolved (cfg : Settings) (session_id : string) (db : DB)
    : Player.t * DB :=
  match find_player session_id db with
  | Some player => (player, db)
  | None =>
      let player :=
        Player.mk (next_player_id db) session_id (initial_balance cfg)
                  0 0 0 0 in
      (player, add_player player db)
  end.

(** Whether the session has a row or the row of a first contact can be
    stored. *)
Definition enters (cfg : Settings) (session_id : string) (db : DB) : bool :=
  match find_player session_id db with
  | Some _ => true
  | None => fits (initial_balance cfg)
  end.

(** [int(bet * (1 + blackjack_payout))] as [start_game] computes it, and
    its value ([0] when the computation raises). *)
Definition blackjack_credit (cfg : Settings) (bet : Z) : exn + Z :=
  match int_add_float 1 (blackjack_payout cfg) with
  | inl e => inl e
  | inr factor =>
      match int_mul_float bet factor with
      | inl e => inl e
      | inr product => int_of_float product
      end
  end.

Definition credited (cfg : Settings) (bet : Z) : Z :=
  match blackjack_credit cfg bet with
  | inr payout => payout
  | inl _ => 0
  end.

(** The rational number a finite binary64 value stands for, and the
    product [bet * (1 + blackjack_payout)] of the specification, taken in
    exact arithmetic. *)
Definition Q_of_float (x : float) : Q :=
  match x with
  | S754_finite s m e => inject_Z (cond_Zopp s (Z.pos m)) * Qpower 2 e
  | _ => 0
  end.

Definition exact_credit (cfg : Settings) (bet : Z) : Q :=
  inject_Z bet * (1 + Q_of_float (blackjack_payout cfg)).

(** Whether the payout of a bet under the default multiplier is
    [5 * bet / 2] rounded down, and whether it is for [n] bets from [bet]
    on. *)
Definition default_credit_ok (bet : Z) : bool :=
  match blackjack_credit default_settings bet with
  | inr payout => payout =? 5 * bet / 2
  | inl _ => false
  end.

Fixpoint default_credits_ok (n : nat) (bet : Z) : bool :=
  match n with
  | O => true
  | S k => default_credit_ok bet && default_credits_ok k (bet + 1)
  end.

(** 0.4 as binary64 (the nearest double, 0x3FD999999999999A), and settings
    paying it. *)
Definition float_0_4 : float := S754_finite false 7205759403792794 (-54).

Definition payout_0_4 : Settings :=
  {| initial_balance := 100; min_bet := 1; max_bet := 1000;
     dealer_stand_threshold := 17; blackjack_payout := float_0_4 |}.

(** What [start_game] does once the bet is accepted and the player is
    dealt [p1], [p2] and the dealer [d1], [d2], [rest] staying in the deck:
    a tie of two naturals and a natural are settled at once, the payout of
    the natural being computed in binary64, and the rows are committed. *)
Definition dealt (cfg : Settings) (now bet : Z) (player : Player.t) (db : DB)
    (p1 p2 d1 d2 : Card) (rest : list Card) : outcome :=
  let fresh st done pay msg :=
    GameSession.mk (next_game_id db) (Player.id player) bet st
      (map to_dict [p1; p2]) (map to_dict [d1; d2]) (map to_dict rest)
      (calculate [p1; p2]) (calculate [d1; d2]) done pay msg in
  let settled bal wins pushes :=
    Player.mk (Player.id player) (Player.session_id player) bal
      (Player.total_games player + 1) wins (Player.total_losses player)
      pushes in
  if is_blackjack [p1; p2] then
    if is_blackjack [d1; d2] then
      commit_new_game db player
        (settled (Player.balance player - bet + bet)
                 (Player.total_wins player) (Player.total_pushes player + 1))
        (fresh PUSH (Some now) bet "Both have Blackjack! Push!")
    else
      match blackjack_credit cfg bet with
      | inl e => Raised db e
      | inr pay =>
          commit_new_game db player
            (settled (Player.balance player - bet + pay)
                     (Player.total_wins player + 1)
                     (Player.total_pushes player))
            (fresh BLACKJACK (Some now) pay "Blackjack! You win!")
      end
  else
    commit_new_game db player
      (Player.set_balance player (Player.balance player - bet))
      (fresh IN_PROGRESS None 0 EmptyString).

(** A float below zero, and settings under which [1 + blackjack_payout],
    as computed, is not one. *)
Definition negative (x : float) : bool :=
  match x with
  | S754_finite s _ _ | S754_infinity s => s
  | _ => false
  end.

Definition factor_nonneg (cfg : Settings) : bool :=
  match int_add_float 1 (blackjack_payout cfg) with
  | inr factor => negb (negative factor)
  | inl _ => true
  end.

(** The reason with which [start_game] rejects a bet of a player with the
    given balance and a game in progress. *)
Definition rejection_reason (cfg : Settings) (bet balance : Z) : string :=
  if bet <? min_bet cfg then "Minimum bet is $" ++ str (min_bet cfg)
  else if max_bet cfg <? bet then "Maximum bet is $" ++ str (max_bet cfg)
  else if balance <? bet then "Insufficient balance"
  else "Game already in progress".

(** The balance a session holds: the stored one, or the initial balance a
    new session is given on first contact. *)
Definition balance_of (cfg : Settings) (session_id : string) (db : DB) : Z :=
  Player.balance (fst (resolved cfg session_id db)).

(** The four cumulative totals of a player: games, wins, losses, pushes. *)
Definition counters (p : Player.t) : Z * Z * Z * Z :=
  (Player.total_games p, Player.total_wins p, Player.total_losses p,
   Player.total_pushes p).

(** What a game reaching a status adds to them. *)
Definition tally (st : GameStatus) : Z * Z * Z * Z :=
  match st with
  | IN_PROGRESS => (0, 0, 0, 0)
  | PLAYER_WIN | DEALER_BUST | BLACKJACK => (1, 1, 0, 0)
  | DEALER_WIN | PLAYER_BUST => (1, 0, 1, 0)
  | PUSH => (1, 0, 0, 1)
  end.

Definition add4 (a b : Z * Z * Z * Z) : Z * Z * Z * Z :=
  match a, b with
  | (a1, a2, a3, a4), (b1, b2, b3, b4) => (a1 + b1, a2 + b2, a3 + b3, a4 + b4)
  end.

(** The totals a session has before a request: those of its row, zeros
    without one. *)
Definition counters_of (sid : string) (db : DB) : Z * Z * Z * Z :=
  match find_player sid db with
  | Some p => counters p
  | None => (0, 0, 0, 0)
  end.

(** The status of the game a request returns; [IN_PROGRESS] when it
    returns no game. *)
Definition returned_status (cfg : Settings) (r : request) (db : DB)
    : GameStatus :=
  let status_of o :=
    match o with
    | Done _ g => GameSession.status g
    | _ => IN_PROGRESS
    end in
  match r with
  | StartGame rng now sid bet => status_of (start_game cfg rng now sid bet db)
  | Hit now sid => status_of (hit cfg now sid db)
  | Stand now sid => status_of (stand cfg now sid db)
  | Reset _ => IN_PROGRESS
  end.

(** Primary keys of the game rows: 1, 2, ... in insertion order. *)
Definition game_ids_ok (db : DB) : Prop :=
  map GameSession.id (games db) = seq 1 (List.length (games db)).

(** The shuffle that leaves the deck as built. *)
Definition identity_shuffle : shuffler := fun _ l => l.

(** Sample runs from the empty database, default settings: session "s"
    bets 10 and stands; session "s" bets its whole balance. *)
Definition demo_started : DB :=
  run default_settings (StartGame identity_shuffle 0 "s" 10) empty_db.

Definition demo_stood : DB := run default_settings (Stand 1 "s") demo_started.

Definition demo_all_in : DB :=
  run default_settings (StartGame identity_shuffle 0 "s" 100) empty_db.

(** A shuffle that moves the first card of the deck to its top. *)
Definition rotate_shuffle : shuffler :=
  fun _ l => match l with [] => [] | x :: t => t ++ [x] end.

(** What the service keeps true of a game row: hands and deck are encoded
    cards, the stored scores are those of the hands, and a game in progress
    has no payout yet, two dealer cards, a player score of at most 21 and
    50 cards between the player's hand and the deck. *)
Definition game_sound (g : GameSession.t) : Prop :=
  exists hand dealer deck,
    GameSession.player_hand g = map to_dict hand /\
    GameSession.dealer_hand g = map to_dict dealer /\
    GameSession.deck_state g = map to_dict deck /\
    GameSession.player_score g = calculate hand /\
    GameSession.dealer_score g = calculate dealer /\
    (in_progress (GameSession.status g) = true ->
     GameSession.payout g = 0 /\
     (List.length hand + List.length deck = 50)%nat /\
     List.length dealer = 2%nat /\
     calculate hand <= 21).

(** A stored game in progress whose persisted deck is empty: player 5, 7
    against dealer 2, 3. *)
Definition demo_empty_deck : DB :=
  {| players := [Player.mk 1 "s" 90 0 0 0 0];
     games :=
       [GameSession.mk 1 1 10 IN_PROGRESS
          (map to_dict [mkCard HEARTS FIVE; mkCard SPADES SEVEN])
          (map to_dict [mkCard SPADES TWO; mkCard SPADES THREE])
          [] 12 5 None 0 ""] |}.

(** Settings with a stand threshold no hand reaches. *)
Definition high_threshold : Settings :=
  {| initial_balance := 100; min_bet := 1; max_bet := 1000;
     dealer_stand_threshold := 1000; blackjack_payout := float_1_5 |}.

(** A game started under [high_threshold] from the empty database. *)
Definition demo_high : DB :=
  run high_threshold (StartGame identity_shuffle 0 "s" 10) empty_db.

(** The shuffle that reverses the deck, and a run on it: session "s" bets
    10, is dealt A, 2 against 3, 4, and hits a 5. *)
Definition reverse_shuffle : shuffler := fun _ l => rev l.

Definition demo_rev_started : DB :=
  run default_settings (StartGame reverse_shuffle 0 "s" 10) empty_db.

Definition demo_rev_game : GameSession.t :=
  GameSession.mk 1 1 10 IN_PROGRESS
    (map to_dict [mkCard SPADES ACE; mkCard SPADES TWO])
    (map to_dict [mkCard SPADES THREE; mkCard SPADES FOUR])
    (map to_dict (firstn 48 (rev ordered_deck))) 13 7 None 0 "".

Definition demo_rev_hit : DB :=
  run default_settings (Hit 1 "s") demo_rev_started.

(** A hand of three cards on which the ace rule matters. *)
Definition king_ace_ace : list Card :=
  [mkCard HEARTS KING; mkCard HEARTS ACE; mkCard SPADES ACE].

(** Equality of cards, and lists of pairwise different cards. *)
Definition Card_eqb (c c' : Card) : bool :=
  String.eqb (Card_str c) (Card_str c').

Fixpoint distinct (l : list Card) : bool :=
  match l with
  | [] => true
  | c :: rest => negb (existsb (Card_eqb c) rest) && distinct rest
  end.

(** The session a request comes from. *)
Definition session_of (r : request) : string :=
  match r with
  | StartGame _ _ sid _ => sid
  | Hit _ sid => sid
  | Stand _ sid => sid
  | Reset sid => sid
  end.

(** The player table as the service keeps it: keys 1, 2, ... in insertion
    order, no session twice, and every game owned by a stored player. *)
Definition players_ok (db : DB) : Prop :=
  map Player.id (players db) = seq 1 (List.length (players db)) /\
  NoDup (map Player.session_id (players db)) /\
  forall g, In g (games db) ->
            In (GameSession.player_id g) (map Player.id (players db)).

(** The cards of a game row: hands and deck decode, and together they are
    the 52 cards of one deck. *)
Definition cards_conserved (g : GameSession.t) : Prop :=
  exists hand dealer deck,
    GameSession.player_hand g = map to_dict hand /\
    GameSession.dealer_hand g = map to_dict dealer /\
    GameSession.deck_state g = map to_dict deck /\
    Permutation (hand ++ dealer ++ deck) ordered_deck.

(** What the status of a game row says about its scores, its payout, its
    completion time and its message. *)
Definition row_consistent (cfg : Settings) (g : GameSession.t) : Prop :=
  let ps := GameSession.player_score g in
  let ds := GameSession.dealer_score g in
  let bet := GameSession.bet_amount g in
  let pay := GameSession.payout g in
  (GameSession.completed_at g = None <->
   GameSession.status g = IN_PROGRESS) /\
  (GameSession.message g = "" <-> GameSession.status g = IN_PROGRESS) /\
  match GameSession.status g with
  | IN_PROGRESS => ps <= 21 /\ pay = 0
  | PLAYER_BUST => 21 < ps /\ pay = 0
  | DEALER_BUST => ps <= 21 /\ 21 < ds /\ pay = bet * 2
  | DEALER_WIN => ps < ds <= 21 /\ pay = 0
  | PLAYER_WIN => ds < ps <= 21 /\ pay = bet * 2
  | PUSH => ps = ds /\ ps <= 21 /\ pay = bet
  | BLACKJACK =>
      ps = 21 /\ blackjack_credit cfg bet = inr pay
  end.

(** A sequence of requests, first to last. *)
Definition run_all (cfg : Settings) (rs : list request) (db : DB) : DB :=
  fold_left (fun d r => run cfg r d) rs db.

(** A request that is not a reset of the balance of session [sid]. *)
Definition no_reset (sid : string) (r : request) : Prop :=
  match r with
  | Reset s => s <> sid
  | _ => True
  end.

(** The bet of a session is held: its row has key [pid]; game [gid] is a
    game of that player, with bet [b]; and while that game is in progress
    the balance is [bal]. *)
Definition bet_held (sid : string) (pid : nat) (bal : Z) (gid : nat) (b : Z)
    (db : DB) : Prop :=
  exists p h,
    find_player sid db = Some p /\ Player.id p = pid /\
    In h (games db) /\ GameSession.id h = gid /\
    GameSession.player_id h = pid /\ GameSession.bet_amount h = b /\
    (in_progress (GameSession.status h) = true -> Player.balance p = bal).

(** The route a request goes to, and its path. *)
Definition endpoint_of (r : request) : string :=
  match r with
  | StartGame _ _ _ _ => "/api/start-game"
  | Hit _ _ => "/api/hit"
  | Stand _ _ => "/api/stand"
  | Reset _ => "/api/reset"
  end.

Definition route (cfg : Settings) (r : request) (m : Metrics.t) (db : DB)
    : response * Metrics.t * DB :=
  match r with
  | StartGame rng now sid bet => Routes.start_game cfg rng now bet sid m db
  | Hit now sid => Routes.hit cfg now sid m db
  | Stand now sid => Routes.stand cfg now sid m db
  | Reset sid => Routes.reset_balance cfg sid m db
  end.


(** The metrics after a run of [increment_request] calls, and after a run
    of [record_response_time] calls. *)
Definition count_requests (endpoints : list (option string))
    (m : Metrics.t) : Metrics.t :=
  fold_left (fun m e => increment_request e m) endpoints m.

Definition record_all (durations : list Q) (m : Metrics.t) : Metrics.t :=
  fold_left (fun m x => record_response_time x m) durations m.

(** How often a path was given to [increment_request]. *)
Definition calls_with (e : string) (endpoints : list (option string)) : Z :=
  Z.of_nat
    (List.length
       (filter (fun o => match o with
                         | Some e' => String.eqb e' e
                         | None => false
                         end) endpoints)).

(** What the three game routes do with the outcome of their service
    call. *)
Definition respond (cfg : Settings) (session_id : string) (o : outcome)
    (m : Metrics.t) : response * Metrics.t * DB :=
  match o with
  | Raised db e => (server_error (service_exn e), m, db)
  | Rejected db error =>
      if negb (String.eqb error EmptyString) then
        (error_response error, increment_error m, db)
      else (server_error AttributeError, m, db)
  | Done db game =>
      match get_or_create_player cfg session_id db with
      | None => (server_error (service_exn OverflowError), m, db)
      | Some (player, db) =>
          match get_game_state game player with
          | None => (server_error (service_exn IndexError), m, db)
          | Some state => (state_response state, m, db)
          end
      end
  end.

(** The service call of a game request; [reset_player] has no outcome of
    this kind. *)
Definition service_call (cfg : Settings) (r : request) (db : DB)
    : option outcome :=
  match r with
  | StartGame rng now sid bet => Some (start_game cfg rng now sid bet db)
  | Hit now sid => Some (hit cfg now sid db)
  | Stand now sid => Some (stand cfg now sid db)
  | Reset _ => None
  end.

(** The messages the service writes with a status; a push has two. *)
Definition messages_of (st : GameStatus) : list string :=
  match st with
  | IN_PROGRESS => [EmptyString]
  | PLAYER_BUST => ["Bust! You lose!"]
  | DEALER_BUST => ["Dealer busts! You win!"]
  | DEALER_WIN => ["Dealer wins!"]
  | PLAYER_WIN => ["You win!"]
  | PUSH => ["Push!"; "Both have Blackjack! Push!"]
  | BLACKJACK => ["Blackjack! You win!"]
  end.

(* ===================================================================== *)
(** ** Cards and scores *)
(* ===================================================================== *)

(** Case analysis on every test the goal still branches on. *)
Ltac case_ifs :=
  repeat match goal with
         | |- context [if ?b then _ else _] => destruct b
         end.

Lemma from_dict_to_dict (c : Card) : from_dict (to_dict c) = Some c.
Proof. destruct c as [[] []]; reflexivity. Qed.

Lemma cards_from_dicts_map (cs : list Card) :
  cards_from_dicts (map to_dict cs) = Some cs.
Proof.
  induction cs as [|c cs IH]; simpl; [reflexivity|].
  now rewrite from_dict_to_dict, IH.
Qed.

Lemma pop_snoc {A : Type} (l : list A) (x : A) : pop (l ++ [x]) = Some (x, l).
Proof. unfold pop. rewrite rev_app_distr. simpl. now rewrite rev_involutive. Qed.

Lemma pop_some_inv {A : Type} (l r : list A) (x : A) :
  pop l = Some (x, r) -> l = r ++ [x].
Proof.
  unfold pop. destruct (rev l) as [|y t] eqn:E; [discriminate|].
  intros H. injection H as -> <-.
  rewrite <- (rev_involutive l), E. reflexivity.
Qed.

Lemma pop_none_inv {A : Type} (l : list A) : pop l = None -> l = [].
Proof.
  unfold pop. destruct (rev l) eqn:E; [|discriminate].
  intros _. rewrite <- (rev_involutive l), E. reflexivity.
Qed.

Lemma fold_count_card (cards : list Card) (s : Z) (k : nat) :
  fold_left count_card cards (s, k) =
  (s + non_ace_sum cards, (k + ace_count cards)%nat).
Proof.
  revert s k. induction cards as [|c cards IH]; intros s k.
  - simpl. f_equal; [lia | unfold ace_count; simpl; lia].
  - cbn [fold_left non_ace_sum fold_right]. unfold ace_count.
    cbn [filter count_card]. fold (non_ace_sum cards).
    destruct (is_ace c); rewrite IH; unfold ace_count; cbn [List.length];
      f_equal; lia.
Qed.

Lemma calculate_eq (cards : list Card) :
  calculate cards = add_aces (ace_count cards) (non_ace_sum cards).
Proof.
  unfold calculate. rewrite fold_count_card. reflexivity.
Qed.

Lemma add_aces_high (k : nat) (s : Z) :
  10 < s -> add_aces k s = s + Z.of_nat k.
Proof.
  revert s. induction k as [|k IH]; intros s Hs.
  - simpl. lia.
  - cbn [add_aces]. destruct (s + 11 <=? 21) eqn:E.
    + apply Z.leb_le in E. lia.
    + rewrite IH by lia. lia.
Qed.

Lemma add_aces_low (k : nat) (s : Z) :
  0 <= s <= 10 -> add_aces (S k) s = s + 11 + Z.of_nat k.
Proof.
  intros Hs. cbn [add_aces]. destruct (s + 11 <=? 21) eqn:E.
  - apply add_aces_high. lia.
  - apply Z.leb_gt in E. lia.
Qed.

Lemma non_ace_sum_nonneg (cards : list Card) : 0 <= non_ace_sum cards.
Proof.
  induction cards as [|c cards IH]; [simpl; lia|].
  cbn [non_ace_sum fold_right]. fold (non_ace_sum cards).
  destruct (is_ace c); [assumption|].
  unfold value. destruct (rank c); cbn [RANK_VALUES]; lia.
Qed.

(** The closed form of the greedy rule: at most the first ace counts 11. *)
Lemma calculate_closed_form (cards : list Card) :
  calculate cards =
  match ace_count cards with
  | O => non_ace_sum cards
  | S k =>
      if non_ace_sum cards <=? 10
      then non_ace_sum cards + 11 + Z.of_nat k
      else non_ace_sum cards + 1 + Z.of_nat k
  end.
Proof.
  rewrite calculate_eq. pose proof (non_ace_sum_nonneg cards) as Hs.
  destruct (ace_count cards) as [|k]; [reflexivity|].
  destruct (non_ace_sum cards <=? 10) eqn:E.
  - apply Z.leb_le in E. apply add_aces_low. lia.
  - apply Z.leb_gt in E. rewrite add_aces_high by lia. lia.
Qed.

(* ===================================================================== *)
(** ** The player table *)
(* ===================================================================== *)

Lemma find_app {A : Type} (f : A -> bool) (l1 l2 : list A) :
  find f (l1 ++ l2) =
  match find f l1 with Some x => Some x | None => find f l2 end.
Proof.
  induction l1 as [|x l1 IH]; simpl; [reflexivity|].
  now destruct (f x).
Qed.

Lemma find_player_session (sid : string) (db : DB) (p : Player.t) :
  find_player sid db = Some p -> Player.session_id p = sid.
Proof.
  intros H. apply find_some in H as [_ H]. now apply String.eqb_eq in H.
Qed.

Lemma find_player_In (sid : string) (db : DB) (p : Player.t) :
  find_player sid db = Some p -> In p (players db).
Proof. intros H. now apply find_some in H. Qed.

Lemma resolved_existing cfg sid db p :
  find_player sid db = Some p -> resolved cfg sid db = (p, db).
Proof. intros H. unfold resolved. now rewrite H. Qed.

Lemma resolved_games cfg sid db :
  games (snd (resolved cfg sid db)) = games db.
Proof.
  unfold resolved. now destruct (find_player sid db).
Qed.

Lemma resolved_find cfg sid db :
  find_player sid (snd (resolved cfg sid db)) =
  Some (fst (resolved cfg sid db)).
Proof.
  unfold resolved.
  destruct (find_player sid db) as [p|] eqn:E; [exact E|].
  unfold find_player in *. simpl.
  rewrite find_app, E. simpl. now rewrite String.eqb_refl.
Qed.

(** Saving a row that keeps key and session leaves it the row found for
    that session. *)
Lemma find_player_save (sid : string) (db : DB) (p p' : Player.t) :
  find_player sid db = Some p ->
  Player.session_id p' = sid ->
  Player.id p' = Player.id p ->
  find_player sid (save_player p' db) = Some p'.
Proof.
  unfold find_player, save_player. simpl.
  intros Hf Hs Hid. induction (players db) as [|q l IH]; [discriminate|].
  simpl in *. destruct (String.eqb (Player.session_id q) sid) eqn:Eq.
  - injection Hf as ->. rewrite Hid, Nat.eqb_refl.
    now rewrite Hs, String.eqb_refl.
  - destruct (Nat.eqb (Player.id q) (Player.id p')).
    + now rewrite Hs, String.eqb_refl.
    + rewrite Eq. now apply IH.
Qed.

Lemma save_player_other (p q : Player.t) (db : DB) :
  In q (players db) -> Player.id q <> Player.id p ->
  In q (players (save_player p db)).
Proof.
  intros Hin Hne. unfold save_player. simpl. apply in_map_iff.
  exists q. split; [|assumption].
  destruct (Nat.eqb_spec (Player.id q) (Player.id p)); congruence.
Qed.

Lemma save_player_In (p q : Player.t) (db : DB) :
  In q (players (save_player p db)) -> q = p \/ In q (players db).
Proof.
  unfold save_player. simpl. intros H. apply in_map_iff in H as [r [H Hr]].
  destruct (Nat.eqb (Player.id r) (Player.id p)); subst; auto.
Qed.

Lemma resolved_In cfg sid db q :
  In q (players (snd (resolved cfg sid db))) ->
  q = fst (resolved cfg sid db) \/ In q (players db).
Proof.
  unfold resolved. destruct (find_player sid db); simpl; auto.
  intros H. apply in_app_or in H as [H|[H|[]]]; auto.
Qed.

(* ===================================================================== *)
(** ** Signs in binary64 *)
(* ===================================================================== *)

Lemma binary_round_aux_sign (sx : bool) (mx ex : Z) (lx : location) :
  negative (binary_round_aux prec emax sx mx ex lx) = true -> sx = true.
Proof.
  unfold binary_round_aux.
  destruct (shr_fexp prec emax mx ex lx) as [mrs e].
  destruct (shr_fexp prec emax _ e loc_Exact) as [mrs' e'].
  destruct (shr_m mrs'); [discriminate| |discriminate].
  destruct (e' <=? emax - prec); simpl; auto.
Qed.

Lemma float_of_int_nonneg (n : Z) (a : float) :
  0 <= n -> float_of_int n = inr a -> negative a = false.
Proof.
  intros Hn. unfold float_of_int, binary_normalize.
  destruct n as [|m|m]; [now intros [= <-]| |lia].
  unfold binary_round. destruct (shl_align _ _ _) as [mz ez].
  pose proof (binary_round_aux_sign false (Z.pos mz) ez loc_Exact) as H.
  destruct (binary_round_aux prec emax false (Z.pos mz) ez loc_Exact);
    intros [= <-]; try reflexivity.
  destruct (negative _); [|reflexivity]. now specialize (H eq_refl).
Qed.

Lemma SFmul_nonneg (a x : float) :
  negative a = false -> negative x = false ->
  negative (SFmul prec emax a x) = false.
Proof.
  destruct a as [sa|sa| |sa ma ea], x as [sx|sx| |sx mx ex];
    simpl; try congruence; intros -> ->; try reflexivity.
  pose proof (binary_round_aux_sign false (Z.pos (ma * mx)) (ea + ex)
                loc_Exact) as H.
  simpl. destruct (negative _); [|reflexivity]. now specialize (H eq_refl).
Qed.

Lemma int_of_float_nonneg (x : float) (z : Z) :
  negative x = false -> int_of_float x = inr z -> 0 <= z.
Proof.
  destruct x as [s|s| |s m e]; simpl; try discriminate.
  - now intros _ [= <-].
  - intros -> [= <-]. simpl. apply Z.shiftl_nonneg. lia.
Qed.

(** A bet that is not negative, times a factor that is not negative, pays
    nothing negative. *)
Lemma blackjack_credit_nonneg cfg bet pay :
  factor_nonneg cfg = true -> 0 <= bet ->
  blackjack_credit cfg bet = inr pay -> 0 <= pay.
Proof.
  unfold factor_nonneg, blackjack_credit. intros Hf Hb.
  destruct (int_add_float 1 (blackjack_payout cfg)) as [e|factor];
    [discriminate|].
  apply negb_true_iff in Hf. unfold int_mul_float.
  destruct (float_of_int bet) as [e|a] eqn:Ea; [discriminate|].
  apply (int_of_float_nonneg (SFmul prec emax a factor)).
  apply SFmul_nonneg; [|assumption]. now apply (float_of_int_nonneg bet).
Qed.

(** The payout computation raises nothing but [OverflowError] (an
    infinite product, or a bet too large for a float) and [ValueError] (a
    product that is not a number). *)
Lemma blackjack_credit_exn cfg bet e :
  blackjack_credit cfg bet = inl e -> e = OverflowError \/ e = ValueError.
Proof.
  assert (Hf : forall n e', float_of_int n = inl e' -> e' = OverflowError).
  { intros n e'. unfold float_of_int.
    destruct (binary_normalize prec emax n 0 false); now intros [= <-]. }
  unfold blackjack_credit, int_add_float, int_mul_float.
  destruct (float_of_int 1) as [e1|a1] eqn:E1;
    [intros [= <-]; left; now apply (Hf 1)|].
  destruct (float_of_int bet) as [e2|a2] eqn:E2;
    [intros [= <-]; left; now apply (Hf bet)|].
  destruct (SFmul prec emax a2 _); simpl; intros [= <-]; auto.
Qed.

Lemma credited_nonneg cfg bet :
  factor_nonneg cfg = true -> 0 <= bet -> 0 <= credited cfg bet.
Proof.
  intros Hf Hb. unfold credited.
  destruct (blackjack_credit cfg bet) as [e|pay] eqn:E; [lia|].
  now apply (blackjack_credit_nonneg cfg bet).
Qed.

(* ===================================================================== *)
(** ** Integer columns and commits *)
(* ===================================================================== *)

#[local] Arguments fits : simpl never.
#[local] Arguments storable : simpl never.
#[local] Arguments Player.insertable : simpl never.
#[local] Arguments Player.updatable : simpl never.
#[local] Arguments GameSession.insertable : simpl never.
#[local] Arguments GameSession.updatable : simpl never.
#[local] Arguments commit_new_game : simpl never.
#[local] Arguments commit_game : simpl never.

(** The float operations are computed on closed values only. *)
Opaque int_add_float int_mul_float int_of_float.

(** Case analysis on every value the goal still matches on. *)
Ltac case_matches :=
  repeat match goal with
         | |- context [match ?x with _ => _ end] => destruct x eqn:?
         end.

Lemma fits_spec (z : Z) : fits z = true <-> - 2 ^ 63 <= z < 2 ^ 63.
Proof.
  unfold fits. rewrite andb_true_iff, Z.leb_le, Z.ltb_lt. reflexivity.
Qed.

Lemma fits_0 : fits 0 = true.
Proof. reflexivity. Qed.

Lemma storable_refl (z : Z) : storable z z = true.
Proof. unfold storable. now rewrite Z.eqb_refl. Qed.

Lemma storable_fits (z z' : Z) : fits z' = true -> storable z z' = true.
Proof. unfold storable. intros ->. apply orb_true_r. Qed.

(** A value read from a column fits it, so what can be stored over it is
    what fits. *)
Lemma storable_loaded (z z' : Z) :
  fits z = true -> storable z z' = fits z'.
Proof.
  unfold storable. intros H. destruct (Z.eqb_spec z z') as [<-|_];
    [now rewrite H|reflexivity].
Qed.

Lemma Player_updatable_refl (p : Player.t) : Player.updatable p p = true.
Proof. unfold Player.updatable. now rewrite !storable_refl. Qed.

Lemma GameSession_updatable_refl (g : GameSession.t) :
  GameSession.updatable g g = true.
Proof. unfold GameSession.updatable. now rewrite !storable_refl. Qed.

Lemma Player_updatable_balance (p : Player.t) (v : Z) :
  Player.updatable p (Player.set_balance p v) =
  storable (Player.balance p) v.
Proof.
  unfold Player.updatable. simpl. rewrite !storable_refl.
  now rewrite !andb_true_r.
Qed.

Lemma commit_new_game_done db loaded p g db' g' :
  commit_new_game db loaded p g = Done db' g' ->
  g' = g /\ db' = add_game g (save_player p db) /\
  Player.updatable loaded p = true /\ GameSession.insertable g = true.
Proof.
  unfold commit_new_game.
  destruct (Player.updatable loaded p), (GameSession.insertable g);
    simpl; intros [= <- <-]; auto.
Qed.

Lemma commit_game_done db loaded p loaded_game g db' g' :
  commit_game db loaded p loaded_game g = Done db' g' ->
  g' = g /\ db' = save_game g (save_player p db) /\
  Player.updatable loaded p = true /\
  GameSession.updatable loaded_game g = true.
Proof.
  unfold commit_game.
  destruct (Player.updatable loaded p), (GameSession.updatable loaded_game g);
    simpl; intros [= <- <-]; auto.
Qed.

(** A commit writes its rows, or raises and writes nothing. *)
Lemma commit_new_game_cases db loaded p g :
  commit_new_game db loaded p g = Done (add_game g (save_player p db)) g \/
  commit_new_game db loaded p g = Raised db OverflowError.
Proof.
  unfold commit_new_game.
  destruct (Player.updatable loaded p && GameSession.insertable g); auto.
Qed.

Lemma commit_game_cases db loaded p loaded_game g :
  commit_game db loaded p loaded_game g =
    Done (save_game g (save_player p db)) g \/
  commit_game db loaded p loaded_game g = Raised db OverflowError.
Proof.
  unfold commit_game.
  destruct (Player.updatable loaded p
            && GameSession.updatable loaded_game g); auto.
Qed.

Lemma enters_existing cfg sid db p :
  find_player sid db = Some p -> enters cfg sid db = true.
Proof. unfold enters. now intros ->. Qed.

(** [get_or_create_player] returns the resolved pair, or raises. *)
Lemma get_or_create_player_eq cfg sid db :
  get_or_create_player cfg sid db =
  if enters cfg sid db then Some (resolved cfg sid db) else None.
Proof.
  unfold get_or_create_player, enters, resolved.
  destruct (find_player sid db); [reflexivity|].
  unfold Player.insertable. simpl. rewrite fits_0, !andb_true_r.
  reflexivity.
Qed.

Lemma get_or_create_player_existing cfg sid db p :
  find_player sid db = Some p ->
  get_or_create_player cfg sid db = Some (p, db).
Proof.
  intros H. rewrite get_or_create_player_eq, (enters_existing cfg sid db p H).
  now rewrite (resolved_existing cfg sid db p H).
Qed.

(* ===================================================================== *)
(** ** reset_player *)
(* ===================================================================== *)

(** [reset_player] stores the initial balance on the resolved row, or
    raises and stores nothing. *)
Lemma reset_player_eq cfg sid db :
  reset_player cfg sid db =
  if enters cfg sid db
     && storable (Player.balance (fst (resolved cfg sid db)))
                 (initial_balance cfg)
  then Some (Player.set_balance (fst (resolved cfg sid db))
               (initial_balance cfg),
             save_player
               (Player.set_balance (fst (resolved cfg sid db))
                  (initial_balance cfg))
               (snd (resolved cfg sid db)))
  else None.
Proof.
  unfold reset_player. rewrite get_or_create_player_eq.
  destruct (enters cfg sid db); [|reflexivity].
  destruct (resolved cfg sid db) as [player db1]. cbv zeta.
  rewrite Player_updatable_balance. reflexivity.
Qed.

Lemma run_reset cfg sid db :
  run cfg (Reset sid) db =
  if enters cfg sid db
     && storable (Player.balance (fst (resolved cfg sid db)))
                 (initial_balance cfg)
  then save_player
         (Player.set_balance (fst (resolved cfg sid db))
            (initial_balance cfg))
         (snd (resolved cfg sid db))
  else db.
Proof.
  cbn [run]. rewrite reset_player_eq.
  now destruct (enters cfg sid db
                && storable (Player.balance (fst (resolved cfg sid db)))
                            (initial_balance cfg)).
Qed.

(* ===================================================================== *)
(** ** start_game: validation *)
(* ===================================================================== *)

(** A first contact whose player row cannot be stored raises before
    anything else is done. *)
Lemma start_game_entry cfg rng now sid bet db :
  enters cfg sid db = false ->
  start_game cfg rng now sid bet db = Raised db OverflowError.
Proof.
  intros En. unfold start_game. now rewrite get_or_create_player_eq, En.
Qed.

Lemma hit_entry cfg now sid db :
  enters cfg sid db = false -> hit cfg now sid db = Raised db OverflowError.
Proof.
  intros En. unfold hit. now rewrite get_or_create_player_eq, En.
Qed.

Lemma stand_entry cfg now sid db :
  enters cfg sid db = false -> stand cfg now sid db = Raised db OverflowError.
Proof.
  intros En. unfold stand. now rewrite get_or_create_player_eq, En.
Qed.

(** A request of a session whose row cannot be stored changes nothing. *)
Lemma run_entry cfg r db :
  enters cfg (session_of r) db = false -> run cfg r db = db.
Proof.
  destruct r as [rng now sid bet|now sid|now sid|sid]; cbn [session_of];
    intros En.
  - cbn [run]. now rewrite start_game_entry.
  - cbn [run]. now rewrite hit_entry.
  - cbn [run]. now rewrite stand_entry.
  - rewrite run_reset, En. reflexivity.
Qed.

(** Where a player is stored, the initial balance fits its column: the
    row of a first contact is inserted with it. *)
Lemma reachable_initial_fits cfg db :
  reachable cfg db ->
  forall p, In p (players db) -> fits (initial_balance cfg) = true.
Proof.
  induction 1 as [|db r _ Hr IH]; [intros p []|].
  destruct (enters cfg (session_of r) db) eqn:En.
  - intros _ _. unfold enters in En.
    destruct (find_player (session_of r) db) as [q|] eqn:Eq;
      [|assumption].
    apply (IH q). now apply find_player_In in Eq.
  - now rewrite (run_entry cfg r db En).
Qed.

(** C9.  For every stored player, whatever its balance, [reset_player]
    returns and stores that player with the configured initial balance and
    with the four cumulative totals (games, wins, losses, pushes) as they
    were; no game row is touched, and no other player's row either.  The
    one exception is an initial balance that is not the stored balance
    and does not fit the 64-bit column: the commit raises
    [OverflowError] and nothing is stored.  With an initial balance that
    fits, as the default 100 does, there is no exception; and there is
    none in any state the service reaches from an empty database, where
    a stored player shows that the initial balance fits. *)
Theorem reset_player_sets_initial_balance
    (cfg : Settings) (sid : string) (db : DB) (p0 : Player.t) :
  find_player sid db = Some p0 ->
  exists p db',
    reset_player cfg sid db =
      (if storable (Player.balance p0) (initial_balance cfg)
       then Some (p, db') else None) /\
    (fits (initial_balance cfg) = true ->
     reset_player cfg sid db = Some (p, db')) /\
    (reachable cfg db -> reset_player cfg sid db = Some (p, db')) /\
    find_player sid db' = Some p /\
    Player.balance p = initial_balance cfg /\
    Player.total_games p = Player.total_games p0 /\
    Player.total_wins p = Player.total_wins p0 /\
    Player.total_losses p = Player.total_losses p0 /\
    Player.total_pushes p = Player.total_pushes p0 /\
    games db' = games db /\
    (forall q, In q (players db) -> Player.id q <> Player.id p0 ->
               In q (players db')).
Proof.
  intros Hf.
  assert (E : reset_player cfg sid db =
              if storable (Player.balance p0) (initial_balance cfg)
              then Some (Player.set_balance p0 (initial_balance cfg),
                         save_player
                           (Player.set_balance p0 (initial_balance cfg)) db)
              else None).
  { unfold reset_player.
    rewrite (get_or_create_player_existing cfg sid db p0 Hf).
    cbv zeta. now rewrite Player_updatable_balance. }
  eexists _, _. split; [exact E|].
  split; [intros Hi; now rewrite E, storable_fits|].
  split.
  { intros Hr. rewrite E, storable_fits; [reflexivity|].
    apply (reachable_initial_fits cfg db Hr p0).
    now apply find_player_In in Hf. }
  split.
  { apply (find_player_save sid db p0); [assumption| |reflexivity].
    simpl. now apply find_player_session in Hf. }
  repeat (split; [reflexivity|]).
  intros q Hq Hne. now apply save_player_other.
Qed.

Lemma reset_player_sets_initial_balance_witness :
  let db := {| players := [Player.mk 1 "s" 7 5 2 2 1]; games := [] |} in
  exists p db',
    reset_player default_settings "s" db = Some (p, db') /\
    find_player "s" db' = Some p /\
    Player.balance p = 100 /\
    Player.total_games p = 5 /\
    Player.total_wins p = 2 /\
    Player.total_losses p = 2 /\
    Player.total_pushes p = 1 /\
    games db' = [] /\
    (forall q, In q (players db) -> Player.id q <> 1%nat ->
               In q (players db')).
Proof.
  destruct (reset_player_sets_initial_balance default_settings "s"
              {| players := [Player.mk 1 "s" 7 5 2 2 1]; games := [] |}
              (Player.mk 1 "s" 7 5 2 2 1) eq_refl)
    as (p & db' & _ & E & _ & H).
  exists p, db'. split; [exact (E eq_refl)|exact H].
Defined.

Lemma start_game_unfold cfg rng now sid bet db :
  enters cfg sid db = true ->
  start_game cfg rng now sid bet db =
  let player := fst (resolved cfg sid db) in
  let db1 := snd (resolved cfg sid db) in
  if bet <? min_bet cfg then
    Rejected db1 ("Minimum bet is $" ++ str (min_bet cfg))
  else if max_bet cfg <? bet then
    Rejected db1 ("Maximum bet is $" ++ str (max_bet cfg))
  else if Player.balance player <? bet then
    Rejected db1 "Insufficient balance"
  else
    match get_active_game (Player.id player) db1 with
    | Some _ => Rejected db1 "Game already in progress"
    | None => start_game cfg rng now sid bet db
    end.
Proof.
  intros En. unfold start_game at 1. unfold start_game.
  rewrite get_or_create_player_eq, En.
  destruct (resolved cfg sid db) as [player db1]. simpl.
  destruct (bet <? min_bet cfg); [reflexivity|].
  destruct (max_bet cfg <? bet); [reflexivity|].
  destruct (Player.balance player <? bet); [reflexivity|].
  destruct (get_active_game (Player.id player) db1); reflexivity.
Qed.

(** Every rejection of [start_game] hands back the database as player
    resolution left it. *)
Lemma start_game_rejected_db cfg rng now sid bet db db' reason :
  start_game cfg rng now sid bet db = Rejected db' reason ->
  enters cfg sid db = true /\ db' = snd (resolved cfg sid db).
Proof.
  unfold start_game. rewrite get_or_create_player_eq.
  destruct (enters cfg sid db); [|discriminate].
  destruct (resolved cfg sid db) as [player db1]. simpl.
  destruct (bet <? min_bet cfg); [now intros [= <- _]|].
  destruct (max_bet cfg <? bet); [now intros [= <- _]|].
  destruct (Player.balance player <? bet); [now intros [= <- _]|].
  destruct (get_active_game (Player.id player) db1); [now intros [= <- _]|].
  unfold draw_or_raise, value_or_raise, commit_new_game.
  case_matches; discriminate.
Qed.

(** The reason of a rejection is that of the first failing check. *)
Lemma start_game_rejection_reason cfg rng now sid bet db :
  let player := fst (resolved cfg sid db) in
  let db1 := snd (resolved cfg sid db) in
  enters cfg sid db = true ->
  bet < min_bet cfg \/ max_bet cfg < bet \/ Player.balance player < bet \/
  get_active_game (Player.id player) db1 <> None ->
  start_game cfg rng now sid bet db =
  Rejected db1
    (if bet <? min_bet cfg then "Minimum bet is $" ++ str (min_bet cfg)
     else if max_bet cfg <? bet then "Maximum bet is $" ++ str (max_bet cfg)
     else if Player.balance player <? bet then "Insufficient balance"
     else "Game already in progress").
Proof.
  intros player db1 En H. rewrite start_game_unfold by assumption.
  fold player db1. cbv zeta.
  destruct (bet <? min_bet cfg) eqn:E1; [reflexivity|].
  destruct (max_bet cfg <? bet) eqn:E2; [reflexivity|].
  destruct (Player.balance player <? bet) eqn:E3; [reflexivity|].
  apply Z.ltb_ge in E1, E2, E3.
  destruct (get_active_game (Player.id player) db1) eqn:E4;
    [reflexivity|].
  destruct H as [H|[H|[H|H]]]; try lia. congruence.
Qed.

(** A rejected first contact leaves the new player row behind. *)
Lemma start_game_rejected_creates_player :
  exists db',
    start_game default_settings identity_shuffle 0 "new" 0 empty_db =
      Rejected db' "Minimum bet is $1" /\
    players db' = [Player.mk 1 "new" 100 0 0 0 0] /\
    db' <> empty_db.
Proof.
  eexists. split; [vm_compute; reflexivity|].
  split; [reflexivity|discriminate].
Qed.

(** C6 (amended).  Let [player] and [db1] be the player record and the
    database once the session is resolved to its player: the stored row
    and the database as it is, or, on first contact, the new row (initial
    balance, zero totals) and the database with that row added.  Whenever
    the bet is below the minimum, above the maximum, above the player's
    balance, or the player has a game in progress, [start_game] is
    rejected, with the reason of the first failing check (in this order).
    On every rejected call the database handed back is [db1]: it has the
    game rows of [db] and every player row of [db] as it was; for a
    session with a player row it is [db] itself, and for a session without
    one it is [db] with exactly the new player row added, which was
    committed before the bet was looked at.  A first contact whose row
    cannot be stored (an initial balance outside the 64-bit column) is
    not rejected: it raises [OverflowError] and leaves [db]. *)
Theorem start_game_rejects_without_mutation
    (cfg : Settings) (rng : shuffler) (now : Z) (sid : string) (bet : Z)
    (db : DB) :
  let player := fst (resolved cfg sid db) in
  let db1 := snd (resolved cfg sid db) in
  (enters cfg sid db = true ->
   bet < min_bet cfg \/ max_bet cfg < bet \/ Player.balance player < bet \/
   get_active_game (Player.id player) db1 <> None ->
   start_game cfg rng now sid bet db =
   Rejected db1
     (if bet <? min_bet cfg then "Minimum bet is $" ++ str (min_bet cfg)
      else if max_bet cfg <? bet then "Maximum bet is $" ++ str (max_bet cfg)
      else if Player.balance player <? bet then "Insufficient balance"
      else "Game already in progress")) /\
  (forall db' reason,
     start_game cfg rng now sid bet db = Rejected db' reason ->
     db' = db1 /\
     games db' = games db /\
     (forall q, In q (players db) -> In q (players db')) /\
     (forall p, find_player sid db = Some p -> player = p /\ db' = db) /\
     (find_player sid db = None ->
      fits (initial_balance cfg) = true /\
      players db' =
        players db ++
        [Player.mk (next_player_id db) sid (initial_balance cfg) 0 0 0 0]))
  /\
  (enters cfg sid db = false ->
   find_player sid db = None /\ fits (initial_balance cfg) = false /\
   start_game cfg rng now sid bet db = Raised db OverflowError).
Proof.
  intros player db1. split; [|split].
  - apply start_game_rejection_reason.
  - intros db' reason H. apply start_game_rejected_db in H as [En ->].
    fold db1. split; [reflexivity|].
    split; [apply resolved_games|].
    split; [|split].
    + intros q Hq. subst db1. unfold resolved.
      destruct (find_player sid db); simpl; [assumption|].
      apply in_or_app. now left.
    + intros p Hp. subst player db1.
      now rewrite (resolved_existing cfg sid db p Hp).
    + intros Hn. subst db1. unfold enters, resolved in *.
      rewrite Hn in *. auto.
  - intros En. split; [|split; [|now apply start_game_entry]];
      unfold enters in En; now destruct (find_player sid db).
Qed.

Lemma start_game_rejects_without_mutation_witness :
  start_game default_settings identity_shuffle 0 "s" 150
    {| players := [Player.mk 1 "s" 100 0 0 0 0]; games := [] |} =
    Rejected {| players := [Player.mk 1 "s" 100 0 0 0 0]; games := [] |}
             "Insufficient balance" /\
  start_game default_settings identity_shuffle 0 "new" 0 empty_db =
    Rejected (add_player (Player.mk 1 "new" 100 0 0 0 0) empty_db)
             "Minimum bet is $1".
Proof.
  split.
  - exact (proj1 (start_game_rejects_without_mutation default_settings
                    identity_shuffle 0 "s" 150
                    {| players := [Player.mk 1 "s" 100 0 0 0 0];
                       games := [] |})
                 eq_refl
                 (or_intror (or_intror (or_introl eq_refl)))).
  - exact (proj1 (start_game_rejects_without_mutation default_settings
                    identity_shuffle 0 "new" 0 empty_db)
                 eq_refl (or_introl eq_refl)).
Defined.

(* ===================================================================== *)
(** ** The shape of a successful call *)
(* ===================================================================== *)

(** A call that does not return a game leaves the database as player
    resolution left it, or, when it raised on a first contact, as it
    was. *)
Lemma start_game_not_done cfg rng now sid bet db :
  (exists db' g, start_game cfg rng now sid bet db = Done db' g) \/
  db_of (start_game cfg rng now sid bet db) =
  snd (resolved cfg sid db) \/
  db_of (start_game cfg rng now sid bet db) = db.
Proof.
  destruct (enters cfg sid db) eqn:En;
    [|right; right; now rewrite start_game_entry].
  destruct (start_game cfg rng now sid bet db) as [db' g|db' m|db' e] eqn:E.
  - left. now exists db', g.
  - right; left. simpl. now apply start_game_rejected_db in E.
  - right; left. simpl. revert E. unfold start_game.
    rewrite get_or_create_player_eq, En.
    destruct (resolved cfg sid db) as [player db1]. simpl.
    destruct (bet <? min_bet cfg); [discriminate|].
    destruct (max_bet cfg <? bet); [discriminate|].
    destruct (Player.balance player <? bet); [discriminate|].
    destruct (get_active_game (Player.id player) db1); [discriminate|].
    unfold draw_or_raise, value_or_raise, commit_new_game.
    case_matches; intros [= <- _]; reflexivity.
Qed.

Lemma start_game_done cfg rng now sid bet db db' g :
  start_game cfg rng now sid bet db = Done db' g ->
  let player := fst (resolved cfg sid db) in
  let db1 := snd (resolved cfg sid db) in
  exists c1 c2 c3 c4 deck1 deck2 deck3 deck p',
    draw rng (new_Deck rng) = Some (c1, deck1) /\
    draw rng deck1 = Some (c2, deck2) /\
    draw rng deck2 = Some (c3, deck3) /\
    draw rng deck3 = Some (c4, deck) /\
    min_bet cfg <= bet <= max_bet cfg /\
    bet <= Player.balance player /\
    get_active_game (Player.id player) db1 = None /\
    db' = add_game g (save_player p' db1) /\
    let fresh st done pay msg :=
      GameSession.mk (next_game_id db1) (Player.id player) bet st
        (map to_dict [c1; c2]) (map to_dict [c3; c4])
        (map to_dict (_cards deck)) (calculate [c1; c2])
        (calculate [c3; c4]) done pay msg in
    let settled bal wins pushes :=
      Player.mk (Player.id player) (Player.session_id player) bal
        (Player.total_games player + 1) wins
        (Player.total_losses player) pushes in
    (is_blackjack [c1; c2] = false /\
     g = fresh IN_PROGRESS None 0 "" /\
     p' = Player.set_balance player (Player.balance player - bet))
    \/
    (is_blackjack [c1; c2] = true /\ is_blackjack [c3; c4] = true /\
     g = fresh PUSH (Some now) bet "Both have Blackjack! Push!" /\
     p' = settled (Player.balance player - bet + bet)
            (Player.total_wins player) (Player.total_pushes player + 1))
    \/
    (is_blackjack [c1; c2] = true /\ is_blackjack [c3; c4] = false /\
     g = fresh BLACKJACK (Some now)
           (credited cfg bet)
           "Blackjack! You win!" /\
     p' = settled (Player.balance player - bet +
                   credited cfg bet)
            (Player.total_wins player + 1) (Player.total_pushes player)).
Proof.
  unfold start_game. rewrite get_or_create_player_eq.
  destruct (enters cfg sid db); [|discriminate].
  destruct (resolved cfg sid db) as [player db1]. simpl.
  destruct (bet <? min_bet cfg) eqn:E1; [discriminate|].
  destruct (max_bet cfg <? bet) eqn:E2; [discriminate|].
  destruct (Player.balance player <? bet) eqn:E3; [discriminate|].
  apply Z.ltb_ge in E1, E2, E3.
  destruct (get_active_game (Player.id player) db1) eqn:E4; [discriminate|].
  unfold draw_or_raise.
  destruct (draw rng (new_Deck rng)) as [[c1 deck1]|] eqn:D1; [|discriminate].
  destruct (draw rng deck1) as [[c2 deck2]|] eqn:D2; [|discriminate].
  destruct (draw rng deck2) as [[c3 deck3]|] eqn:D3; [|discriminate].
  destruct (draw rng deck3) as [[c4 deck]|] eqn:D4; [|discriminate].
  intros H. exists c1, c2, c3, c4, deck1, deck2, deck3, deck.
  unfold credited, blackjack_credit.
  destruct (is_blackjack [c1; c2]) eqn:B1;
    [destruct (is_blackjack [c3; c4]) eqn:B2|].
  - apply commit_new_game_done in H as (-> & -> & _). eexists.
    (do 8 (split; [first [reflexivity | assumption | lia]|])); cbv zeta.
    right; left. repeat split; reflexivity.
  - destruct (int_add_float 1 (blackjack_payout cfg)) as [e|factor];
      cbn [value_or_raise] in H; [discriminate|].
    destruct (int_mul_float bet factor) as [e|product];
      cbn [value_or_raise] in H; [discriminate|].
    destruct (int_of_float product) as [e|payout];
      cbn [value_or_raise] in H; [discriminate|].
    apply commit_new_game_done in H as (-> & -> & _). eexists.
    (do 8 (split; [first [reflexivity | assumption | lia]|])); cbv zeta.
    right; right. repeat split; reflexivity.
  - apply commit_new_game_done in H as (-> & -> & _). eexists.
    (do 8 (split; [first [reflexivity | assumption | lia]|])); cbv zeta.
    left. repeat split; reflexivity.
Qed.

(** What a successful [start_game] had to pass: the session has a row or
    its row could be stored, the values written fit their columns, and
    the payout of a natural blackjack is the value computed in floating
    point. *)
Lemma start_game_done_stored cfg rng now sid bet db db' g :
  start_game cfg rng now sid bet db = Done db' g ->
  enters cfg sid db = true /\
  GameSession.insertable g = true /\
  (exists p', db' = add_game g (save_player p' (snd (resolved cfg sid db))) /\
              Player.updatable (fst (resolved cfg sid db)) p' = true) /\
  (GameSession.status g = BLACKJACK ->
   blackjack_credit cfg bet = inr (GameSession.payout g)).
Proof.
  unfold start_game. rewrite get_or_create_player_eq.
  destruct (enters cfg sid db); [|discriminate].
  destruct (resolved cfg sid db) as [player db1]. simpl.
  destruct (bet <? min_bet cfg); [discriminate|].
  destruct (max_bet cfg <? bet); [discriminate|].
  destruct (Player.balance player <? bet); [discriminate|].
  destruct (get_active_game (Player.id player) db1); [discriminate|].
  unfold draw_or_raise.
  destruct (draw rng (new_Deck rng)) as [[c1 deck1]|]; [|discriminate].
  destruct (draw rng deck1) as [[c2 deck2]|]; [|discriminate].
  destruct (draw rng deck2) as [[c3 deck3]|]; [|discriminate].
  destruct (draw rng deck3) as [[c4 deck]|]; [|discriminate].
  unfold blackjack_credit.
  destruct (is_blackjack [c1; c2]); [destruct (is_blackjack [c3; c4])|].
  - intros H. apply commit_new_game_done in H as (-> & -> & U & I).
    split; [reflexivity|]. split; [assumption|].
    split; [eexists; split; [reflexivity|exact U]|discriminate].
  - destruct (int_add_float 1 (blackjack_payout cfg)) as [e|factor];
      cbn [value_or_raise]; [discriminate|].
    destruct (int_mul_float bet factor) as [e|product];
      cbn [value_or_raise]; [discriminate|].
    destruct (int_of_float product) as [e|payout] eqn:Ep;
      cbn [value_or_raise]; [discriminate|].
    intros H. apply commit_new_game_done in H as (-> & -> & U & I).
    split; [reflexivity|]. split; [assumption|].
    split; [eexists; split; [reflexivity|exact U]|reflexivity].
  - intros H. apply commit_new_game_done in H as (-> & -> & U & I).
    split; [reflexivity|]. split; [assumption|].
    split; [eexists; split; [reflexivity|exact U]|discriminate].
Qed.

Lemma hit_not_done cfg now sid db :
  (exists db' g, hit cfg now sid db = Done db' g) \/
  db_of (hit cfg now sid db) = snd (resolved cfg sid db) \/
  db_of (hit cfg now sid db) = db.
Proof.
  destruct (enters cfg sid db) eqn:En;
    [|right; right; now rewrite hit_entry].
  unfold hit. rewrite get_or_create_player_eq, En.
  destruct (resolved cfg sid db) as [player db1].
  simpl. destruct (get_active_game (Player.id player) db1) as [game|];
    [|now right; left].
  unfold decode_or_raise.
  destruct (cards_from_dicts (GameSession.deck_state game)) as [[|c l]|];
    [now right; left| |now right; left].
  destruct (pop (c :: l)) as [[new_card rest]|]; [|now right; left].
  destruct (cards_from_dicts (GameSession.player_hand game));
    [|now right; left].
  destruct (is_bust _);
    match goal with
    | |- context [commit_game ?d ?l ?p ?lg ?g] =>
        destruct (commit_game_cases d l p lg g) as [-> | ->]
    end; first [left; eexists _, _; reflexivity | now right; left].
Qed.

Lemma hit_done cfg now sid db db' g' :
  hit cfg now sid db = Done db' g' ->
  let player := fst (resolved cfg sid db) in
  let db1 := snd (resolved cfg sid db) in
  exists game hand rest new_card p',
    get_active_game (Player.id player) db1 = Some game /\
    cards_from_dicts (GameSession.deck_state game) = Some (rest ++ [new_card]) /\
    cards_from_dicts (GameSession.player_hand game) = Some hand /\
    db' = save_game g' (save_player p' db1) /\
    let drawn st done msg :=
      GameSession.mk (GameSession.id game) (GameSession.player_id game)
        (GameSession.bet_amount game) st
        (map to_dict (hand ++ [new_card])) (GameSession.dealer_hand game)
        (map to_dict rest) (calculate (hand ++ [new_card]))
        (GameSession.dealer_score game) done (GameSession.payout game) msg in
    (is_bust (calculate (hand ++ [new_card])) = false /\
     g' = drawn (GameSession.status game) (GameSession.completed_at game)
                (GameSession.message game) /\
     p' = player)
    \/
    (is_bust (calculate (hand ++ [new_card])) = true /\
     g' = drawn PLAYER_BUST (Some now) "Bust! You lose!" /\
     p' = Player.mk (Player.id player) (Player.session_id player)
            (Player.balance player) (Player.total_games player + 1)
            (Player.total_wins player) (Player.total_losses player + 1)
            (Player.total_pushes player)).
Proof.
  unfold hit. rewrite get_or_create_player_eq.
  destruct (enters cfg sid db); [|discriminate].
  destruct (resolved cfg sid db) as [player db1].
  simpl. destruct (get_active_game (Player.id player) db1) as [game|] eqn:Eg;
    [|discriminate].
  unfold decode_or_raise.
  destruct (cards_from_dicts (GameSession.deck_state game)) as [[|c l]|]
    eqn:Edeck; [discriminate| |discriminate].
  destruct (pop (c :: l)) as [[new_card rest]|] eqn:Epop; [|discriminate].
  apply pop_some_inv in Epop. rewrite Epop in Edeck.
  destruct (cards_from_dicts (GameSession.player_hand game)) as [hand|]
    eqn:Ehand; [|discriminate].
  intros H. exists game, hand, rest, new_card.
  cbn [GameSession.set_player_score GameSession.player_score] in H.
  destruct (is_bust (calculate (hand ++ [new_card]))) eqn:B;
    apply commit_game_done in H as (-> & -> & _); eexists;
    (do 4 (split; [first [reflexivity | assumption]|])); cbv zeta;
    [right | left];
    repeat split; reflexivity.
Qed.

(** What a successful [hit] or [stand] had to pass. *)
Lemma hit_done_stored cfg now sid db db' g' :
  hit cfg now sid db = Done db' g' ->
  enters cfg sid db = true /\
  exists game p',
    get_active_game (Player.id (fst (resolved cfg sid db)))
                    (snd (resolved cfg sid db)) = Some game /\
    db' = save_game g' (save_player p' (snd (resolved cfg sid db))) /\
    Player.updatable (fst (resolved cfg sid db)) p' = true /\
    GameSession.updatable game g' = true.
Proof.
  unfold hit. rewrite get_or_create_player_eq.
  destruct (enters cfg sid db); [|discriminate].
  destruct (resolved cfg sid db) as [player db1].
  simpl. destruct (get_active_game (Player.id player) db1) as [game|] eqn:Eg;
    [|discriminate].
  unfold decode_or_raise.
  destruct (cards_from_dicts (GameSession.deck_state game)) as [[|c l]|];
    [discriminate| |discriminate].
  destruct (pop (c :: l)) as [[new_card rest]|]; [|discriminate].
  destruct (cards_from_dicts (GameSession.player_hand game)) as [hand|];
    [|discriminate].
  intros H. split; [reflexivity|]. exists game.
  destruct (is_bust _);
    apply commit_game_done in H as (-> & -> & U & I); eexists; auto.
Qed.

Lemma stand_not_done cfg now sid db :
  (exists db' g, stand cfg now sid db = Done db' g) \/
  db_of (stand cfg now sid db) = snd (resolved cfg sid db) \/
  db_of (stand cfg now sid db) = db.
Proof.
  destruct (enters cfg sid db) eqn:En;
    [|right; right; now rewrite stand_entry].
  unfold stand. rewrite get_or_create_player_eq, En.
  destruct (resolved cfg sid db) as [player db1].
  simpl. destruct (get_active_game (Player.id player) db1) as [game|];
    [|now right; left].
  unfold decode_or_raise.
  destruct (cards_from_dicts (GameSession.player_hand game));
    [|now right; left].
  destruct (cards_from_dicts (GameSession.dealer_hand game)) as [dh|];
    [|now right; left].
  destruct (cards_from_dicts (GameSession.deck_state game)) as [deck|];
    [|now right; left].
  destruct (dealer_draws _ dh (rev deck)) as [dh' stack].
  case_ifs;
    match goal with
    | |- context [commit_game ?d ?l ?p ?lg ?g] =>
        destruct (commit_game_cases d l p lg g) as [-> | ->]
    end; first [left; eexists _, _; reflexivity | now right; left].
Qed.

Lemma stand_done cfg now sid db db' g' :
  stand cfg now sid db = Done db' g' ->
  let player := fst (resolved cfg sid db) in
  let db1 := snd (resolved cfg sid db) in
  exists game hand dealer deck dealer' stack p',
    get_active_game (Player.id player) db1 = Some game /\
    cards_from_dicts (GameSession.player_hand game) = Some hand /\
    cards_from_dicts (GameSession.dealer_hand game) = Some dealer /\
    cards_from_dicts (GameSession.deck_state game) = Some deck /\
    dealer_draws (dealer_stand_threshold cfg) dealer (rev deck) =
      (dealer', stack) /\
    db' = save_game g' (save_player p' db1) /\
    let final st pay msg :=
      GameSession.mk (GameSession.id game) (GameSession.player_id game)
        (GameSession.bet_amount game) st (GameSession.player_hand game)
        (map to_dict dealer') (map to_dict (rev stack))
        (GameSession.player_score game) (calculate dealer') (Some now)
        pay msg in
    let paid bal wins losses pushes :=
      Player.mk (Player.id player) (Player.session_id player) bal
        (Player.total_games player + 1) wins losses pushes in
    (is_bust (calculate dealer') = true /\
     g' = final DEALER_BUST (GameSession.bet_amount game * 2)
                "Dealer busts! You win!" /\
     p' = paid (Player.balance player + GameSession.bet_amount game * 2)
               (Player.total_wins player + 1) (Player.total_losses player)
               (Player.total_pushes player))
    \/
    (is_bust (calculate dealer') = false /\
     GameSession.player_score game < calculate dealer' /\
     g' = final DEALER_WIN (GameSession.payout game) "Dealer wins!" /\
     p' = paid (Player.balance player) (Player.total_wins player)
               (Player.total_losses player + 1) (Player.total_pushes player))
    \/
    (is_bust (calculate dealer') = false /\
     calculate dealer' < GameSession.player_score game /\
     g' = final PLAYER_WIN (GameSession.bet_amount game * 2) "You win!" /\
     p' = paid (Player.balance player + GameSession.bet_amount game * 2)
               (Player.total_wins player + 1) (Player.total_losses player)
               (Player.total_pushes player))
    \/
    (is_bust (calculate dealer') = false /\
     calculate dealer' = GameSession.player_score game /\
     g' = final PUSH (GameSession.bet_amount game) "Push!" /\
     p' = paid (Player.balance player + GameSession.bet_amount game)
               (Player.total_wins player) (Player.total_losses player)
               (Player.total_pushes player + 1)).
Proof.
  unfold stand. rewrite get_or_create_player_eq.
  destruct (enters cfg sid db); [|discriminate].
  destruct (resolved cfg sid db) as [player db1].
  simpl. destruct (get_active_game (Player.id player) db1) as [game|] eqn:Eg;
    [|discriminate].
  unfold decode_or_raise.
  destruct (cards_from_dicts (GameSession.player_hand game)) as [hand|]
    eqn:Ehand; [|discriminate].
  destruct (cards_from_dicts (GameSession.dealer_hand game)) as [dealer|]
    eqn:Edealer; [|discriminate].
  destruct (cards_from_dicts (GameSession.deck_state game)) as [deck|]
    eqn:Edeck; [|discriminate].
  destruct (dealer_draws _ dealer (rev deck)) as [dealer' stack] eqn:Edraws.
  intros H. exists game, hand, dealer, deck, dealer', stack.
  cbn [GameSession.set_dealer_score GameSession.set_deck_state
       GameSession.set_dealer_hand GameSession.set_completed_at
       GameSession.player_score] in H.
  destruct (is_bust (calculate dealer')) eqn:B;
    [|destruct (GameSession.player_score game <? calculate dealer') eqn:L1;
      [|destruct (calculate dealer' <? GameSession.player_score game) eqn:L2]];
    apply commit_game_done in H as (-> & -> & _); eexists;
    (do 6 (split; [first [reflexivity | assumption]|])); cbv zeta.
  - left. repeat split; reflexivity.
  - right; left. apply Z.ltb_lt in L1. repeat split; first [reflexivity|lia].
  - right; right; left. apply Z.ltb_lt in L2.
    repeat split; first [reflexivity|lia].
  - right; right; right. apply Z.ltb_ge in L1, L2.
    repeat split; first [reflexivity|lia].
Qed.

Lemma stand_done_stored cfg now sid db db' g' :
  stand cfg now sid db = Done db' g' ->
  enters cfg sid db = true /\
  exists game p',
    get_active_game (Player.id (fst (resolved cfg sid db)))
                    (snd (resolved cfg sid db)) = Some game /\
    db' = save_game g' (save_player p' (snd (resolved cfg sid db))) /\
    Player.updatable (fst (resolved cfg sid db)) p' = true /\
    GameSession.updatable game g' = true.
Proof.
  unfold stand. rewrite get_or_create_player_eq.
  destruct (enters cfg sid db); [|discriminate].
  destruct (resolved cfg sid db) as [player db1].
  simpl. destruct (get_active_game (Player.id player) db1) as [game|] eqn:Eg;
    [|discriminate].
  unfold decode_or_raise.
  destruct (cards_from_dicts (GameSession.player_hand game)) as [hand|];
    [|discriminate].
  destruct (cards_from_dicts (GameSession.dealer_hand game)) as [dealer|];
    [|discriminate].
  destruct (cards_from_dicts (GameSession.deck_state game)) as [deck|];
    [|discriminate].
  destruct (dealer_draws _ dealer (rev deck)) as [dealer' stack].
  intros H. split; [reflexivity|]. exists game.
  revert H. case_ifs; intros H;
    apply commit_game_done in H as (-> & -> & U & I); eexists; auto.
Qed.

(* ===================================================================== *)
(** ** Sample shuffles and runs *)
(* ===================================================================== *)

#[local] Arguments Z.mul : simpl never.

Lemma fair_identity_shuffle : fair identity_shuffle.
Proof. intros n l. apply Permutation_refl. Qed.

Lemma fair_rotate_shuffle : fair rotate_shuffle.
Proof.
  intros n [|x l]; [constructor|]. simpl. apply Permutation_cons_append.
Qed.

Lemma fair_reverse_shuffle : fair reverse_shuffle.
Proof. intros n l. apply Permutation_rev. Qed.

Lemma reachable_demo_started : reachable default_settings demo_started.
Proof.
  apply reachable_run; [exact fair_identity_shuffle|]. apply reachable_empty.
Qed.

Lemma find_player_demo_started :
  find_player "s" demo_started = Some (Player.mk 1 "s" 90 0 0 0 0).
Proof. reflexivity. Qed.

(* ===================================================================== *)
(** ** Cumulative totals *)
(* ===================================================================== *)

Lemma add4_tally_in_progress (c : Z * Z * Z * Z) :
  add4 c (tally IN_PROGRESS) = c.
Proof. destruct c as [[[a b] d] e]. simpl. now rewrite !Z.add_0_r. Qed.

(** What a successful call writes to the player row: same key and session,
    the totals moved by the tally of the returned game's status. *)
Lemma start_game_player_row cfg rng now sid bet db db' g :
  start_game cfg rng now sid bet db = Done db' g ->
  let player := fst (resolved cfg sid db) in
  let db1 := snd (resolved cfg sid db) in
  exists p',
    db' = add_game g (save_player p' db1) /\
    Player.id p' = Player.id player /\
    Player.session_id p' = Player.session_id player /\
    counters p' = add4 (counters player) (tally (GameSession.status g)) /\
    Player.balance p' = Player.balance player - bet + GameSession.payout g.
Proof.
  intros H. apply start_game_done in H. cbv zeta in H.
  destruct H as (c1 & c2 & c3 & c4 & d1 & d2 & d3 & d & p' & _ & _ & _ & _
                 & _ & _ & _ & Hdb & H).
  exists p'. split; [assumption|].
  destruct H as [(_ & -> & ->)|[(_ & _ & -> & ->)|(_ & _ & -> & ->)]];
    unfold counters; simpl; rewrite ?Z.add_0_r; repeat split; lia.
Qed.

Lemma hit_player_row cfg now sid db db' g :
  hit cfg now sid db = Done db' g ->
  let player := fst (resolved cfg sid db) in
  let db1 := snd (resolved cfg sid db) in
  exists game p',
    get_active_game (Player.id player) db1 = Some game /\
    db' = save_game g (save_player p' db1) /\
    Player.id p' = Player.id player /\
    Player.session_id p' = Player.session_id player /\
    (GameSession.status g = IN_PROGRESS \/
     GameSession.status g = PLAYER_BUST) /\
    counters p' = add4 (counters player) (tally (GameSession.status g)) /\
    Player.balance p' = Player.balance player /\
    GameSession.id g = GameSession.id game /\
    GameSession.player_id g = GameSession.player_id game /\
    GameSession.bet_amount g = GameSession.bet_amount game.
Proof.
  intros H. apply hit_done in H. cbv zeta in H.
  destruct H as (game & hand & rest & c & p' & Hg & _ & _ & Hdb & H).
  exists game, p'. split; [assumption|]. split; [assumption|].
  assert (Hs : in_progress (GameSession.status game) = true).
  { apply find_some in Hg as [_ Hg]. now apply andb_prop in Hg. }
  destruct H as [(_ & -> & ->)|(_ & -> & ->)]; unfold counters; simpl.
  - destruct (GameSession.status game); try discriminate.
    simpl. rewrite !Z.add_0_r. repeat split; auto.
  - rewrite !Z.add_0_r. repeat split; auto.
Qed.

Lemma stand_player_row cfg now sid db db' g :
  stand cfg now sid db = Done db' g ->
  let player := fst (resolved cfg sid db) in
  let db1 := snd (resolved cfg sid db) in
  exists game p',
    get_active_game (Player.id player) db1 = Some game /\
    db' = save_game g (save_player p' db1) /\
    Player.id p' = Player.id player /\
    Player.session_id p' = Player.session_id player /\
    in_progress (GameSession.status g) = false /\
    counters p' = add4 (counters player) (tally (GameSession.status g)) /\
    Player.balance p' =
      Player.balance player +
      snd (resolution (GameSession.dealer_score g)
                      (GameSession.player_score g)
                      (GameSession.bet_amount g)) /\
    GameSession.id g = GameSession.id game /\
    GameSession.player_id g = GameSession.player_id game /\
    GameSession.bet_amount g = GameSession.bet_amount game.
Proof.
  intros H. apply stand_done in H. cbv zeta in H.
  destruct H as (game & hand & dealer & deck & dealer' & stack & p' & Hg & _
                 & _ & _ & _ & Hdb & H).
  exists game, p'. split; [assumption|]. split; [assumption|].
  unfold resolution, is_bust in *.
  destruct H as [(B & -> & ->)|[(B & L & -> & ->)|[(B & L & -> & ->)
                                                  |(B & L & -> & ->)]]];
    unfold counters; simpl; rewrite B; simpl.
  - rewrite !Z.add_0_r. repeat split; first [reflexivity | lia].
  - apply Z.ltb_lt in L. rewrite L. simpl. rewrite !Z.add_0_r.
    repeat split; first [reflexivity | lia].
  - assert (L' : (GameSession.player_score game <? calculate dealer') = false)
      by (apply Z.ltb_ge; lia).
    apply Z.ltb_lt in L. rewrite L', L. simpl. rewrite !Z.add_0_r.
    repeat split; first [reflexivity | lia].
  - rewrite L, Z.ltb_irrefl. simpl. rewrite !Z.add_0_r. repeat split; first [reflexivity | lia].
Qed.

Lemma tally_add_up (c : Z * Z * Z * Z) (st : GameStatus) (p p' : Player.t) :
  c = counters p -> totals_add_up p ->
  counters p' = add4 c (tally st) -> totals_add_up p'.
Proof.
  unfold totals_add_up, counters. intros -> Hp H.
  destruct st; simpl in H; injection H as H1 H2 H3 H4; lia.
Qed.

(** The totals of every row after a request: those of a row before it (or
    zeros, for the row a first contact creates), moved by nothing or by the
    tally of the status of the game the request returned. *)
Lemma run_counters cfg r db p' :
  In p' (players (run cfg r db)) ->
  exists c,
    (c = (0, 0, 0, 0) \/
     exists p, In p (players db) /\ Player.id p = Player.id p' /\
               c = counters p) /\
    (counters p' = c \/
     counters p' = add4 c (tally (returned_status cfg r db))).
Proof.
  assert (Hgoc : forall sid q,
             In q (players (snd (resolved cfg sid db))) ->
             counters q = (0, 0, 0, 0) \/ In q (players db)).
  { intros sid q Hq. apply resolved_In in Hq as [->|Hq]; auto.
    unfold resolved.
    destruct (find_player sid db) as [p|] eqn:E; simpl; auto.
    right. now apply find_player_In in E. }
  assert (Hold : forall sid q,
             In q (players (snd (resolved cfg sid db))) ->
             exists c,
               (c = (0, 0, 0, 0) \/
                exists p, In p (players db) /\ Player.id p = Player.id q /\
                          c = counters p) /\
               (counters q = c \/
                counters q = add4 c (tally (returned_status cfg r db)))).
  { intros sid q Hq. destruct (Hgoc sid q Hq) as [Hz|Hin].
    - exists (0, 0, 0, 0). auto.
    - exists (counters q). split; [right; now exists q|now left]. }
  assert (Hsaved : forall sid ps st,
             Player.id ps = Player.id (fst (resolved cfg sid db)) ->
             counters ps =
               add4 (counters (fst (resolved cfg sid db)))
                    (tally st) ->
             forall q,
               In q (players (save_player ps
                               (snd (resolved cfg sid db)))) ->
               exists c,
                 (c = (0, 0, 0, 0) \/
                  exists p, In p (players db) /\ Player.id p = Player.id q /\
                            c = counters p) /\
                 (counters q = c \/ counters q = add4 c (tally st))).
  { intros sid ps st Hid Hc q Hq. apply save_player_In in Hq as [->|Hq].
    - pose proof (resolved_find cfg sid db) as Hf.
      apply find_player_In in Hf. destruct (Hgoc sid _ Hf) as [Hz|Hin].
      + exists (0, 0, 0, 0). split; [now left|]. right. now rewrite Hc, Hz.
      + exists (counters (fst (resolved cfg sid db))).
        split; [|now right]. right. eexists. split; [exact Hin|]. auto.
    - destruct (Hgoc sid q Hq) as [Hz|Hin].
      + exists (0, 0, 0, 0). auto.
      + exists (counters q). split; [right; now exists q|now left]. }
  assert (Hsame : forall q,
             In q (players db) ->
             exists c,
               (c = (0, 0, 0, 0) \/
                exists p, In p (players db) /\ Player.id p = Player.id q /\
                          c = counters p) /\
               (counters q = c \/
                counters q = add4 c (tally (returned_status cfg r db)))).
  { intros q Hq. exists (counters q).
    split; [right; now exists q|now left]. }
  destruct r as [rng now sid bet|now sid|now sid|sid].
  - cbn [run returned_status].
    destruct (start_game_not_done cfg rng now sid bet db)
      as [(db' & g & E)|[E|E]].
    + rewrite E. simpl. apply start_game_player_row in E. cbv zeta in E.
      destruct E as (ps & -> & Hid & _ & Hc & _). simpl.
      now apply (Hsaved sid ps).
    + rewrite E. apply Hold.
    + rewrite E. apply Hsame.
  - cbn [run returned_status].
    destruct (hit_not_done cfg now sid db) as [(db' & g & E)|[E|E]].
    + rewrite E. simpl. apply hit_player_row in E. cbv zeta in E.
      destruct E as (game & ps & _ & -> & Hid & _ & _ & Hc & _). simpl.
      now apply (Hsaved sid ps).
    + rewrite E. apply Hold.
    + rewrite E. apply Hsame.
  - cbn [run returned_status].
    destruct (stand_not_done cfg now sid db) as [(db' & g & E)|[E|E]].
    + rewrite E. simpl. apply stand_player_row in E. cbv zeta in E.
      destruct E as (game & ps & _ & -> & Hid & _ & _ & Hc & _). simpl.
      now apply (Hsaved sid ps).
    + rewrite E. apply Hold.
    + rewrite E. apply Hsame.
  - rewrite run_reset.
    destruct (enters cfg sid db
              && storable (Player.balance (fst (resolved cfg sid db)))
                          (initial_balance cfg)); [|apply Hsame].
    intros Hq.
    apply (Hsaved sid _ IN_PROGRESS) in Hq; [|reflexivity|].
    + destruct Hq as (c & Hc & Hq). exists c. split; [assumption|].
      rewrite add4_tally_in_progress in Hq. tauto.
    + now rewrite add4_tally_in_progress.
Qed.

(** The row of the calling session after a call that returned a game:
    its totals moved by the tally of that game's status. *)
Lemma caller_row_saved cfg sid db ps g (db' : DB) :
  players db' = players (save_player ps
                           (snd (resolved cfg sid db))) ->
  Player.id ps = Player.id (fst (resolved cfg sid db)) ->
  Player.session_id ps =
    Player.session_id (fst (resolved cfg sid db)) ->
  counters ps =
    add4 (counters (fst (resolved cfg sid db)))
         (tally (GameSession.status g)) ->
  exists p',
    find_player sid db' = Some p' /\
    counters p' =
      add4 (counters (fst (resolved cfg sid db)))
           (tally (GameSession.status g)).
Proof.
  intros Hdb Hid Hsid Hc. exists ps. split; [|exact Hc].
  pose proof (resolved_find cfg sid db) as Hf.
  unfold find_player. rewrite Hdb.
  apply (find_player_save sid _ _ ps Hf); [|assumption].
  rewrite Hsid. now apply find_player_session in Hf.
Qed.

(* ===================================================================== *)
(** ** One open game per player *)
(* ===================================================================== *)

Lemma NoDup_map_eq {A B : Type} (f : A -> B) (l : list A) (x y : A) :
  NoDup (map f l) -> In x l -> In y l -> f x = f y -> x = y.
Proof.
  induction l as [|a l IH]; simpl; [intros _ []|].
  intros Hnd Hx Hy Hf. inversion Hnd as [|? ? Hnot Hnd']; subst.
  destruct Hx as [->|Hx], Hy as [->|Hy]; auto.
  - exfalso. apply Hnot. rewrite Hf. now apply in_map.
  - exfalso. apply Hnot. rewrite <- Hf. now apply in_map.
Qed.

Lemma filter_map_le {A : Type} (pred : A -> bool) (f : A -> A) (l : list A) :
  (forall x, In x l -> pred (f x) = true -> pred x = true) ->
  (List.length (filter pred (map f l)) <= List.length (filter pred l))%nat.
Proof.
  induction l as [|a l IH]; simpl; [lia|]. intros H.
  assert (IH' := IH (fun x Hx => H x (or_intror Hx))).
  destruct (pred (f a)) eqn:E.
  - rewrite (H a (or_introl eq_refl) E). simpl. lia.
  - destruct (pred a); simpl; lia.
Qed.

Lemma get_active_game_In pid db g :
  get_active_game pid db = Some g ->
  In g (games db) /\ GameSession.player_id g = pid /\
  in_progress (GameSession.status g) = true.
Proof.
  intros H. apply find_some in H as [Hin H]. apply andb_prop in H as [H1 H2].
  apply Nat.eqb_eq in H1. auto.
Qed.

Lemma get_active_game_none pid db :
  get_active_game pid db = None <-> open_games pid db = O.
Proof.
  unfold get_active_game, open_games.
  induction (games db) as [|g l IH]; simpl; [tauto|].
  destruct (_ && _); simpl; [split; discriminate|exact IH].
Qed.

Lemma game_ids_unique db g h :
  game_ids_ok db -> In g (games db) -> In h (games db) ->
  GameSession.id g = GameSession.id h -> g = h.
Proof.
  intros Hok. apply NoDup_map_eq. rewrite Hok. apply seq_NoDup.
Qed.

Lemma game_ids_ok_add g db :
  game_ids_ok db -> GameSession.id g = next_game_id db ->
  game_ids_ok (add_game g db).
Proof.
  unfold game_ids_ok, add_game, next_game_id. simpl. intros Hok Hid.
  rewrite map_app, length_app, Hok. simpl. rewrite seq_app, Hid.
  simpl. reflexivity.
Qed.

Lemma game_ids_ok_save g g' db :
  game_ids_ok db -> GameSession.id g' = GameSession.id g ->
  game_ids_ok (save_game g' db).
Proof.
  unfold game_ids_ok, save_game. simpl. intros Hok Hid.
  rewrite length_map, <- Hok, map_map. apply map_ext_in. intros h _.
  destruct (Nat.eqb_spec (GameSession.id h) (GameSession.id g')); congruence.
Qed.

Lemma open_games_add pid g db :
  open_games pid (add_game g db) =
  (open_games pid db +
   if Nat.eqb (GameSession.player_id g) pid
      && in_progress (GameSession.status g) then 1 else 0)%nat.
Proof.
  unfold open_games, add_game. simpl. rewrite filter_app, length_app. simpl.
  now destruct (_ && _).
Qed.

(** Saving an open game of a player, possibly closed by the call, opens no
    game for anybody. *)
Lemma open_games_save pid g g' db :
  game_ids_ok db -> In g (games db) ->
  in_progress (GameSession.status g) = true ->
  GameSession.id g' = GameSession.id g ->
  GameSession.player_id g' = GameSession.player_id g ->
  (open_games pid (save_game g' db) <= open_games pid db)%nat.
Proof.
  intros Hok Hin Hopen Hid Hpid. unfold open_games, save_game. simpl.
  apply filter_map_le. intros h Hh.
  destruct (Nat.eqb_spec (GameSession.id h) (GameSession.id g'));
    [|trivial].
  assert (h = g) as -> by (apply (game_ids_unique db); congruence).
  rewrite Hpid, Hopen. intros H. apply andb_prop in H as [-> _]. reflexivity.
Qed.

Lemma open_games_players pid ps db :
  open_games pid (save_player ps db) = open_games pid db.
Proof. reflexivity. Qed.

Lemma open_games_resolved cfg sid pid db :
  open_games pid (snd (resolved cfg sid db)) = open_games pid db.
Proof.
  unfold open_games. now rewrite resolved_games.
Qed.

Lemma game_ids_ok_resolved cfg sid db :
  game_ids_ok db -> game_ids_ok (snd (resolved cfg sid db)).
Proof.
  unfold game_ids_ok. now rewrite resolved_games.
Qed.

(** Writing back the open game a call worked on. *)
Lemma written_back_game cfg sid pid0 db game g' ps :
  game_ids_ok db ->
  get_active_game pid0 (snd (resolved cfg sid db)) = Some game ->
  GameSession.id g' = GameSession.id game ->
  GameSession.player_id g' = GameSession.player_id game ->
  let db' := save_game g' (save_player ps
                             (snd (resolved cfg sid db))) in
  game_ids_ok db' /\
  List.length (games db') = List.length (games db) /\
  (forall pid, (open_games pid db' <= open_games pid db)%nat).
Proof.
  intros Hok Hg Hid Hpid db'. apply get_active_game_In in Hg as (Hin & _ & Ho).
  assert (Hok1 : game_ids_ok (save_player ps
                                (snd (resolved cfg sid db))))
    by now apply game_ids_ok_resolved.
  split; [now apply (game_ids_ok_save game)|].
  split.
  - unfold db', save_game. simpl. rewrite length_map.
    now rewrite resolved_games.
  - intros pid.
    apply Nat.le_trans
      with (open_games pid (save_player ps
                              (snd (resolved cfg sid db)))).
    + now apply (open_games_save pid game).
    + rewrite open_games_players, open_games_resolved. apply Nat.le_refl.
Qed.

Lemma hit_opens_none cfg now sid db :
  game_ids_ok db ->
  game_ids_ok (run cfg (Hit now sid) db) /\
  List.length (games (run cfg (Hit now sid) db)) = List.length (games db) /\
  (forall pid,
     (open_games pid (run cfg (Hit now sid) db) <= open_games pid db)%nat).
Proof.
  intros Hok. simpl.
  destruct (hit_not_done cfg now sid db) as [(db' & g & E)|[E|E]].
  - rewrite E. simpl. apply hit_player_row in E. cbv zeta in E.
    destruct E as (game & ps & Hg & -> & _ & _ & _ & _ & _ & Hid & Hpid & _).
    exact (written_back_game cfg sid _ db game g ps Hok Hg Hid Hpid).
  - rewrite E. split; [now apply game_ids_ok_resolved|].
    split; [now rewrite resolved_games|].
    intros pid. now rewrite open_games_resolved.
  - rewrite E. split; [assumption|]. split; [reflexivity|].
    intros pid. apply Nat.le_refl.
Qed.

Lemma stand_opens_none cfg now sid db :
  game_ids_ok db ->
  game_ids_ok (run cfg (Stand now sid) db) /\
  List.length (games (run cfg (Stand now sid) db)) = List.length (games db) /\
  (forall pid,
     (open_games pid (run cfg (Stand now sid) db) <= open_games pid db)%nat).
Proof.
  intros Hok. simpl.
  destruct (stand_not_done cfg now sid db) as [(db' & g & E)|[E|E]].
  - rewrite E. simpl. apply stand_player_row in E. cbv zeta in E.
    destruct E as (game & ps & Hg & -> & _ & _ & _ & _ & _ & Hid & Hpid & _).
    exact (written_back_game cfg sid _ db game g ps Hok Hg Hid Hpid).
  - rewrite E. split; [now apply game_ids_ok_resolved|].
    split; [now rewrite resolved_games|].
    intros pid. now rewrite open_games_resolved.
  - rewrite E. split; [assumption|]. split; [reflexivity|].
    intros pid. apply Nat.le_refl.
Qed.

Lemma run_one_open cfg r db :
  game_ids_ok db -> (forall pid, (open_games pid db <= 1)%nat) ->
  game_ids_ok (run cfg r db) /\
  (forall pid, (open_games pid (run cfg r db) <= 1)%nat).
Proof.
  intros Hok H1. destruct r as [rng now sid bet|now sid|now sid|sid].
  - simpl.
    destruct (start_game_not_done cfg rng now sid bet db)
      as [(db' & g & E)|[E|E]]; [| |rewrite E; now split].
    + rewrite E. simpl. apply start_game_done in E. cbv zeta in E.
      destruct E as (c1 & c2 & c3 & c4 & d1 & d2 & d3 & d & ps & _ & _ & _
                     & _ & _ & _ & Hnone & -> & Hg).
      assert (Hid : GameSession.id g =
                    next_game_id (snd (resolved cfg sid db)) /\
                    GameSession.player_id g =
                    Player.id (fst (resolved cfg sid db))).
      { destruct Hg as [(_ & -> & _)|[(_ & _ & -> & _)|(_ & _ & -> & _)]];
          split; reflexivity. }
      destruct Hid as [Hid Hpid]. split.
      * apply game_ids_ok_add; [|exact Hid].
        now apply game_ids_ok_resolved.
      * intros pid. rewrite open_games_add, open_games_players.
        destruct (Nat.eqb_spec (GameSession.player_id g) pid) as [e|n];
          simpl.
        -- apply get_active_game_none in Hnone.
           rewrite <- e, Hpid, Hnone. destruct (in_progress _); simpl; lia.
        -- rewrite open_games_resolved. specialize (H1 pid). lia.
    + rewrite E. split; [now apply game_ids_ok_resolved|].
      intros pid. now rewrite open_games_resolved.
  - destruct (hit_opens_none cfg now sid db Hok) as (H & _ & Hle).
    split; [exact H|]. intros pid. specialize (Hle pid). specialize (H1 pid).
    lia.
  - destruct (stand_opens_none cfg now sid db Hok) as (H & _ & Hle).
    split; [exact H|]. intros pid. specialize (Hle pid). specialize (H1 pid).
    lia.
  - rewrite run_reset.
    destruct (enters cfg sid db
              && storable (Player.balance (fst (resolved cfg sid db)))
                          (initial_balance cfg)); [|now split].
    split.
    + now apply game_ids_ok_resolved.
    + intros pid. rewrite open_games_players. now rewrite open_games_resolved.
Qed.

Lemma reachable_one_open cfg db :
  reachable cfg db ->
  game_ids_ok db /\ (forall pid, (open_games pid db <= 1)%nat).
Proof.
  induction 1 as [|db r _ Hr [Hok H1]].
  - split; [reflexivity|]. intros pid. unfold open_games. simpl. lia.
  - now apply run_one_open.
Qed.

(** After a first bet of the whole balance the player has an open game, and
    a second [start_game], of 1, is turned down for its bet. *)
Lemma second_start_other_reason :
  get_active_game 1 demo_all_in <> None /\
  start_game default_settings identity_shuffle 0 "s" 1 demo_all_in =
  Rejected demo_all_in "Insufficient balance" /\
  start_game default_settings identity_shuffle 0 "s" 1 demo_all_in <>
  Rejected demo_all_in "Game already in progress".
Proof.
  vm_compute. repeat split; discriminate.
Qed.

(* ===================================================================== *)
(** ** Sound game rows *)
(* ===================================================================== *)

Lemma calculate_two_cards (c1 c2 : Card) : calculate [c1; c2] <= 21.
Proof.
  destruct c1 as [s1 r1], c2 as [s2 r2].
  destruct r1, r2; vm_compute; discriminate.
Qed.

Lemma length_le_non_ace_sum (hand : list Card) :
  Z.of_nat (List.length hand) <=
  non_ace_sum hand + Z.of_nat (ace_count hand).
Proof.
  induction hand as [|c hand IH]; [simpl; lia|].
  cbn [non_ace_sum fold_right List.length]. fold (non_ace_sum hand).
  assert (Ha : ace_count (c :: hand) =
               ((if is_ace c then 1 else 0) + ace_count hand)%nat).
  { unfold ace_count. cbn [filter]. now destruct (is_ace c). }
  rewrite Ha. unfold is_ace, value.
  destruct (rank c); cbn [RANK_VALUES]; lia.
Qed.

(** Every card counts at least 1. *)
Lemma calculate_ge_length (hand : list Card) :
  Z.of_nat (List.length hand) <= calculate hand.
Proof.
  pose proof (length_le_non_ace_sum hand) as H.
  rewrite calculate_closed_form.
  destruct (ace_count hand) as [|k]; [lia|].
  destruct (non_ace_sum hand <=? 10); lia.
Qed.

Lemma new_Deck_length rng :
  fair rng -> List.length (_cards (new_Deck rng)) = 52%nat.
Proof.
  intros Hf. unfold new_Deck, _initialize_deck, shuffle. simpl.
  rewrite <- (Permutation_length (Hf O ordered_deck)). reflexivity.
Qed.

(** [Deck.draw] on an empty deck reshuffles a full deck and draws from it:
    51 cards remain. *)
Lemma draw_refills rng d :
  fair rng -> _cards d = [] ->
  exists c d', draw rng d = Some (c, d') /\ remaining d' = 51%nat.
Proof.
  intros Hf He. unfold draw. rewrite He.
  assert (Hl : List.length (_cards (_initialize_deck rng d)) = 52%nat).
  { unfold _initialize_deck, shuffle. simpl.
    rewrite <- (Permutation_length (Hf (shuffles d) ordered_deck)).
    reflexivity. }
  destruct (pop (_cards (_initialize_deck rng d))) as [[c rest]|] eqn:Ep.
  - exists c. eexists. split; [reflexivity|]. unfold remaining. simpl.
    apply pop_some_inv in Ep. rewrite Ep, length_app in Hl. simpl in Hl. lia.
  - apply pop_none_inv in Ep. rewrite Ep in Hl. discriminate.
Qed.

(** A draw from a deck that has cards takes its last card and nothing
    else. *)
Lemma draw_length rng d c d' :
  _cards d <> [] -> draw rng d = Some (c, d') ->
  _cards d = _cards d' ++ [c].
Proof.
  unfold draw. destruct (_cards d) as [|x l] eqn:E; [congruence|].
  intros _. rewrite E. destruct (pop (x :: l)) as [[y r]|] eqn:Ep;
    [|discriminate].
  intros [= <- <-]. simpl. now apply pop_some_inv.
Qed.

Lemma four_draws_length rng c1 c2 c3 c4 d1 d2 d3 d4 :
  fair rng ->
  draw rng (new_Deck rng) = Some (c1, d1) ->
  draw rng d1 = Some (c2, d2) ->
  draw rng d2 = Some (c3, d3) ->
  draw rng d3 = Some (c4, d4) ->
  List.length (_cards d4) = 48%nat.
Proof.
  intros Hf D1 D2 D3 D4. pose proof (new_Deck_length rng Hf) as H0.
  assert (N : forall d n, List.length (_cards d) = S n -> _cards d <> [])
    by (intros d n H E; rewrite E in H; discriminate).
  apply draw_length in D1; [|now apply (N _ 51%nat)].
  rewrite D1, length_app in H0. simpl in H0.
  apply draw_length in D2; [|apply (N _ 50%nat); lia].
  rewrite D2, length_app in H0. simpl in H0.
  apply draw_length in D3; [|apply (N _ 49%nat); lia].
  rewrite D3, length_app in H0. simpl in H0.
  apply draw_length in D4; [|apply (N _ 48%nat); lia].
  rewrite D4, length_app in H0. simpl in H0. lia.
Qed.

Lemma start_game_sound cfg rng now sid bet db db' g :
  fair rng -> start_game cfg rng now sid bet db = Done db' g -> game_sound g.
Proof.
  intros Hf H. apply start_game_done in H. cbv zeta in H.
  destruct H as (c1 & c2 & c3 & c4 & d1 & d2 & d3 & d & p' & D1 & D2 & D3
                 & D4 & _ & _ & _ & _ & H).
  pose proof (four_draws_length rng _ _ _ _ _ _ _ _ Hf D1 D2 D3 D4) as Hl.
  exists [c1; c2], [c3; c4], (_cards d).
  destruct H as [(_ & -> & _)|[(_ & _ & -> & _)|(_ & _ & -> & _)]];
    simpl; (do 5 (split; [reflexivity|])).
  - intros _. split; [reflexivity|]. split; [rewrite Hl; reflexivity|].
    split; [reflexivity|]. apply calculate_two_cards.
  - discriminate.
  - discriminate.
Qed.

Lemma map_to_dict_inj (l l' : list Card) :
  map to_dict l = map to_dict l' -> l = l'.
Proof.
  intros H. apply (f_equal cards_from_dicts) in H.
  rewrite !cards_from_dicts_map in H. now injection H.
Qed.

Lemma hit_sound cfg now sid db db' g' game :
  get_active_game
    (Player.id (fst (resolved cfg sid db)))
    (snd (resolved cfg sid db)) = Some game ->
  game_sound game ->
  hit cfg now sid db = Done db' g' -> game_sound g'.
Proof.
  intros Hg (hand & dealer & deck & Eh & Ed & Ek & Sh & Sd & Hopen) H.
  apply hit_done in H. cbv zeta in H.
  destruct H as (game' & hand' & rest & c & p' & Hg' & Edk & Ehd & _ & H).
  rewrite Hg in Hg'. injection Hg' as <-.
  rewrite Ek, cards_from_dicts_map in Edk. injection Edk as ->.
  rewrite Eh, cards_from_dicts_map in Ehd. injection Ehd as <-.
  apply get_active_game_In in Hg as (_ & _ & Ho).
  destruct (Hopen Ho) as (Hp & Hlen & Hdl & _).
  exists (hand ++ [c]), dealer, rest.
  destruct H as [(B & -> & _)|(_ & -> & _)]; simpl;
    (do 5 (split; [first [reflexivity | assumption]|])).
  - intros _. split; [assumption|]. split.
    + rewrite !length_app in *. simpl in *. lia.
    + split; [assumption|]. unfold is_bust in B. now apply Z.ltb_ge in B.
  - discriminate.
Qed.

Lemma stand_sound cfg now sid db db' g' game :
  get_active_game
    (Player.id (fst (resolved cfg sid db)))
    (snd (resolved cfg sid db)) = Some game ->
  game_sound game ->
  stand cfg now sid db = Done db' g' -> game_sound g'.
Proof.
  intros Hg (hand & dealer & deck & Eh & Ed & Ek & Sh & Sd & Hopen) H.
  apply stand_done in H. cbv zeta in H.
  destruct H as (game' & hand' & dealer0 & deck0 & dealer' & stack & p' & Hg'
                 & _ & _ & _ & _ & _ & H).
  rewrite Hg in Hg'. injection Hg' as <-.
  exists hand, dealer', (rev stack).
  destruct H as [(_ & -> & _)|[(_ & _ & -> & _)|[(_ & _ & -> & _)
                                               |(_ & _ & -> & _)]]];
    simpl; (do 5 (split; [first [reflexivity | assumption]|]));
    discriminate.
Qed.

Lemma save_game_In g h db :
  In h (games (save_game g db)) -> h = g \/ In h (games db).
Proof.
  unfold save_game. simpl. intros H. apply in_map_iff in H as [r [H Hr]].
  destruct (Nat.eqb (GameSession.id r) (GameSession.id g)); subst; auto.
Qed.

Lemma In_save_game g game db :
  In game (games db) -> GameSession.id g = GameSession.id game ->
  In g (games (save_game g db)).
Proof.
  intros Hin E. unfold save_game. simpl. apply in_map_iff.
  exists game. split; [|assumption]. now rewrite E, Nat.eqb_refl.
Qed.

Lemma run_sound cfg r db :
  fair_request r ->
  (forall g, In g (games db) -> game_sound g) ->
  forall g, In g (games (run cfg r db)) -> game_sound g.
Proof.
  intros Hf Hs.
  assert (Hres : forall sid g,
             In g (games (snd (resolved cfg sid db))) ->
             game_sound g).
  { intros sid g. rewrite resolved_games. apply Hs. }
  destruct r as [rng now sid bet|now sid|now sid|sid].
  - cbn [run]. destruct (start_game_not_done cfg rng now sid bet db)
      as [(db' & g & E)|[E|E]]; [| |now rewrite E].
    + rewrite E. simpl. pose proof (start_game_sound _ _ _ _ _ _ _ _ Hf E).
      apply start_game_player_row in E. cbv zeta in E.
      destruct E as (ps & -> & _). simpl. intros h Hh.
      apply in_app_or in Hh as [Hh|[<-|[]]]; [|assumption].
      now apply (Hres sid).
    + rewrite E. apply Hres.
  - cbn [run]. destruct (hit_not_done cfg now sid db)
      as [(db' & g & E)|[E|E]]; [| |now rewrite E].
    + rewrite E. simpl. pose proof E as E'.
      apply hit_player_row in E. cbv zeta in E.
      destruct E as (game & ps & Hg & -> & _). intros h Hh.
      apply save_game_In in Hh as [->|Hh]; [|now apply (Hres sid)].
      refine (hit_sound cfg now sid db _ _ game Hg _ E').
      apply (Hres sid). now apply get_active_game_In in Hg.
    + rewrite E. apply Hres.
  - cbn [run]. destruct (stand_not_done cfg now sid db)
      as [(db' & g & E)|[E|E]]; [| |now rewrite E].
    + rewrite E. simpl. pose proof E as E'.
      apply stand_player_row in E. cbv zeta in E.
      destruct E as (game & ps & Hg & -> & _). intros h Hh.
      apply save_game_In in Hh as [->|Hh]; [|now apply (Hres sid)].
      refine (stand_sound cfg now sid db _ _ game Hg _ E').
      apply (Hres sid). now apply get_active_game_In in Hg.
    + rewrite E. apply Hres.
  - rewrite run_reset.
    destruct (enters cfg sid db
              && storable (Player.balance (fst (resolved cfg sid db)))
                          (initial_balance cfg)); [|assumption].
    apply Hres.
Qed.

Lemma reachable_sound cfg db :
  reachable cfg db -> forall g, In g (games db) -> game_sound g.
Proof.
  induction 1 as [|db r Hf Hr IH]; [intros g []|].
  now apply run_sound.
Qed.

(** An open game of a reachable state still has at least 29 cards in its
    persisted deck. *)
Lemma sound_open_deck (g : GameSession.t) :
  game_sound g -> in_progress (GameSession.status g) = true ->
  exists hand dealer rest c,
    GameSession.player_hand g = map to_dict hand /\
    GameSession.dealer_hand g = map to_dict dealer /\
    GameSession.deck_state g = map to_dict (rest ++ [c]) /\
    GameSession.player_score g = calculate hand /\
    GameSession.payout g = 0 /\
    List.length dealer = 2%nat /\
    (29 <= List.length (rest ++ [c]))%nat.
Proof.
  intros (hand & dealer & deck & Eh & Ed & Ek & Sh & Sd & Hopen) Ho.
  destruct (Hopen Ho) as (Hp & Hlen & Hdl & H21).
  pose proof (calculate_ge_length hand) as Hge.
  assert (Hdeck : (29 <= List.length deck)%nat) by lia.
  destruct (pop deck) as [[c rest]|] eqn:Ep.
  - apply pop_some_inv in Ep. subst deck.
    exists hand, dealer, rest, c. repeat split; assumption.
  - apply pop_none_inv in Ep. subst deck. simpl in Hdeck. lia.
Qed.

(* ===================================================================== *)
(** ** hit *)
(* ===================================================================== *)

(** Every card counts at most 11. *)
Lemma calculate_le (hand : list Card) :
  calculate hand <= 11 * Z.of_nat (List.length hand).
Proof.
  assert (H : non_ace_sum hand + 11 * Z.of_nat (ace_count hand)
              <= 11 * Z.of_nat (List.length hand)).
  { induction hand as [|c hand IH]; [simpl; lia|].
    cbn [non_ace_sum fold_right List.length]. fold (non_ace_sum hand).
    assert (Ha : ace_count (c :: hand) =
                 ((if is_ace c then 1 else 0) + ace_count hand)%nat).
    { unfold ace_count. cbn [filter]. now destruct (is_ace c). }
    rewrite Ha. unfold is_ace, value.
    destruct (rank c); cbn [RANK_VALUES]; lia. }
  rewrite calculate_closed_form.
  destruct (ace_count hand) as [|k]; [lia|].
  destruct (non_ace_sum hand <=? 10); lia.
Qed.

(** The score of a hand of at most 52 cards fits its column. *)
Lemma fits_calculate (hand : list Card) :
  (List.length hand <= 52)%nat -> fits (calculate hand) = true.
Proof.
  intros Hl. apply fits_spec.
  pose proof (calculate_le hand). pose proof (calculate_ge_length hand).
  assert (11 * Z.of_nat (List.length hand) <= 572) by lia.
  assert (572 < 2 ^ 63) by reflexivity.
  assert (- 2 ^ 63 < 0) by reflexivity. lia.
Qed.

(** [hit] on an open game whose hand and deck are encoded cards: the last
    card of the deck goes to the hand, and the rows are committed. *)
Lemma hit_on_encoded cfg now sid db p game hand rest c :
  find_player sid db = Some p ->
  get_active_game (Player.id p) db = Some game ->
  GameSession.player_hand game = map to_dict hand ->
  GameSession.deck_state game = map to_dict (rest ++ [c]) ->
  exists p' g',
    hit cfg now sid db = commit_game db p p' game g' /\
    GameSession.player_hand g' = map to_dict (hand ++ [c]) /\
    GameSession.deck_state g' = map to_dict rest /\
    GameSession.player_score g' = calculate (hand ++ [c]) /\
    GameSession.status g' =
      (if is_bust (calculate (hand ++ [c])) then PLAYER_BUST
       else GameSession.status game) /\
    GameSession.bet_amount g' = GameSession.bet_amount game /\
    GameSession.dealer_score g' = GameSession.dealer_score game /\
    GameSession.payout g' = GameSession.payout game /\
    p' = (if is_bust (calculate (hand ++ [c]))
          then Player.mk (Player.id p) (Player.session_id p)
                 (Player.balance p) (Player.total_games p + 1)
                 (Player.total_wins p) (Player.total_losses p + 1)
                 (Player.total_pushes p)
          else p).
Proof.
  intros Hp Hg Eh Ek. unfold hit.
  rewrite (get_or_create_player_existing cfg sid db p Hp). cbv zeta.
  rewrite Hg.
  unfold decode_or_raise. rewrite Ek, cards_from_dicts_map.
  destruct (rest ++ [c]) as [|x l] eqn:E;
    [now destruct rest|]. rewrite <- E, pop_snoc.
  rewrite Eh, cards_from_dicts_map.
  cbn [GameSession.set_player_score GameSession.player_score].
  destruct (is_bust (calculate (hand ++ [c])));
    eexists _, _; (split; [reflexivity|]); repeat split; reflexivity.
Qed.

(** When such a [hit] is committed: always when it does not bust the
    player, and otherwise when the two totals it increments can be
    stored. *)
Lemma hit_commits p game hand c g' p' :
  (List.length (hand ++ [c]) <= 52)%nat ->
  GameSession.player_score g' = calculate (hand ++ [c]) ->
  GameSession.bet_amount g' = GameSession.bet_amount game ->
  GameSession.dealer_score g' = GameSession.dealer_score game ->
  GameSession.payout g' = GameSession.payout game ->
  p' = (if is_bust (calculate (hand ++ [c]))
        then Player.mk (Player.id p) (Player.session_id p)
               (Player.balance p) (Player.total_games p + 1)
               (Player.total_wins p) (Player.total_losses p + 1)
               (Player.total_pushes p)
        else p) ->
  Player.updatable p p' && GameSession.updatable game g' =
  negb (is_bust (calculate (hand ++ [c])))
  || (fits (Player.total_games p + 1) && fits (Player.total_losses p + 1)).
Proof.
  intros Hl Hs Hb Hd Hpay ->.
  assert (Hg : GameSession.updatable game g' = true).
  { unfold GameSession.updatable.
    rewrite Hb, Hd, Hpay, Hs, !storable_refl.
    now rewrite (storable_fits _ _ (fits_calculate _ Hl)). }
  rewrite Hg, andb_true_r.
  destruct (is_bust (calculate (hand ++ [c]))).
  - unfold Player.updatable, storable. simpl. rewrite !Z.eqb_refl. simpl.
    rewrite !andb_true_r.
    destruct (Z.eqb_spec (Player.total_games p) (Player.total_games p + 1));
      [lia|].
    destruct (Z.eqb_spec (Player.total_losses p) (Player.total_losses p + 1));
      [lia|]. reflexivity.
  - now rewrite Player_updatable_refl.
Qed.

Lemma hit_on_empty_deck cfg now sid db p game :
  find_player sid db = Some p ->
  get_active_game (Player.id p) db = Some game ->
  GameSession.deck_state game = [] ->
  hit cfg now sid db = Rejected db "Deck is empty".
Proof.
  intros Hp Hg Ek. unfold hit.
  rewrite (get_or_create_player_existing cfg sid db p Hp). cbv zeta.
  rewrite Hg, Ek.
  reflexivity.
Qed.

(** A stored open game with an empty persisted deck: [hit] does not refill
    the deck, it turns the call down and leaves the database as it is. *)
Lemma hit_rejects_empty_deck :
  get_active_game 1 demo_empty_deck <> None /\
  hit default_settings 0 "s" demo_empty_deck =
  Rejected demo_empty_deck "Deck is empty".
Proof. split; [discriminate|reflexivity]. Qed.

(** C2 (amended).  In every reachable state, [hit] of a player with a game
    in progress draws: the persisted deck of that game is not empty
    there, and [hit] moves its last card to the end of the player's hand
    and recomputes the player's score.  The rows are then committed and
    the game returned; the one exception is a card that busts the player
    when the incremented totals of games or losses do not fit the 64-bit
    column: the commit raises [OverflowError] and the database is
    unchanged.  [hit] never refills a deck: on an open game whose
    persisted deck is empty it is rejected with "Deck is empty" and
    leaves the database unchanged. *)
Theorem hit_draws_last_persisted_card
    (cfg : Settings) (now : Z) (sid : string) (db : DB) (p : Player.t)
    (game : GameSession.t) :
  find_player sid db = Some p ->
  get_active_game (Player.id p) db = Some game ->
  (reachable cfg db ->
   exists hand rest c p' g',
     GameSession.player_hand game = map to_dict hand /\
     GameSession.deck_state game = map to_dict (rest ++ [c]) /\
     hit cfg now sid db =
       (if negb (is_bust (calculate (hand ++ [c])))
           || (fits (Player.total_games p + 1)
               && fits (Player.total_losses p + 1))
        then Done (save_game g' (save_player p' db)) g'
        else Raised db OverflowError) /\
     GameSession.player_hand g' = map to_dict (hand ++ [c]) /\
     GameSession.deck_state g' = map to_dict rest /\
     GameSession.player_score g' = calculate (hand ++ [c])) /\
  (GameSession.deck_state game = [] ->
   hit cfg now sid db = Rejected db "Deck is empty").
Proof.
  intros Hp Hg. split; [|now apply (hit_on_empty_deck cfg now sid db p)].
  intros Hr. pose proof (get_active_game_In _ _ _ Hg) as (Hin & _ & Ho).
  pose proof (reachable_sound cfg db Hr game Hin) as Hs.
  assert (Hlen : forall hand deck,
             GameSession.player_hand game = map to_dict hand ->
             GameSession.deck_state game = map to_dict deck ->
             (List.length hand + List.length deck = 50)%nat).
  { destruct Hs as (h & d & k & Eh & _ & Ek & _ & _ & Hopen).
    intros hand deck Eh' Ek'. rewrite Eh in Eh'. rewrite Ek in Ek'.
    apply map_to_dict_inj in Eh', Ek'. subst h k.
    now destruct (Hopen Ho) as (_ & Hl & _). }
  destruct (sound_open_deck game Hs Ho)
    as (hand & dealer & rest & c & Eh & _ & Ek & _).
  specialize (Hlen hand (rest ++ [c]) Eh Ek).
  destruct (hit_on_encoded cfg now sid db p game hand rest c Hp Hg Eh Ek)
    as (p' & g' & H1 & H2 & H3 & H4 & _ & H5 & H6 & H7 & H8).
  exists hand, rest, c, p', g'.
  split; [assumption|]. split; [assumption|].
  split; [|repeat split; assumption].
  rewrite H1. unfold commit_game.
  rewrite (hit_commits p game hand c g' p'); auto.
  rewrite !length_app in *. simpl in *. lia.
Qed.

Lemma hit_draws_last_persisted_card_witness :
  (exists db' g', hit default_settings 1 "s" demo_started = Done db' g') /\
  hit default_settings 1 "s" demo_empty_deck =
  Rejected demo_empty_deck "Deck is empty".
Proof.
  split.
  - pose proof reachable_demo_started as R.
    pose proof find_player_demo_started as Hp.
    destruct (get_active_game 1 demo_started) as [game|] eqn:Hg;
      [|vm_compute in Hg; discriminate Hg].
    destruct (proj1 (hit_draws_last_persisted_card default_settings 1 "s"
                       demo_started _ game Hp Hg) R)
      as (hand & rest & c & p' & g' & _ & _ & H & _).
    change (fits (Player.total_games (Player.mk 1 "s" 90 0 0 0 0) + 1))
      with true in H.
    change (fits (Player.total_losses (Player.mk 1 "s" 90 0 0 0 0) + 1))
      with true in H.
    rewrite orb_true_r in H. eexists _, g'. exact H.
  - assert (Hp : find_player "s" demo_empty_deck =
                 Some (Player.mk 1 "s" 90 0 0 0 0)) by reflexivity.
    destruct (get_active_game 1 demo_empty_deck) as [game|] eqn:Hg;
      [|vm_compute in Hg; discriminate Hg].
    apply (proj2 (hit_draws_last_persisted_card default_settings 1 "s"
                    demo_empty_deck _ game Hp Hg)).
    vm_compute in Hg. injection Hg as <-. reflexivity.
Defined.

(* ===================================================================== *)
(** ** stand: the dealer's loop *)
(* ===================================================================== *)

(** The loop draws from the top of the stack only, each card while the
    score is below the threshold, and stops at the threshold or at the end
    of the stack. *)
Lemma dealer_draws_spec thr dealer stack dealer' stack' :
  dealer_draws thr dealer stack = (dealer', stack') ->
  exists drawn,
    dealer' = dealer ++ drawn /\
    stack = drawn ++ stack' /\
    (forall pre x post, drawn = pre ++ x :: post ->
                        calculate (dealer ++ pre) < thr) /\
    (thr <= calculate dealer' \/ stack' = []).
Proof.
  assert (Hnil : forall (pre : list Card) x post, [] <> pre ++ x :: post)
    by (intros [|? ?] ? ?; discriminate).
  revert dealer. induction stack as [|c rest IH]; intros dealer; simpl.
  - intros [= <- <-]. exists []. rewrite app_nil_r.
    split; [reflexivity|]. split; [reflexivity|]. split; [|now right].
    intros pre x post H. now apply Hnil in H.
  - destruct (calculate dealer <? thr) eqn:E.
    + intros H. apply IH in H as (drawn & -> & -> & Hpre & Hstop).
      exists (c :: drawn). rewrite <- app_assoc in *. simpl in *.
      split; [reflexivity|]. split; [reflexivity|]. split; [|exact Hstop].
      intros [|y pre] x post Hd; simpl in Hd.
      * rewrite app_nil_r. now apply Z.ltb_lt.
      * injection Hd as <- ->.
        specialize (Hpre pre x post eq_refl).
        now rewrite <- app_assoc in Hpre.
    + intros [= <- <-]. exists []. rewrite app_nil_r. apply Z.ltb_ge in E.
      split; [reflexivity|]. split; [reflexivity|]. split; [|now left].
      intros pre x post H. now apply Hnil in H.
Qed.

(** With at least [thr] cards between hand and stack the loop cannot run
    out of cards below the threshold. *)
Lemma dealer_draws_reaches thr dealer stack dealer' stack' :
  dealer_draws thr dealer stack = (dealer', stack') ->
  thr <= Z.of_nat (List.length dealer + List.length stack) ->
  thr <= calculate dealer'.
Proof.
  intros H Hlen. apply dealer_draws_spec in H as (drawn & -> & -> & _ & Hs).
  destruct Hs as [Hs| ->]; [assumption|].
  rewrite app_nil_r in Hlen. rewrite <- length_app in Hlen.
  pose proof (calculate_ge_length (dealer ++ drawn)). lia.
Qed.

(** [stand] on an open game whose hands and deck are encoded cards: the
    dealer plays, the game is resolved by the table, and the rows are
    committed. *)
Lemma stand_on_encoded cfg now sid db p game hand dealer deck :
  find_player sid db = Some p ->
  get_active_game (Player.id p) db = Some game ->
  GameSession.player_hand game = map to_dict hand ->
  GameSession.dealer_hand game = map to_dict dealer ->
  GameSession.deck_state game = map to_dict deck ->
  exists g' p',
    stand cfg now sid db = commit_game db p p' game g' /\
    Player.id p' = Player.id p /\
    Player.session_id p' = Player.session_id p /\
    GameSession.id g' = GameSession.id game /\
    GameSession.dealer_hand g' =
      map to_dict (fst (dealer_draws (dealer_stand_threshold cfg) dealer
                                     (rev deck))) /\
    GameSession.deck_state g' =
      map to_dict (rev (snd (dealer_draws (dealer_stand_threshold cfg) dealer
                                          (rev deck)))) /\
    GameSession.dealer_score g' =
      calculate (fst (dealer_draws (dealer_stand_threshold cfg) dealer
                                   (rev deck))) /\
    GameSession.player_score g' = GameSession.player_score game /\
    GameSession.bet_amount g' = GameSession.bet_amount game /\
    in_progress (GameSession.status g') = false /\
    GameSession.status g' =
      fst (resolution (GameSession.dealer_score g')
             (GameSession.player_score game) (GameSession.bet_amount game)) /\
    (GameSession.status g' <> DEALER_WIN ->
     GameSession.payout g' =
       snd (resolution (GameSession.dealer_score g')
              (GameSession.player_score game) (GameSession.bet_amount game))) /\
    (GameSession.status g' = DEALER_WIN ->
     GameSession.payout g' = GameSession.payout game) /\
    Player.balance p' =
      Player.balance p +
      snd (resolution (GameSession.dealer_score g')
             (GameSession.player_score game) (GameSession.bet_amount game)) /\
    counters p' = add4 (counters p) (tally (GameSession.status g')) /\
    GameSession.player_id g' = GameSession.player_id game /\
    GameSession.player_hand g' = GameSession.player_hand game /\
    GameSession.completed_at g' = Some now.
Proof.
  intros Hp Hg Eh Ed Ek. unfold stand.
  rewrite (get_or_create_player_existing cfg sid db p Hp). cbv zeta.
  rewrite Hg. unfold decode_or_raise.
  rewrite Eh, Ed, Ek, !cards_from_dicts_map.
  destruct (dealer_draws _ dealer (rev deck)) as [dealer' stack].
  cbn [fst snd GameSession.set_dealer_score GameSession.set_deck_state
       GameSession.set_dealer_hand GameSession.set_completed_at
       GameSession.player_score].
  unfold resolution, is_bust, counters.
  destruct (21 <? calculate dealer') eqn:B;
    [|destruct (GameSession.player_score game <? calculate dealer') eqn:L1;
      [|destruct (calculate dealer' <? GameSession.player_score game) eqn:L2]];
    eexists _, _; (split; [reflexivity|]); simpl;
    rewrite ?B, ?L1, ?L2; simpl; rewrite ?Z.add_0_r;
    repeat split; try reflexivity; try congruence; try lia.
Qed.

(** When such a [stand] is committed: whenever the values it writes fit
    their columns. *)
Lemma stand_commits p game g' p' :
  GameSession.bet_amount g' = GameSession.bet_amount game ->
  GameSession.player_score g' = GameSession.player_score game ->
  fits (GameSession.dealer_score g') = true ->
  fits (GameSession.payout g') = true ->
  Player.insertable p' = true ->
  Player.updatable p p' && GameSession.updatable game g' = true.
Proof.
  intros Hb Hs Hd Hpay Hp. apply andb_true_intro. split.
  - unfold Player.insertable in Hp. unfold Player.updatable.
    do 4 (apply andb_prop in Hp as [Hp ?]).
    now rewrite !storable_fits.
  - unfold GameSession.updatable. rewrite Hb, Hs, !storable_refl.
    now rewrite !storable_fits.
Qed.

(** The dealer stops below the threshold when the persisted deck runs out:
    on a stored open game with an empty deck under the default settings
    (dealer 2, 3 stands on 5), and, with a stand threshold of 1000, in a
    state the service reaches on its own (the dealer draws all 48 cards
    and stops on 320). *)
Lemma dealer_stops_below_threshold :
  (exists db' g',
     stand default_settings 0 "s" demo_empty_deck = Done db' g' /\
     GameSession.dealer_score g' = 5 /\
     GameSession.dealer_score g' < dealer_stand_threshold default_settings) /\
  (reachable high_threshold demo_high /\
   exists db' g',
     stand high_threshold 1 "s" demo_high = Done db' g' /\
     GameSession.dealer_score g' = 320 /\
     GameSession.deck_state g' = [] /\
     GameSession.dealer_score g' < dealer_stand_threshold high_threshold).
Proof.
  split.
  - eexists _, _. split; [vm_compute; reflexivity|]. split; reflexivity.
  - split.
    + apply reachable_run; [exact fair_identity_shuffle|].
      apply reachable_empty.
    + eexists _, _. split; [vm_compute; reflexivity|].
      repeat split; reflexivity.
Qed.

(** C3 (amended).  In every reachable state, in [stand] of a player with
    a game in progress the dealer draws from the end of the persisted deck
    only, one card at a time, each while the recomputed dealer score is
    below [dealer_stand_threshold], with no refill: the dealer stops with
    a score at or above the threshold, or with the persisted deck used up.
    With a threshold of at most 31 (the default is 17) the final dealer
    score is at or above the threshold.  The game so played is committed
    and returned whenever the values written (balance, payout, totals)
    fit the 64-bit columns; otherwise the commit raises [OverflowError]
    and the database is unchanged. *)
Theorem dealer_draws_until_threshold_or_empty_deck
    (cfg : Settings) (now : Z) (sid : string) (db : DB) (p : Player.t)
    (game : GameSession.t) :
  reachable cfg db ->
  find_player sid db = Some p ->
  get_active_game (Player.id p) db = Some game ->
  exists dealer deck drawn left p' g',
    GameSession.dealer_hand game = map to_dict dealer /\
    GameSession.deck_state game = map to_dict deck /\
    stand cfg now sid db =
      (if Player.updatable p p' && GameSession.updatable game g'
       then Done (save_game g' (save_player p' db)) g'
       else Raised db OverflowError) /\
    (Player.insertable p' = true -> fits (GameSession.payout g') = true ->
     stand cfg now sid db = Done (save_game g' (save_player p' db)) g') /\
    deck = left ++ rev drawn /\
    GameSession.dealer_hand g' = map to_dict (dealer ++ drawn) /\
    GameSession.deck_state g' = map to_dict left /\
    GameSession.dealer_score g' = calculate (dealer ++ drawn) /\
    (forall pre x post, drawn = pre ++ x :: post ->
       calculate (dealer ++ pre) < dealer_stand_threshold cfg) /\
    (dealer_stand_threshold cfg <= GameSession.dealer_score g' \/
     left = []) /\
    (dealer_stand_threshold cfg <= 31 ->
     dealer_stand_threshold cfg <= GameSession.dealer_score g').
Proof.
  intros Hr Hp Hg.
  pose proof (get_active_game_In _ _ _ Hg) as (Hin & _ & Ho).
  pose proof (reachable_sound cfg db Hr game Hin) as Hs.
  assert (Hdeck : forall hand deck,
             GameSession.player_hand game = map to_dict hand ->
             GameSession.deck_state game = map to_dict deck ->
             (List.length deck <= 50)%nat).
  { destruct Hs as (h & d & k & Eh & _ & Ek & _ & _ & Hopen).
    intros hand deck Eh' Ek'. rewrite Eh in Eh'. rewrite Ek in Ek'.
    apply map_to_dict_inj in Eh', Ek'. subst h k.
    destruct (Hopen Ho) as (_ & Hl & _). lia. }
  destruct (sound_open_deck game Hs Ho)
    as (hand & dealer & rest & c & Eh & Ed & Ek & _ & _ & Hdl & Hlen).
  specialize (Hdeck hand (rest ++ [c]) Eh Ek).
  destruct (stand_on_encoded cfg now sid db p game hand dealer (rest ++ [c])
              Hp Hg Eh Ed Ek)
    as (g' & p' & E & _ & _ & _ & Hdh & Hdk & Hds & Hps & Hbet & _).
  destruct (dealer_draws (dealer_stand_threshold cfg) dealer
              (rev (rest ++ [c]))) as [dealer' stack] eqn:Hd.
  simpl in Hdh, Hdk, Hds.
  pose proof (dealer_draws_reaches _ _ _ _ _ Hd) as Hreach.
  apply dealer_draws_spec in Hd as (drawn & -> & Hrev & Hpre & Hstop).
  assert (Hdeck' : rest ++ [c] = rev stack ++ rev drawn).
  { rewrite <- (rev_involutive (rest ++ [c])), Hrev.
    now rewrite rev_app_distr. }
  exists dealer, (rest ++ [c]), drawn, (rev stack), p', g'.
  split; [assumption|]. split; [assumption|]. split; [exact E|].
  split.
  { intros Hi Hpay. rewrite E. unfold commit_game.
    rewrite (stand_commits p game g' p'); auto.
    rewrite Hds. apply fits_calculate.
    rewrite Hdeck', !length_app, !length_rev in Hdeck.
    rewrite length_app. lia. }
  split; [exact Hdeck'|].
  split; [assumption|]. split; [assumption|]. split; [assumption|].
  split; [assumption|]. rewrite Hds. split.
  - destruct Hstop as [Hstop| ->]; [now left|now right].
  - intros H31. apply Hreach. rewrite length_rev. lia.
Qed.

Lemma dealer_draws_until_threshold_or_empty_deck_witness :
  exists db' g',
    stand default_settings 1 "s" demo_started = Done db' g' /\
    17 <= GameSession.dealer_score g'.
Proof.
  pose proof reachable_demo_started as R.
  pose proof find_player_demo_started as Hp.
  destruct (get_active_game 1 demo_started) as [game|] eqn:Hg;
    [|vm_compute in Hg; discriminate Hg].
  destruct (dealer_draws_until_threshold_or_empty_deck default_settings 1 "s"
              demo_started _ game R Hp Hg)
    as (dealer & deck & drawn & left & p' & g' & _ & _ & H & _ & _ & _ & _
        & _ & _ & _ & H17).
  destruct (Player.updatable _ p' && GameSession.updatable game g');
    [|vm_compute in H; discriminate H].
  eexists _, g'. split; [exact H|]. apply H17. simpl. lia.
Defined.

(* ===================================================================== *)
(** ** start_game: the deal *)
(* ===================================================================== *)

Lemma find_player_add_game sid g db :
  find_player sid (add_game g db) = find_player sid db.
Proof. reflexivity. Qed.

Lemma find_player_save_game sid g db :
  find_player sid (save_game g db) = find_player sid db.
Proof. reflexivity. Qed.

(** What [start_game] leaves in the database when it returns a game. *)
Lemma start_game_stored cfg rng now sid bet db db' g :
  start_game cfg rng now sid bet db = Done db' g ->
  exists p',
    find_player sid db' = Some p' /\
    Player.balance p' =
      balance_of cfg sid db - bet + GameSession.payout g /\
    GameSession.bet_amount g = bet /\
    GameSession.player_id g = Player.id p' /\
    (in_progress (GameSession.status g) = true ->
     get_active_game (Player.id p') db' = Some g).
Proof.
  intros H. pose proof H as H'. apply start_game_player_row in H.
  cbv zeta in H. destruct H as (p' & -> & Hid & Hsid & _ & Hbal).
  exists p'. rewrite find_player_add_game.
  pose proof (resolved_find cfg sid db) as Hf.
  split.
  { apply (find_player_save sid _ _ p' Hf); [|assumption].
    rewrite Hsid. now apply find_player_session in Hf. }
  split; [exact Hbal|].
  apply start_game_done in H'. cbv zeta in H'.
  destruct H' as (c1 & c2 & c3 & c4 & d1 & d2 & d3 & d & ps & _ & _ & _ & _
                  & _ & _ & Hnone & _ & Hg).
  assert (Hb : GameSession.bet_amount g = bet /\
               GameSession.player_id g =
               Player.id (fst (resolved cfg sid db))).
  { destruct Hg as [(_ & -> & _)|[(_ & _ & -> & _)|(_ & _ & -> & _)]];
      split; reflexivity. }
  destruct Hb as [Hb Hpid]. split; [exact Hb|]. split; [congruence|].
  intros Ho. unfold get_active_game, add_game. simpl.
  rewrite find_app. unfold get_active_game in Hnone. rewrite Hid, Hnone.
  simpl. now rewrite Hpid, Nat.eqb_refl, Ho.
Qed.

Lemma balance_of_found cfg sid db p :
  find_player sid db = Some p -> balance_of cfg sid db = Player.balance p.
Proof.
  intros H. unfold balance_of.
  now rewrite (resolved_existing cfg sid db p H).
Qed.

Lemma start_game_rejected_while_open cfg rng now sid bet db p :
  find_player sid db = Some p ->
  get_active_game (Player.id p) db <> None ->
  start_game cfg rng now sid bet db =
  Rejected db (rejection_reason cfg bet (Player.balance p)).
Proof.
  intros Hp Hopen.
  pose proof (start_game_rejection_reason cfg rng now sid bet db) as H.
  cbv zeta in H.
  rewrite (resolved_existing cfg sid db p Hp) in H. simpl in H.
  apply H; [exact (enters_existing cfg sid db p Hp)|auto].
Qed.

Lemma rejection_reason_in_progress cfg bet balance :
  min_bet cfg <= bet <= max_bet cfg -> bet <= balance ->
  rejection_reason cfg bet balance = "Game already in progress".
Proof.
  intros [Hmin Hmax] Hbal. unfold rejection_reason.
  destruct (Z.ltb_spec bet (min_bet cfg)); [lia|].
  destruct (Z.ltb_spec (max_bet cfg) bet); [lia|].
  destruct (Z.ltb_spec balance bet); [lia|]. reflexivity.
Qed.

(** C7 (amended).  In every reachable state each player has at most one
    game in progress.  While the player of a session has a game in
    progress (in particular right after a [start_game] that returned a
    game in progress), every [start_game] of that session is rejected and
    leaves the database as it is; the reason is that of the first failing
    bet check ("Minimum bet is $..." for a bet below the minimum,
    "Maximum bet is $..." for one above the maximum,
    "Insufficient balance" for one above the balance), and
    "Game already in progress" when the bet passes the three bet checks.
    [hit] and [stand] add no game row and raise nobody's number of open
    games. *)
Theorem one_open_game_per_player (cfg : Settings) (db : DB) :
  reachable cfg db ->
  (forall pid, (open_games pid db <= 1)%nat) /\
  (forall rng now sid bet p,
     find_player sid db = Some p ->
     get_active_game (Player.id p) db <> None ->
     start_game cfg rng now sid bet db =
       Rejected db
         (if bet <? min_bet cfg
          then "Minimum bet is $" ++ str (min_bet cfg)
          else if max_bet cfg <? bet
          then "Maximum bet is $" ++ str (max_bet cfg)
          else if Player.balance p <? bet then "Insufficient balance"
          else "Game already in progress") /\
     (min_bet cfg <= bet <= max_bet cfg -> bet <= Player.balance p ->
      start_game cfg rng now sid bet db =
        Rejected db "Game already in progress")) /\
  (forall rng now sid bet db' g rng' now' bet',
     start_game cfg rng now sid bet db = Done db' g ->
     in_progress (GameSession.status g) = true ->
     start_game cfg rng' now' sid bet' db' =
       Rejected db'
         (if bet' <? min_bet cfg
          then "Minimum bet is $" ++ str (min_bet cfg)
          else if max_bet cfg <? bet'
          then "Maximum bet is $" ++ str (max_bet cfg)
          else if balance_of cfg sid db' <? bet' then "Insufficient balance"
          else "Game already in progress") /\
     (min_bet cfg <= bet' <= max_bet cfg ->
      bet' <= balance_of cfg sid db' ->
      start_game cfg rng' now' sid bet' db' =
        Rejected db' "Game already in progress")) /\
  (forall now sid,
     List.length (games (run cfg (Hit now sid) db)) = List.length (games db) /\
     List.length (games (run cfg (Stand now sid) db)) =
       List.length (games db) /\
     forall pid,
       (open_games pid (run cfg (Hit now sid) db) <= open_games pid db)%nat /\
       (open_games pid (run cfg (Stand now sid) db) <= open_games pid db)%nat).
Proof.
  intros Hr. destruct (reachable_one_open cfg db Hr) as [Hok H1].
  split; [exact H1|]. split; [|split].
  - intros rng now sid bet p Hp Hg.
    pose proof (start_game_rejected_while_open cfg rng now sid bet db p Hp Hg)
      as E.
    split; [exact E|]. intros Hb Hbal.
    now rewrite E, rejection_reason_in_progress.
  - intros rng now sid bet db' g rng' now' bet' Hstart Ho.
    destruct (start_game_stored _ _ _ _ _ _ _ _ Hstart)
      as (p' & Hp' & _ & _ & _ & Hg).
    specialize (Hg Ho). rewrite (balance_of_found cfg sid db' p' Hp').
    assert (Hopen : get_active_game (Player.id p') db' <> None)
      by congruence.
    pose proof (start_game_rejected_while_open cfg rng' now' sid bet' db' p'
                  Hp' Hopen) as E.
    split; [exact E|]. intros Hb Hbal.
    now rewrite E, rejection_reason_in_progress.
  - intros now sid.
    destruct (hit_opens_none cfg now sid db Hok) as (_ & Hl1 & Ho1).
    destruct (stand_opens_none cfg now sid db Hok) as (_ & Hl2 & Ho2).
    repeat split; auto.
Qed.

Lemma one_open_game_per_player_witness :
  reachable default_settings demo_started /\
  (open_games 1 demo_started <= 1)%nat /\
  start_game default_settings identity_shuffle 2 "s" 5 demo_started =
    Rejected demo_started "Game already in progress" /\
  start_game default_settings identity_shuffle 2 "s" 0 demo_started =
    Rejected demo_started "Minimum bet is $1".
Proof.
  pose proof reachable_demo_started as R.
  destruct (one_open_game_per_player default_settings demo_started R)
    as (H1 & H2 & _).
  split; [exact R|]. split; [exact (H1 1%nat)|].
  pose proof find_player_demo_started as Hp.
  assert (Hg : get_active_game 1 demo_started <> None)
    by (vm_compute; discriminate).
  split.
  - destruct (H2 identity_shuffle 2 "s" 5 _ Hp Hg) as (_ & E).
    apply E; simpl; lia.
  - destruct (H2 identity_shuffle 2 "s" 0 _ Hp Hg) as (E & _). exact E.
Defined.

(** 1.5 is a binary64 value, and so is 1 + 1.5. *)
Lemma Q_of_float_1_5 : (Q_of_float float_1_5 == 3 # 2)%Q.
Proof. vm_compute. reflexivity. Qed.

Lemma default_credits_ok_spec (n : nat) :
  forall bet, default_credits_ok n bet = true ->
  forall x, bet <= x < bet + Z.of_nat n -> default_credit_ok x = true.
Proof.
  induction n as [|n IH]; intros bet H x Hx; [lia|].
  cbn [default_credits_ok] in H. apply andb_prop in H as [H0 H1].
  destruct (Z.eq_dec x bet) as [->|Hne]; [exact H0|].
  apply (IH (bet + 1) H1). lia.
Qed.

(** With the default multiplier the payout of a bet up to 10000 (ten times
    the default maximum) is [5 * bet / 2] rounded down: binary64 holds
    every such product exactly. *)
Lemma default_blackjack_credit (cfg : Settings) (bet : Z) :
  blackjack_payout cfg = float_1_5 -> 0 <= bet <= 10000 ->
  blackjack_credit cfg bet = inr (5 * bet / 2).
Proof.
  intros Hm Hb.
  assert (E : blackjack_credit cfg bet = blackjack_credit default_settings bet)
    by (unfold blackjack_credit; now rewrite Hm).
  assert (H : default_credits_ok (Z.to_nat 10001) 0 = true)
    by (vm_compute; reflexivity).
  pose proof (default_credits_ok_spec _ _ H bet) as Hok.
  rewrite Z2Nat.id in Hok by lia. specialize (Hok ltac:(lia)).
  unfold default_credit_ok in Hok. rewrite E.
  destruct (blackjack_credit default_settings bet) as [e|z];
    [discriminate Hok|].
  apply Z.eqb_eq in Hok. now subst z.
Qed.

(** A bet of 1 on a deal of A, K against Q, J: the status is [BLACKJACK]
    and 2 is credited, not 2.5. *)
Lemma blackjack_credit_is_not_exact :
  exists db' g',
    start_game default_settings rotate_shuffle 0 "s" 1 empty_db = Done db' g' /\
    GameSession.player_hand g' =
      map to_dict [mkCard SPADES ACE; mkCard CLUBS KING] /\
    GameSession.dealer_hand g' =
      map to_dict [mkCard CLUBS QUEEN; mkCard CLUBS JACK] /\
    is_blackjack [mkCard SPADES ACE; mkCard CLUBS KING] = true /\
    is_blackjack [mkCard CLUBS QUEEN; mkCard CLUBS JACK] = false /\
    GameSession.status g' = BLACKJACK /\
    GameSession.payout g' = 2 /\
    balance_of default_settings "s" db' =
      balance_of default_settings "s" empty_db - 1 + 2 /\
    ~ (inject_Z (GameSession.payout g') == exact_credit default_settings 1)%Q.
Proof.
  eexists _, _. split; [vm_compute; reflexivity|].
  repeat split; try reflexivity. intros H. vm_compute in H. discriminate H.
Qed.

(** The product is rounded to binary64 before it is cut: with a multiplier
    of 0.4 a bet of 45 pays 62, where the exact product of the bet and
    [1 + blackjack_payout] is above 63; and with the default multiplier a
    bet of [2^53 + 1] pays 2 less than five halves of it, rounded down. *)
Lemma blackjack_credit_is_rounded :
  blackjack_credit payout_0_4 45 = inr 62 /\
  Qfloor (exact_credit payout_0_4 45) = 63 /\
  blackjack_credit default_settings (2 ^ 53 + 1) =
    inr (5 * (2 ^ 53 + 1) / 2 - 2).
Proof. repeat split; vm_compute; reflexivity. Qed.

(** C4 (amended).  When [start_game] deals the player a natural blackjack
    and the dealer none, the game status is [BLACKJACK] and the amount
    credited on top of the debited bet is [int(bet * (1 + blackjack_payout))]
    as Python computes it: the sum and the product are rounded to binary64,
    and the product is cut to an integer (toward zero).  With the default
    multiplier 1.5 and a bet from 0 to 10000 (the default limits are 1 and
    1000) this is [5 * bet / 2] rounded down, which is exactly 2.5 times
    the bet if and only if the bet is even. *)
Theorem blackjack_credits_binary64_payout
    (cfg : Settings) (rng : shuffler) (now : Z) (sid : string) (bet : Z)
    (db db' : DB) (g : GameSession.t) (hand dealer : list Card) :
  start_game cfg rng now sid bet db = Done db' g ->
  GameSession.player_hand g = map to_dict hand ->
  GameSession.dealer_hand g = map to_dict dealer ->
  is_blackjack hand = true ->
  is_blackjack dealer = false ->
  GameSession.status g = BLACKJACK /\
  blackjack_credit cfg bet = inr (GameSession.payout g) /\
  balance_of cfg sid db' =
    balance_of cfg sid db - bet + GameSession.payout g /\
  (blackjack_payout cfg = float_1_5 -> 0 <= bet <= 10000 ->
   GameSession.payout g = 5 * bet / 2 /\
   ((inject_Z (GameSession.payout g) == exact_credit cfg bet)%Q <->
    Z.even bet = true)).
Proof.
  intros H Eh Ed Bh Bd.
  destruct (start_game_stored _ _ _ _ _ _ _ _ H) as (p' & Hf & Hbal & _).
  destruct (start_game_done_stored _ _ _ _ _ _ _ _ H) as (_ & _ & _ & Hcr).
  apply start_game_done in H. cbv zeta in H.
  destruct H as (c1 & c2 & c3 & c4 & d1 & d2 & d3 & d & ps & _ & _ & _ & _
                 & _ & _ & _ & _ & Hg).
  assert (Hst : GameSession.status g = BLACKJACK).
  { destruct Hg as [(B & -> & _)|[(_ & B & -> & _)|(_ & _ & -> & _)]];
      cbn [GameSession.player_hand GameSession.dealer_hand
           GameSession.status GameSession.payout] in *.
    - apply map_to_dict_inj in Eh. subst hand. congruence.
    - apply map_to_dict_inj in Ed. subst dealer. congruence.
    - reflexivity. }
  specialize (Hcr Hst).
  split; [exact Hst|]. split; [exact Hcr|].
  split; [now rewrite (balance_of_found cfg sid db' p' Hf)|].
  intros Hm Hbet.
  rewrite (default_blackjack_credit cfg bet Hm Hbet) in Hcr.
  injection Hcr as Hpay. rewrite <- Hpay.
  split; [reflexivity|].
  unfold exact_credit. rewrite Hm, Q_of_float_1_5.
  unfold Qeq. simpl. rewrite Z.mul_1_r.
  rewrite Z.even_spec. split.
  - intros E. exists (5 * bet / 2 - 2 * bet). lia.
  - intros [k ->]. replace (5 * (2 * k)) with (5 * k * 2) by lia.
    rewrite Z.div_mul by lia. lia.
Qed.

Lemma blackjack_credits_binary64_payout_witness :
  exists db' g',
    start_game default_settings rotate_shuffle 0 "s" 3 empty_db = Done db' g' /\
    GameSession.status g' = BLACKJACK /\
    GameSession.payout g' = 7.
Proof.
  destruct (start_game default_settings rotate_shuffle 0 "s" 3 empty_db)
    as [db' g'| |] eqn:E; [|vm_compute in E; discriminate E
                           |vm_compute in E; discriminate E].
  assert (Eh : GameSession.player_hand g' =
               map to_dict [mkCard SPADES ACE; mkCard CLUBS KING])
    by (vm_compute in E; injection E as _ <-; reflexivity).
  assert (Ed : GameSession.dealer_hand g' =
               map to_dict [mkCard CLUBS QUEEN; mkCard CLUBS JACK])
    by (vm_compute in E; injection E as _ <-; reflexivity).
  destruct (blackjack_credits_binary64_payout default_settings rotate_shuffle
              0 "s" 3 empty_db db' g' _ _ E Eh Ed eq_refl eq_refl)
    as (Hst & _ & _ & Hpay).
  exists db', g'. split; [reflexivity|]. split; [exact Hst|].
  apply Hpay; [reflexivity|lia].
Defined.

(* ===================================================================== *)
(** ** From the bet to the settlement *)
(* ===================================================================== *)

(** Writing back the open game found for a player, still open, leaves it
    the open game found for that player. *)
Lemma get_active_game_save pid db game g' :
  get_active_game pid db = Some game ->
  GameSession.id g' = GameSession.id game ->
  GameSession.player_id g' = GameSession.player_id game ->
  in_progress (GameSession.status g') = true ->
  get_active_game pid (save_game g' db) = Some g'.
Proof.
  intros Hg Hid Hpid Ho.
  pose proof (get_active_game_In _ _ _ Hg) as (_ & Hp & _).
  assert (Hg' : Nat.eqb (GameSession.player_id g') pid
                && in_progress (GameSession.status g') = true)
    by (rewrite Hpid, Hp, Nat.eqb_refl, Ho; reflexivity).
  revert Hg. unfold get_active_game, save_game. simpl.
  induction (games db) as [|h l IH]; [discriminate|]. simpl.
  destruct (Nat.eqb (GameSession.player_id h) pid
            && in_progress (GameSession.status h)) eqn:E.
  - intros [= ->]. now rewrite Hid, Nat.eqb_refl, Hg'.
  - intros H. destruct (Nat.eqb (GameSession.id h) (GameSession.id g')).
    + now rewrite Hg'.
    + rewrite E. now apply IH.
Qed.

(* ===================================================================== *)
(** ** get_game_state *)
(* ===================================================================== *)

Lemma get_game_state_in_progress g p first rest :
  in_progress (GameSession.status g) = true ->
  GameSession.dealer_hand g = first :: rest ->
  get_game_state g p =
  Some {| playerHand := GameSession.player_hand g;
          dealerHand := [first; mkCardDict "?" "?" 0];
          playerScore := GameSession.player_score g;
          dealerScore := d_value first;
          balance := Player.balance p;
          bet := GameSession.bet_amount g;
          gameOver := false;
          message := GameSession.message g |}.
Proof.
  intros Ho Ed. unfold get_game_state. now rewrite Ho, Ed.
Qed.

(** C8.  For a game in progress whose dealer hand starts with [first], the
    view shows the dealer hand as [first] followed by the hidden card
    (suit "?", rank "?", value 0) and, as dealer score, the value of
    [first] alone; so two games in progress that differ in the dealer's
    second card only (and, more generally, in nothing but the dealer's
    cards after the first, the stored dealer score and the deck) have the
    same view.  For a game in a terminal status the view shows the stored
    dealer hand and the stored dealer score, which in every reachable
    state is the score of that hand. *)
Theorem get_game_state_hides_hole_card :
  (forall g p first rest,
     in_progress (GameSession.status g) = true ->
     GameSession.dealer_hand g = first :: rest ->
     get_game_state g p =
     Some {| playerHand := GameSession.player_hand g;
             dealerHand := [first; mkCardDict "?" "?" 0];
             playerScore := GameSession.player_score g;
             dealerScore := d_value first;
             balance := Player.balance p;
             bet := GameSession.bet_amount g;
             gameOver := false;
             message := GameSession.message g |}) /\
  (forall g p first second second' rest,
     in_progress (GameSession.status g) = true ->
     GameSession.dealer_hand g = first :: second :: rest ->
     get_game_state (GameSession.set_dealer_hand g (first :: second' :: rest))
                    p =
     get_game_state g p) /\
  (forall g1 g2 p1 p2 first rest1 rest2,
     in_progress (GameSession.status g1) = true ->
     in_progress (GameSession.status g2) = true ->
     GameSession.dealer_hand g1 = first :: rest1 ->
     GameSession.dealer_hand g2 = first :: rest2 ->
     GameSession.player_hand g1 = GameSession.player_hand g2 ->
     GameSession.player_score g1 = GameSession.player_score g2 ->
     GameSession.bet_amount g1 = GameSession.bet_amount g2 ->
     GameSession.message g1 = GameSession.message g2 ->
     Player.balance p1 = Player.balance p2 ->
     get_game_state g1 p1 = get_game_state g2 p2) /\
  (forall g p,
     in_progress (GameSession.status g) = false ->
     get_game_state g p =
     Some {| playerHand := GameSession.player_hand g;
             dealerHand := GameSession.dealer_hand g;
             playerScore := GameSession.player_score g;
             dealerScore := GameSession.dealer_score g;
             balance := Player.balance p;
             bet := GameSession.bet_amount g;
             gameOver := true;
             message := GameSession.message g |}) /\
  (forall cfg db g,
     reachable cfg db -> In g (games db) ->
     exists dealer,
       GameSession.dealer_hand g = map to_dict dealer /\
       GameSession.dealer_score g = calculate dealer /\
       (in_progress (GameSession.status g) = true ->
        exists first second,
          dealer = [first; second] /\
          d_value (to_dict first) = value first)).
Proof.
  split; [exact get_game_state_in_progress|]. split.
  { intros g p first second second' rest Ho Ed.
    rewrite (get_game_state_in_progress g p first (second :: rest) Ho Ed).
    now rewrite (get_game_state_in_progress _ p first (second' :: rest)). }
  split.
  { intros g1 g2 p1 p2 first rest1 rest2 Ho1 Ho2 E1 E2 Eh Es Eb Em Ep.
    rewrite (get_game_state_in_progress g1 p1 first rest1 Ho1 E1).
    rewrite (get_game_state_in_progress g2 p2 first rest2 Ho2 E2).
    now rewrite Eh, Es, Eb, Em, Ep. }
  split.
  { intros g p Ho. unfold get_game_state. now rewrite Ho. }
  intros cfg db g Hr Hin.
  destruct (reachable_sound cfg db Hr g Hin)
    as (hand & dealer & deck & _ & Ed & _ & _ & Sd & Hopen).
  exists dealer. split; [assumption|]. split; [assumption|].
  intros Ho. destruct (Hopen Ho) as (_ & _ & Hl & _).
  destruct dealer as [|first [|second [|? ?]]]; try discriminate.
  now exists first, second.
Qed.

Lemma get_game_state_hides_hole_card_witness :
  get_game_state demo_rev_game (Player.mk 1 "s" 90 0 0 0 0) =
  Some {| playerHand := map to_dict [mkCard SPADES ACE; mkCard SPADES TWO];
          dealerHand := [to_dict (mkCard SPADES THREE); mkCardDict "?" "?" 0];
          playerScore := 13;
          dealerScore := 3;
          balance := 90;
          bet := 10;
          gameOver := false;
          message := "" |}.
Proof.
  exact (proj1 get_game_state_hides_hole_card demo_rev_game
           (Player.mk 1 "s" 90 0 0 0 0) (to_dict (mkCard SPADES THREE))
           [to_dict (mkCard SPADES FOUR)] eq_refl eq_refl).
Defined.

(* ===================================================================== *)
(** ** The greedy ace rule against the best value *)
(* ===================================================================== *)

Lemma fold_left_max_spec (ts : list Z) (t : Z) :
  In (fold_left Z.max ts t) (t :: ts) /\
  forall x, In x (t :: ts) -> x <= fold_left Z.max ts t.
Proof.
  revert t. induction ts as [|u ts IH]; intros t; simpl.
  - split; [now left|]. intros x [->|[]]. lia.
  - destruct (IH (Z.max t u)) as [Hin Hmax]. split.
    + destruct Hin as [Hin|Hin]; [|now right; right].
      rewrite <- Hin. destruct (Z.max_spec t u) as [[_ ->]|[_ ->]]; auto.
    + intros x [->|[->|Hx]].
      * specialize (Hmax (Z.max x u) (or_introl eq_refl)). lia.
      * specialize (Hmax (Z.max t x) (or_introl eq_refl)). lia.
      * apply Hmax. now right.
Qed.

Lemma fold_left_min_spec (ts : list Z) (t : Z) :
  In (fold_left Z.min ts t) (t :: ts) /\
  forall x, In x (t :: ts) -> fold_left Z.min ts t <= x.
Proof.
  revert t. induction ts as [|u ts IH]; intros t; simpl.
  - split; [now left|]. intros x [->|[]]. lia.
  - destruct (IH (Z.min t u)) as [Hin Hmin]. split.
    + destruct Hin as [Hin|Hin]; [|now right; right].
      rewrite <- Hin. destruct (Z.min_spec t u) as [[_ ->]|[_ ->]]; auto.
    + intros x [->|[->|Hx]].
      * specialize (Hmin (Z.min x u) (or_introl eq_refl)). lia.
      * specialize (Hmin (Z.min t x) (or_introl eq_refl)). lia.
      * apply Hmin. now right.
Qed.

(** [best_value] is what its name says. *)
Lemma best_value_spec (hand : list Card) :
  In (best_value hand) (ace_totals hand) /\
  ((exists t, In t (ace_totals hand) /\ t <= 21) ->
   best_value hand <= 21 /\
   forall t, In t (ace_totals hand) -> t <= 21 -> t <= best_value hand) /\
  ((forall t, In t (ace_totals hand) -> 21 < t) ->
   forall t, In t (ace_totals hand) -> best_value hand <= t).
Proof.
  assert (Hne : ace_totals hand <> []).
  { induction hand as [|c hand IH]; simpl; [discriminate|].
    destruct (ace_totals hand); [congruence|]. now destruct (is_ace c). }
  unfold best_value.
  destruct (filter (fun t => t <=? 21) (ace_totals hand)) as [|t ts] eqn:F.
  - destruct (ace_totals hand) as [|u us] eqn:T; [congruence|].
    destruct (fold_left_min_spec us u) as [Hin Hmin].
    split; [exact Hin|]. split; [|intros _; exact Hmin].
    intros (x & Hx & Hle). exfalso.
    assert (Hf : In x (filter (fun t => t <=? 21) (u :: us)))
      by (apply filter_In; split; [assumption|now apply Z.leb_le]).
    now rewrite F in Hf.
  - destruct (fold_left_max_spec ts t) as [Hin Hmax].
    rewrite <- F in Hin, Hmax. apply filter_In in Hin as [Hin Hle].
    apply Z.leb_le in Hle. split; [exact Hin|]. split.
    + intros _. split; [exact Hle|]. intros x Hx Hx21. apply Hmax.
      apply filter_In. split; [assumption|now apply Z.leb_le].
    + intros Hall. apply Hall in Hin. lia.
Qed.

(** The totals of a hand: non-ace sum, one per ace, and ten more for each
    ace counted 11. *)
Lemma ace_totals_spec (hand : list Card) (t : Z) :
  In t (ace_totals hand) <->
  exists j, 0 <= j <= Z.of_nat (ace_count hand) /\
            t = non_ace_sum hand + Z.of_nat (ace_count hand) + 10 * j.
Proof.
  revert t. induction hand as [|c hand IH]; intros t.
  - simpl. split.
    + intros [<-|[]]. exists 0. unfold ace_count. simpl. lia.
    + intros (j & Hj & ->). unfold ace_count in *. simpl in *. left. lia.
  - cbn [ace_totals non_ace_sum fold_right]. fold (non_ace_sum hand).
    assert (Ha : ace_count (c :: hand) =
                 ((if is_ace c then 1 else 0) + ace_count hand)%nat).
    { unfold ace_count. cbn [filter]. now destruct (is_ace c). }
    rewrite Ha. destruct (is_ace c).
    + rewrite in_app_iff, !in_map_iff. split.
      * intros [(u & <- & Hu)|(u & <- & Hu)];
          apply IH in Hu as (j & Hj & ->).
        -- exists j. lia.
        -- exists (j + 1). lia.
      * intros (j & Hj & ->).
        destruct (Z.eq_dec j (Z.of_nat (1 + ace_count hand))) as [e|n].
        -- right. exists (non_ace_sum hand + Z.of_nat (ace_count hand)
                          + 10 * (j - 1)).
           split; [lia|]. apply IH. exists (j - 1). lia.
        -- left. exists (non_ace_sum hand + Z.of_nat (ace_count hand)
                         + 10 * j).
           split; [lia|]. apply IH. exists j. lia.
    + rewrite in_map_iff. split.
      * intros (u & <- & Hu). apply IH in Hu as (j & Hj & ->).
        exists j. simpl. lia.
      * intros (j & Hj & ->).
        exists (non_ace_sum hand + Z.of_nat (ace_count hand) + 10 * j).
        split; [simpl; lia|]. apply IH. exists j. simpl in Hj. lia.
Qed.

(** The best value in closed form: one ace counts 11 when the hand with
    all aces at 1 leaves room for ten more. *)
Lemma best_value_closed_form (hand : list Card) :
  best_value hand =
  if (1 <=? Z.of_nat (ace_count hand))
     && (non_ace_sum hand + Z.of_nat (ace_count hand) + 10 <=? 21)
  then non_ace_sum hand + Z.of_nat (ace_count hand) + 10
  else non_ace_sum hand + Z.of_nat (ace_count hand).
Proof.
  pose proof (non_ace_sum_nonneg hand) as Hs.
  destruct (best_value_spec hand) as (Hin & Hle & Hgt).
  apply ace_totals_spec in Hin as (j & Hj & Hb).
  set (s := non_ace_sum hand) in *. set (k := Z.of_nat (ace_count hand)) in *.
  assert (Hlow : In (s + k) (ace_totals hand))
    by (apply ace_totals_spec; exists 0; fold s k; lia).
  destruct (Z.leb_spec 1 k) as [Hk|Hk];
    destruct (Z.leb_spec (s + k + 10) 21) as [H10|H10]; simpl.
  - assert (Hone : In (s + k + 10) (ace_totals hand))
      by (apply ace_totals_spec; exists 1; fold s k; lia).
    destruct Hle as [Hb21 Hmax]; [exists (s + k); split; [assumption|lia]|].
    specialize (Hmax _ Hone H10). lia.
  - destruct (Z.le_gt_cases (s + k) 21) as [H21|H21].
    + destruct Hle as [Hb21 Hmax]; [exists (s + k); split; assumption|].
      specialize (Hmax _ Hlow H21). lia.
    + assert (Hall : forall t, In t (ace_totals hand) -> 21 < t).
      { intros t Ht. apply ace_totals_spec in Ht as (i & Hi & ->).
        fold s k. lia. }
      specialize (Hgt Hall _ Hlow). lia.
  - lia.
  - lia.
Qed.

(** The greedy rule returns the best value exactly on the hands with at
    most one ace, or more than 10 in other cards, or at most 11 with every
    ace at 1. *)
Lemma calculate_best_value_iff (hand : list Card) :
  calculate hand = best_value hand <->
  (ace_count hand <= 1)%nat \/ 10 < non_ace_sum hand \/
  non_ace_sum hand + Z.of_nat (ace_count hand) <= 11.
Proof.
  pose proof (non_ace_sum_nonneg hand) as Hs.
  rewrite calculate_closed_form, best_value_closed_form.
  destruct (ace_count hand) as [|k].
  - simpl. split; [intros _; left; lia|intros _; lia].
  - destruct (Z.leb_spec (non_ace_sum hand) 10) as [H10|H10];
      destruct (Z.leb_spec 1 (Z.of_nat (S k))) as [H1|H1];
      destruct (Z.leb_spec (non_ace_sum hand + Z.of_nat (S k) + 10) 21)
        as [H21|H21]; simpl; lia.
Qed.

(** C1.  On the hand K, A, A [calculate] returns 22, a bust, while the
    best achievable value (both aces counted 1) is 12: the greedy rule
    does not compute the best value of every hand.  It does so exactly on
    the hands with at most one ace, or more than 10 in other cards, or at
    most 11 with every ace counted 1. *)
Theorem calculate_misses_best_value :
  calculate king_ace_ace = 22 /\ best_value king_ace_ace = 12 /\
  calculate king_ace_ace <> best_value king_ace_ace /\
  (forall hand,
     calculate hand = best_value hand <->
     (ace_count hand <= 1)%nat \/ 10 < non_ace_sum hand \/
     non_ace_sum hand + Z.of_nat (ace_count hand) <= 11).
Proof.
  split; [reflexivity|]. split; [reflexivity|]. split; [discriminate|].
  exact calculate_best_value_iff.
Qed.

(* ===================================================================== *)
(** ** Cards: encoding, printing, the deck *)
(* ===================================================================== *)

Lemma Suit_of_value_some (s : string) (x : Suit) :
  Suit_of_value s = Some x -> Suit_value x = s.
Proof.
  intros H. apply find_some in H as [_ H]. now apply String.eqb_eq in H.
Qed.

Lemma Rank_of_value_some (s : string) (x : Rank) :
  Rank_of_value s = Some x -> Rank_value x = s.
Proof.
  intros H. apply find_some in H as [_ H]. now apply String.eqb_eq in H.
Qed.

Lemma Suit_of_value_none (s : string) :
  Suit_of_value s = None <-> ~ In s (map Suit_value all_suits).
Proof.
  split.
  - intros H Hin. apply in_map_iff in Hin as (x & <- & Hx).
    apply (find_none _ _ H) in Hx. now rewrite String.eqb_refl in Hx.
  - intros H. destruct (Suit_of_value s) as [x|] eqn:E; [|reflexivity].
    exfalso. apply H. apply Suit_of_value_some in E. subst s.
    apply in_map. destruct x; simpl; tauto.
Qed.

Lemma Rank_of_value_none (s : string) :
  Rank_of_value s = None <-> ~ In s (map Rank_value all_ranks).
Proof.
  split.
  - intros H Hin. apply in_map_iff in Hin as (x & <- & Hx).
    apply (find_none _ _ H) in Hx. now rewrite String.eqb_refl in Hx.
  - intros H. destruct (Rank_of_value s) as [x|] eqn:E; [|reflexivity].
    exfalso. apply H. apply Rank_of_value_some in E. subst s.
    apply in_map. destruct x; simpl; tauto.
Qed.

(** X1.  [Card.from_dict] undoes [Card.to_dict], on one card and on a
    list.  The other way round, a dictionary that decodes to a card has
    that card's suit and rank strings; its "value" entry is not read, and
    encoding the decoded card gives the dictionary back exactly when that
    entry is the card's value. *)
Theorem card_dict_round_trip :
  (forall c, from_dict (to_dict c) = Some c) /\
  (forall cs, cards_from_dicts (map to_dict cs) = Some cs) /\
  (forall d c, from_dict d = Some c ->
     d_suit d = Suit_value (suit c) /\ d_rank d = Rank_value (rank c) /\
     (to_dict c = d <-> d_value d = value c)) /\
  (forall d v, from_dict (mkCardDict (d_suit d) (d_rank d) v) = from_dict d).
Proof.
  split; [exact from_dict_to_dict|]. split; [exact cards_from_dicts_map|].
  split; [|reflexivity].
  intros [s r v] c. unfold from_dict. simpl.
  destruct (Suit_of_value s) as [x|] eqn:Es; [|discriminate].
  destruct (Rank_of_value r) as [y|] eqn:Er; [|discriminate].
  intros [= <-]. apply Suit_of_value_some in Es. apply Rank_of_value_some in Er.
  simpl. split; [now symmetry|]. split; [now symmetry|].
  unfold to_dict. simpl. rewrite Es, Er. split.
  - now intros [= <-].
  - now intros ->.
Qed.

(** X2.  [Card.from_dict] fails (the [ValueError] of the enum lookup)
    exactly on a dictionary whose suit is none of the four suit strings or
    whose rank is none of the thirteen rank strings; decoding a list fails
    exactly when decoding one of its elements does, and otherwise keeps
    length and order. *)
Theorem from_dict_failure :
  (forall d,
     from_dict d = None <->
     ~ In (d_suit d) ["♠"; "♥"; "♦"; "♣"] \/
     ~ In (d_rank d)
          ["A"; "2"; "3"; "4"; "5"; "6"; "7"; "8"; "9"; "10"; "J"; "Q"; "K"]) /\
  (forall ds,
     cards_from_dicts ds = None <->
     exists d, In d ds /\ from_dict d = None) /\
  (forall ds cs,
     cards_from_dicts ds = Some cs ->
     List.length cs = List.length ds /\
     forall i d, nth_error ds i = Some d ->
                 exists c, nth_error cs i = Some c /\ from_dict d = Some c).
Proof.
  split; [|split].
  - intros d. unfold from_dict.
    change ["♠"; "♥"; "♦"; "♣"] with (map Suit_value all_suits).
    change ["A"; "2"; "3"; "4"; "5"; "6"; "7"; "8"; "9"; "10"; "J"; "Q"; "K"]
      with (map Rank_value all_ranks).
    rewrite <- Suit_of_value_none, <- Rank_of_value_none.
    destruct (Suit_of_value (d_suit d)), (Rank_of_value (d_rank d));
      split; intros H; try discriminate; auto; destruct H; discriminate.
  - induction ds as [|d ds IH]; simpl.
    + split; [discriminate|]. now intros (d & [] & _).
    + destruct (from_dict d) as [c|] eqn:E.
      * destruct (cards_from_dicts ds) as [cs|].
        -- split; [discriminate|]. intros (d' & [<-|Hin] & H); [congruence|].
           assert (Hex : exists d, In d ds /\ from_dict d = None)
             by now exists d'.
           apply IH in Hex. discriminate.
        -- split; [|reflexivity]. intros _.
           destruct (proj1 IH eq_refl) as (d' & Hin & H).
           exists d'. auto.
      * split; [|reflexivity]. intros _. exists d. auto.
  - induction ds as [|d ds IH]; simpl; intros cs.
    + intros [= <-]. split; [reflexivity|]. now intros [|i] d.
    + destruct (from_dict d) as [c|] eqn:E; [|discriminate].
      destruct (cards_from_dicts ds) as [cs'|]; [|discriminate].
      intros [= <-]. destruct (IH cs' eq_refl) as [Hl Hn].
      split; [simpl; now rewrite Hl|].
      intros [|i] d'; simpl.
      * intros [= <-]. now exists c.
      * apply Hn.
Qed.

(** X3.  [Card.__str__] tells cards apart: two cards with the same string
    are the same card. *)
Theorem Card_str_injective (c c' : Card) :
  Card_str c = Card_str c' -> c = c'.
Proof.
  destruct c as [s r], c' as [s' r']. unfold Card_str. simpl.
  destruct r, r'; destruct s, s'; simpl; intros H;
    first [reflexivity | discriminate H].
Qed.

Lemma Card_str_injective_witness :
  mkCard HEARTS TEN = mkCard HEARTS TEN.
Proof.
  exact (Card_str_injective (mkCard HEARTS TEN) (mkCard HEARTS TEN) eq_refl).
Defined.

Lemma Card_eqb_eq (c c' : Card) : Card_eqb c c' = true <-> c = c'.
Proof.
  unfold Card_eqb. rewrite String.eqb_eq. split.
  - apply Card_str_injective.
  - now intros ->.
Qed.

Lemma distinct_NoDup (l : list Card) : distinct l = true -> NoDup l.
Proof.
  induction l as [|c l IH]; simpl; [constructor|].
  intros H. apply andb_prop in H as [H1 H2]. constructor; [|now apply IH].
  intros Hin. apply negb_true_iff in H1.
  assert (E : existsb (Card_eqb c) l = true).
  { apply existsb_exists. exists c. split; [assumption|].
    now apply Card_eqb_eq. }
  congruence.
Qed.

Lemma ordered_deck_all (c : Card) : In c ordered_deck.
Proof.
  destruct c as [s r].
  assert (Hs : In s all_suits) by (destruct s; simpl; tauto).
  assert (Hr : In r all_ranks) by (destruct r; simpl; tauto).
  unfold ordered_deck. apply in_flat_map. exists s. split; [assumption|].
  now apply in_map.
Qed.

Lemma ordered_deck_NoDup : NoDup ordered_deck.
Proof. apply distinct_NoDup. vm_compute. reflexivity. Qed.

Lemma Permutation_In_all (l : list Card) :
  Permutation ordered_deck l ->
  NoDup l /\ List.length l = 52%nat /\ forall c, In c l.
Proof.
  intros H. split; [|split].
  - apply (Permutation_NoDup H), ordered_deck_NoDup.
  - now rewrite <- (Permutation_length H).
  - intros c. apply (Permutation_in _ H), ordered_deck_all.
Qed.

(** A draw under a fair shuffle always returns a card. *)
Lemma draw_succeeds rng d :
  fair rng -> exists c d', draw rng d = Some (c, d').
Proof.
  intros Hf. destruct (_cards d) as [|x l] eqn:E.
  - destruct (draw_refills rng d Hf E) as (c & d' & H & _). now exists c, d'.
  - unfold draw. rewrite E. cbv zeta. rewrite E.
    destruct (pop (x :: l)) as [[c r]|] eqn:Ep.
    + eexists _, _. reflexivity.
    + apply pop_none_inv in Ep. discriminate.
Qed.

(** Draws from a deck that holds the cards for them take its last cards,
    last first, and do not shuffle. *)
Lemma draw_many_from_top rng (cs : list Card) :
  forall d l,
    _cards d = l ++ rev cs ->
    draw_many rng (List.length cs) d =
    Some (cs, {| _cards := l; shuffles := shuffles d |}).
Proof.
  induction cs as [|c cs IH]; intros d l E; simpl.
  - simpl in E. rewrite app_nil_r in E. destruct d as [k n]. simpl in *.
    now subst.
  - simpl in E. rewrite app_assoc in E.
    assert (Hd : draw rng d =
                 Some (c, {| _cards := l ++ rev cs; shuffles := shuffles d |})).
    { unfold draw. rewrite E.
      destruct ((l ++ rev cs) ++ [c]) as [|x r] eqn:E';
        [now destruct (l ++ rev cs)|].
      cbv zeta. rewrite E, <- E', pop_snoc. reflexivity. }
    rewrite Hd.
    now rewrite (IH {| _cards := l ++ rev cs; shuffles := shuffles d |} l
                    eq_refl).
Qed.

(** X4.  The deck built by [Deck._initialize_deck] before shuffling holds
    52 cards, every card of the four suits and thirteen ranks, none twice;
    so does every shuffle of it. *)
Theorem deck_holds_each_card_once :
  List.length ordered_deck = 52%nat /\
  NoDup ordered_deck /\
  (forall c, In c ordered_deck) /\
  (forall rng, fair rng ->
     NoDup (_cards (new_Deck rng)) /\
     remaining (new_Deck rng) = 52%nat /\
     forall c, In c (_cards (new_Deck rng))).
Proof.
  split; [reflexivity|]. split; [exact ordered_deck_NoDup|].
  split; [exact ordered_deck_all|].
  intros rng Hf. apply Permutation_In_all. apply (Hf O ordered_deck).
Qed.

Lemma deck_holds_each_card_once_witness :
  remaining (new_Deck reverse_shuffle) = 52%nat.
Proof.
  exact (proj1 (proj2 (proj2 (proj2 (proj2 deck_holds_each_card_once))
                         reverse_shuffle fair_reverse_shuffle))).
Defined.

(** X5.  Under a fair shuffle [Deck.draw] never fails, whatever the deck
    and however many draws are made.  The 52 draws from a new deck return
    its cards from the last to the first, each of the 52 cards exactly
    once, and leave it empty; the 53rd draw reshuffles a full deck and
    leaves 51 cards. *)
Theorem draw_never_fails (rng : shuffler) :
  fair rng ->
  (forall n d, exists cs d',
     draw_many rng n d = Some (cs, d') /\ List.length cs = n) /\
  (exists d',
     draw_many rng 52 (new_Deck rng) =
       Some (rev (_cards (new_Deck rng)), d') /\
     Permutation (rev (_cards (new_Deck rng))) ordered_deck /\
     NoDup (rev (_cards (new_Deck rng))) /\
     remaining d' = 0%nat /\
     exists c d'', draw rng d' = Some (c, d'') /\ remaining d'' = 51%nat).
Proof.
  intros Hf. split.
  - induction n as [|n IH]; intros d; simpl.
    + now exists [], d.
    + destruct (draw_succeeds rng d Hf) as (c & d1 & ->).
      destruct (IH d1) as (cs & d' & -> & Hl).
      exists (c :: cs), d'. simpl. now rewrite Hl.
  - pose proof (Hf O ordered_deck) as Hp.
    assert (Hcards : _cards (new_Deck rng) = rng O ordered_deck)
      by reflexivity.
    pose proof (draw_many_from_top rng (rev (_cards (new_Deck rng)))
                  (new_Deck rng) []) as H.
    rewrite rev_involutive, length_rev in H. specialize (H eq_refl).
    rewrite Hcards in H at 1. rewrite <- (Permutation_length Hp) in H.
    change (List.length ordered_deck) with 52%nat in H.
    eexists. split; [exact H|].
    assert (Hperm : Permutation (rev (_cards (new_Deck rng))) ordered_deck).
    { rewrite Hcards. symmetry.
      apply (Permutation_trans Hp), Permutation_rev. }
    split; [exact Hperm|].
    split; [apply (Permutation_NoDup (Permutation_sym Hperm)),
            ordered_deck_NoDup|].
    split; [reflexivity|]. now apply draw_refills.
Qed.

Lemma draw_never_fails_witness :
  exists cs d',
    draw_many identity_shuffle 53 (new_Deck identity_shuffle) = Some (cs, d') /\
    List.length cs = 53%nat.
Proof.
  exact (proj1 (draw_never_fails identity_shuffle fair_identity_shuffle)
           53%nat (new_Deck identity_shuffle)).
Defined.

(* ===================================================================== *)
(** ** Scores *)
(* ===================================================================== *)

Lemma non_ace_sum_Permutation (h h' : list Card) :
  Permutation h h' -> non_ace_sum h = non_ace_sum h'.
Proof.
  induction 1 as [|c l l' _ IH|c c' l|l l' l'' _ IH1 _ IH2].
  - reflexivity.
  - cbn [non_ace_sum fold_right]. fold (non_ace_sum l) (non_ace_sum l').
    now rewrite IH.
  - cbn [non_ace_sum fold_right]. destruct (is_ace c), (is_ace c'); lia.
  - congruence.
Qed.

Lemma ace_count_Permutation (h h' : list Card) :
  Permutation h h' -> ace_count h = ace_count h'.
Proof.
  intros H. unfold ace_count. apply Permutation_length.
  induction H as [|c l l' _ IH|c c' l|l l' l'' _ IH1 _ IH2]; simpl.
  - constructor.
  - destruct (is_ace c); [now constructor|assumption].
  - destruct (is_ace c), (is_ace c'); try apply Permutation_refl.
    apply perm_swap.
  - now apply (Permutation_trans IH1).
Qed.

(** X6.  The score of a hand does not depend on the order of its
    cards. *)
Theorem calculate_Permutation (hand hand' : list Card) :
  Permutation hand hand' -> calculate hand = calculate hand'.
Proof.
  intros H. rewrite !calculate_eq.
  now rewrite (non_ace_sum_Permutation _ _ H), (ace_count_Permutation _ _ H).
Qed.

Lemma calculate_Permutation_witness :
  calculate [mkCard HEARTS ACE; mkCard SPADES NINE; mkCard CLUBS ACE] =
  calculate [mkCard SPADES NINE; mkCard CLUBS ACE; mkCard HEARTS ACE].
Proof.
  apply calculate_Permutation.
  apply (Permutation_cons_append
           [mkCard SPADES NINE; mkCard CLUBS ACE] (mkCard HEARTS ACE)).
Defined.

Lemma non_ace_sum_no_ace (hand : list Card) :
  ace_count hand = O ->
  non_ace_sum hand = fold_right Z.add 0 (map value hand).
Proof.
  unfold ace_count. induction hand as [|c hand IH]; [reflexivity|].
  cbn [filter map fold_right non_ace_sum]. fold (non_ace_sum hand).
  destruct (is_ace c); [discriminate|]. intros H. now rewrite (IH H).
Qed.

(** X7.  Every hand scores at least the sum of its cards with each ace
    counted 1, hence at least its number of cards, and at most 10 more
    than that sum: no more than one ace is ever counted 11.  A hand
    without an ace scores the sum of its card values, and a hand with an
    ace and at most 10 in other cards scores 10 more than the low sum. *)
Theorem calculate_bounds (hand : list Card) :
  Z.of_nat (List.length hand) <=
    non_ace_sum hand + Z.of_nat (ace_count hand) /\
  non_ace_sum hand + Z.of_nat (ace_count hand) <= calculate hand /\
  calculate hand <= non_ace_sum hand + Z.of_nat (ace_count hand) + 10 /\
  (ace_count hand = O ->
   calculate hand = fold_right Z.add 0 (map value hand)) /\
  ((1 <= ace_count hand)%nat -> non_ace_sum hand <= 10 ->
   calculate hand = non_ace_sum hand + Z.of_nat (ace_count hand) + 10).
Proof.
  pose proof (length_le_non_ace_sum hand) as Hl.
  pose proof (non_ace_sum_no_ace hand) as Hn.
  rewrite calculate_closed_form.
  destruct (ace_count hand) as [|k].
  - repeat split; lia.
  - destruct (Z.leb_spec (non_ace_sum hand) 10); repeat split; lia.
Qed.

(** X8.  [is_blackjack] holds exactly of the hands of two cards made of
    an ace and a card of value 10 (ten, jack, queen or king), in either
    order. *)
Theorem is_blackjack_iff (hand : list Card) :
  is_blackjack hand = true <->
  exists a t,
    (hand = [a; t] \/ hand = [t; a]) /\ rank a = ACE /\ value t = 10.
Proof.
  split.
  - unfold is_blackjack.
    destruct hand as [|c1 [|c2 [|c3 rest]]]; try discriminate.
    simpl negb. cbv iota. intros H. apply Z.eqb_eq in H.
    destruct c1 as [s1 r1], c2 as [s2 r2].
    destruct r1, r2; vm_compute in H; try discriminate H;
      first [ exists (mkCard s1 ACE); eexists;
              split; [left; reflexivity|split; reflexivity]
            | exists (mkCard s2 ACE); eexists;
              split; [right; reflexivity|split; reflexivity] ].
  - intros (a & t & Hh & Ha & Ht).
    destruct a as [sa ra], t as [st rt]. simpl in Ha. subst ra.
    unfold value in Ht. simpl in Ht.
    destruct rt; try discriminate Ht; destruct Hh as [-> | ->]; reflexivity.
Qed.

(* ===================================================================== *)
(** ** What a request does to the two tables *)
(* ===================================================================== *)

(** The database after a request: player resolution, then nothing more, or
    the caller's row written back, alone or with a game row added or the
    caller's open game written back. *)
Lemma run_shape cfg r db :
  let player := fst (resolved cfg (session_of r) db) in
  let db1 := snd (resolved cfg (session_of r) db) in
  run cfg r db = db \/
  run cfg r db = db1 \/
  exists ps,
    Player.id ps = Player.id player /\
    Player.session_id ps = Player.session_id player /\
    (run cfg r db = save_player ps db1 \/
     (exists g,
        run cfg r db = add_game g (save_player ps db1) /\
        GameSession.id g = next_game_id db1 /\
        GameSession.player_id g = Player.id player /\
        get_active_game (Player.id player) db1 = None) \/
     (exists game g',
        run cfg r db = save_game g' (save_player ps db1) /\
        get_active_game (Player.id player) db1 = Some game /\
        GameSession.id g' = GameSession.id game /\
        GameSession.player_id g' = GameSession.player_id game /\
        GameSession.bet_amount g' = GameSession.bet_amount game)).
Proof.
  intros player db1. subst player db1.
  destruct r as [rng now sid bet|now sid|now sid|sid];
    [cbn [run session_of]..|rewrite run_reset; cbn [session_of]].
  - destruct (start_game_not_done cfg rng now sid bet db)
      as [(db' & g & E)|[E|E]]; [|now right; left|now left].
    right; right. rewrite E. simpl. pose proof E as E'.
    apply start_game_player_row in E. cbv zeta in E.
    destruct E as (ps & -> & Hid & Hsid & _).
    exists ps. split; [assumption|]. split; [assumption|]. right; left.
    exists g. split; [reflexivity|].
    apply start_game_done in E'. cbv zeta in E'.
    destruct E' as (c1 & c2 & c3 & c4 & d1 & d2 & d3 & d & ps' & _ & _ & _
                    & _ & _ & _ & Hnone & _ & Hg).
    destruct Hg as [(_ & -> & _)|[(_ & _ & -> & _)|(_ & _ & -> & _)]];
      repeat split; assumption.
  - destruct (hit_not_done cfg now sid db) as [(db' & g & E)|[E|E]];
      [|now right; left|now left].
    right; right. rewrite E. simpl. apply hit_player_row in E.
    cbv zeta in E.
    destruct E as (game & ps & Hg & -> & Hid & Hsid & _ & _ & _ & Hgid & Hpid
                   & Hbet).
    exists ps. split; [assumption|]. split; [assumption|]. right; right.
    exists game, g. repeat split; assumption.
  - destruct (stand_not_done cfg now sid db) as [(db' & g & E)|[E|E]];
      [|now right; left|now left].
    right; right. rewrite E. simpl. apply stand_player_row in E.
    cbv zeta in E.
    destruct E as (game & ps & Hg & -> & Hid & Hsid & _ & _ & _ & Hgid & Hpid
                   & Hbet).
    exists ps. split; [assumption|]. split; [assumption|]. right; right.
    exists game, g. repeat split; assumption.
  - destruct (enters cfg sid db && _); [|now left].
    right; right.
    eexists. split; [|split; [|left; reflexivity]]; reflexivity.
Qed.

Lemma map_id_save_player ps db :
  map Player.id (players (save_player ps db)) = map Player.id (players db).
Proof.
  unfold save_player. simpl. rewrite map_map. apply map_ext. intros q.
  destruct (Nat.eqb_spec (Player.id q) (Player.id ps)); congruence.
Qed.

Lemma player_ids_unique db p q :
  map Player.id (players db) = seq 1 (List.length (players db)) ->
  In p (players db) -> In q (players db) ->
  Player.id p = Player.id q -> p = q.
Proof.
  intros Hok. apply NoDup_map_eq. rewrite Hok. apply seq_NoDup.
Qed.

(** Writing back a stored row that keeps its key and session changes no
    session of the table. *)
Lemma map_session_save_player ps p db :
  map Player.id (players db) = seq 1 (List.length (players db)) ->
  In p (players db) ->
  Player.id ps = Player.id p ->
  Player.session_id ps = Player.session_id p ->
  map Player.session_id (players (save_player ps db)) =
  map Player.session_id (players db).
Proof.
  intros Hok Hin Hid Hsid. unfold save_player. simpl. rewrite map_map.
  apply map_ext_in. intros q Hq.
  destruct (Nat.eqb_spec (Player.id q) (Player.id ps)) as [e|n];
    [|reflexivity].
  assert (q = p) as -> by (apply (player_ids_unique db); congruence).
  assumption.
Qed.

Lemma players_ok_resolved cfg sid db :
  players_ok db -> players_ok (snd (resolved cfg sid db)).
Proof.
  intros (Hid & Hs & Hg). unfold resolved.
  destruct (find_player sid db) as [p|] eqn:E; simpl; [now repeat split|].
  unfold players_ok, add_player, next_player_id. simpl.
  rewrite !map_app, length_app, Hid. simpl. split; [|split].
  - rewrite seq_app. simpl. reflexivity.
  - apply NoDup_app_remove_l with (l := []). simpl.
    apply Permutation_NoDup with (l := sid :: map Player.session_id (players db)).
    + apply Permutation_cons_append.
    + constructor; [|assumption]. intros Hin.
      apply in_map_iff in Hin as (q & Hq & Hin).
      apply (find_none _ _ E) in Hin. rewrite Hq, String.eqb_refl in Hin.
      discriminate.
  - intros g Hin. apply in_or_app. left. rewrite <- Hid. now apply Hg.
Qed.

Lemma players_ok_save_player ps p db :
  players_ok db -> In p (players db) ->
  Player.id ps = Player.id p ->
  Player.session_id ps = Player.session_id p ->
  players_ok (save_player ps db).
Proof.
  intros (Hid & Hs & Hg) Hin Hi Hsid. unfold players_ok.
  rewrite (map_session_save_player ps p db Hid Hin Hi Hsid).
  rewrite map_id_save_player.
  assert (Hl : List.length (players (save_player ps db)) =
               List.length (players db))
    by (unfold save_player; simpl; apply length_map).
  rewrite Hl. repeat split; assumption.
Qed.

Lemma run_players_ok cfg r db : players_ok db -> players_ok (run cfg r db).
Proof.
  intros Hok.
  pose proof (players_ok_resolved cfg (session_of r) db Hok) as Hok1.
  pose proof (resolved_find cfg (session_of r) db) as Hf.
  apply find_player_In in Hf.
  destruct (run_shape cfg r db) as [->|[->|(ps & Hid & Hsid & H)]];
    [assumption|assumption|].
  pose proof (players_ok_save_player ps _ _ Hok1 Hf Hid Hsid) as Hok2.
  destruct H as [->|[(g & -> & _ & Hpid & _)|(game & g' & -> & Hg & _ & Hpid & _)]].
  - assumption.
  - destruct Hok2 as (H1 & H2 & H3). repeat split; try assumption.
    intros h Hh. simpl in Hh. apply in_app_or in Hh as [Hh|[<-|[]]].
    + now apply H3.
    + rewrite Hpid. cbn [add_game players]. rewrite map_id_save_player.
      now apply in_map.
  - destruct Hok2 as (H1 & H2 & H3). repeat split; try assumption.
    intros h Hh. apply save_game_In in Hh as [->|Hh]; [|now apply H3].
    rewrite Hpid. apply H3. simpl.
    now apply get_active_game_In in Hg.
Qed.

Lemma reachable_players_ok cfg db : reachable cfg db -> players_ok db.
Proof.
  induction 1 as [|db r _ _ IH].
  - repeat split; [constructor|]. intros g [].
  - now apply run_players_ok.
Qed.

(** With distinct sessions, the row found for a session is the row that
    carries it. *)
Lemma find_player_of_row db p :
  NoDup (map Player.session_id (players db)) ->
  In p (players db) -> find_player (Player.session_id p) db = Some p.
Proof.
  unfold find_player. induction (players db) as [|q l IH]; [intros _ []|].
  simpl. intros Hnd [->|Hin].
  - now rewrite String.eqb_refl.
  - inversion Hnd as [|? ? Hnot Hnd']; subst.
    destruct (String.eqb_spec (Player.session_id q) (Player.session_id p))
      as [e|n]; [|now apply IH].
    exfalso. apply Hnot. rewrite e. now apply in_map.
Qed.

(** X9.  In every reachable state the player rows have the keys 1, 2, ...
    in insertion order and pairwise different sessions (the unique
    constraint on [session_id] is never violated), every row is the one
    [find_player] returns for its session, and every game belongs to a
    stored player.  [get_or_create_player] returns the stored row of a
    session that has one and changes nothing; for a session without a row
    it creates one with the next key, the initial balance and zero totals
    (raising [OverflowError] and creating nothing when the initial balance
    does not fit the 64-bit column); it touches no game row, and a second
    call returns the same row and changes nothing. *)
Theorem players_keyed_by_session (cfg : Settings) (db : DB) :
  reachable cfg db ->
  map Player.id (players db) = seq 1 (List.length (players db)) /\
  NoDup (map Player.session_id (players db)) /\
  (forall p, In p (players db) ->
             find_player (Player.session_id p) db = Some p) /\
  (forall g, In g (games db) ->
             exists p, In p (players db) /\
                       Player.id p = GameSession.player_id g) /\
  (forall sid,
     (forall q, find_player sid db = Some q ->
                get_or_create_player cfg sid db = Some (q, db)) /\
     (find_player sid db = None ->
      let p := Player.mk (S (List.length (players db))) sid
                         (initial_balance cfg) 0 0 0 0 in
      get_or_create_player cfg sid db =
        (if fits (initial_balance cfg) then Some (p, add_player p db)
         else None) /\
      players (add_player p db) = players db ++ [p] /\
      games (add_player p db) = games db) /\
     (forall p db1,
        get_or_create_player cfg sid db = Some (p, db1) ->
        get_or_create_player cfg sid db1 = Some (p, db1) /\
        games db1 = games db)).
Proof.
  intros Hr. destruct (reachable_players_ok cfg db Hr) as (Hid & Hs & Hg).
  split; [assumption|]. split; [assumption|].
  split; [intros p; now apply find_player_of_row|]. split.
  - intros g Hin. apply Hg in Hin. apply in_map_iff in Hin as (p & Hp & Hin).
    now exists p.
  - intros sid. split; [|split].
    + intros q Hq. now apply get_or_create_player_existing.
    + intros Hn p. split; [|split; reflexivity].
      rewrite get_or_create_player_eq. unfold enters, resolved.
      now rewrite Hn.
    + intros p db1. rewrite get_or_create_player_eq.
      destruct (enters cfg sid db); [|discriminate].
      intros E. pose proof (resolved_find cfg sid db) as Hf.
      pose proof (resolved_games cfg sid db) as Hgm.
      destruct (resolved cfg sid db) as [p0 db0]. injection E as <- <-.
      split; [now apply get_or_create_player_existing|assumption].
Qed.

Lemma players_keyed_by_session_witness :
  map Player.id (players demo_stood) = [1%nat] /\
  NoDup (map Player.session_id (players demo_stood)).
Proof.
  assert (R : reachable default_settings demo_stood).
  { apply reachable_run; [exact I|]. exact reachable_demo_started. }
  destruct (players_keyed_by_session default_settings demo_stood R)
    as (H1 & H2 & _).
  split; [exact H1|exact H2].
Defined.

Lemma nth_error_map_some {A B : Type} (f : A -> B) (l : list A) i x :
  nth_error l i = Some x -> nth_error (map f l) i = Some (f x).
Proof.
  revert i. induction l as [|a l IH]; intros [|i]; simpl; try discriminate.
  - now intros [= ->].
  - apply IH.
Qed.

Lemma nth_error_app_some {A : Type} (l l' : list A) i x :
  nth_error l i = Some x -> nth_error (l ++ l') i = Some x.
Proof.
  intros H. rewrite nth_error_app1; [assumption|].
  apply nth_error_Some. congruence.
Qed.

(** X10.  A request never deletes a row: the players stay, and every game
    row stays at its place with its key, its owner and its bet.  It adds at
    most one game row.  A game that is over is never modified again, and a
    game never goes back to being in progress. *)
Theorem completed_games_are_frozen (cfg : Settings) (db : DB) (r : request) :
  reachable cfg db ->
  (List.length (players db) <= List.length (players (run cfg r db)))%nat /\
  (List.length (games db) <= List.length (games (run cfg r db))
                          <= S (List.length (games db)))%nat /\
  (forall i g,
     nth_error (games db) i = Some g ->
     exists g',
       nth_error (games (run cfg r db)) i = Some g' /\
       GameSession.id g' = GameSession.id g /\
       GameSession.player_id g' = GameSession.player_id g /\
       GameSession.bet_amount g' = GameSession.bet_amount g /\
       (in_progress (GameSession.status g) = false -> g' = g)).
Proof.
  intros Hr. destruct (reachable_one_open cfg db Hr) as [Hok _].
  pose proof (game_ids_ok_resolved cfg (session_of r) db Hok) as Hok1.
  assert (Hp1 : (List.length (players db) <=
                 List.length (players
                   (snd (resolved cfg (session_of r) db))))%nat).
  { unfold resolved.
    destruct (find_player (session_of r) db); simpl; [lia|].
    rewrite length_app. lia. }
  pose proof (resolved_games cfg (session_of r) db) as Hg1.
  assert (Hsame : forall i g, nth_error (games db) i = Some g ->
            exists g', nth_error (games db) i = Some g' /\
              GameSession.id g' = GameSession.id g /\
              GameSession.player_id g' = GameSession.player_id g /\
              GameSession.bet_amount g' = GameSession.bet_amount g /\
              (in_progress (GameSession.status g) = false -> g' = g))
    by (intros i g H; exists g; auto).
  destruct (run_shape cfg r db) as [->|[->|(ps & _ & _ & H)]].
  { split; [lia|]. split; [lia|assumption]. }
  { rewrite Hg1. split; [assumption|]. split; [lia|assumption]. }
  assert (Hps : forall d, List.length (players (save_player ps d)) =
                          List.length (players d))
    by (intros d; unfold save_player; simpl; apply length_map).
  destruct H as [->|[(g & -> & _)|(game & g' & -> & Hg & Hid & Hpid & Hbet)]].
  - rewrite Hps. simpl. rewrite Hg1. split; [assumption|].
    split; [lia|assumption].
  - cbn [add_game players games]. rewrite Hps. simpl. rewrite Hg1.
    rewrite length_app. simpl. split; [assumption|]. split; [lia|].
    intros i h H. exists h. split; [now apply nth_error_app_some|]. auto.
  - cbn [save_game players games]. rewrite Hps. simpl.
    rewrite length_map, Hg1. split; [assumption|]. split; [lia|].
    intros i h H.
    apply get_active_game_In in Hg as (Hin & _ & Ho). simpl in Hin.
    rewrite Hg1 in Hin.
    eexists. split; [apply nth_error_map_some; exact H|].
    destruct (Nat.eqb_spec (GameSession.id h) (GameSession.id g')) as [e|n];
      [|auto].
    assert (h = game) as ->.
    { apply (game_ids_unique db); try assumption; [|congruence].
      now apply nth_error_In in H. }
    repeat split; try assumption. congruence.
Qed.

Lemma completed_games_are_frozen_witness :
  (List.length (games demo_stood) <=
   List.length (games (run default_settings (Hit 5 "s") demo_stood)))%nat.
Proof.
  assert (R : reachable default_settings demo_stood).
  { apply reachable_run; [exact I|]. exact reachable_demo_started. }
  exact (proj1 (proj1 (proj2 (completed_games_are_frozen default_settings
                                demo_stood (Hit 5 "s") R)))).
Defined.

(* ===================================================================== *)
(** ** Sessions do not interfere *)
(* ===================================================================== *)

Lemma find_player_resolved_other cfg sid sid' db :
  sid <> sid' ->
  find_player sid' (snd (resolved cfg sid db)) =
  find_player sid' db.
Proof.
  intros Hne. unfold resolved.
  destruct (find_player sid db); [reflexivity|].
  unfold find_player. simpl. rewrite find_app.
  destruct (find _ (players db)); [reflexivity|]. simpl.
  destruct (String.eqb_spec sid sid'); [contradiction|reflexivity].
Qed.

Lemma find_player_save_other sid' ps db :
  Player.session_id ps <> sid' ->
  (forall q, In q (players db) -> Player.id q = Player.id ps ->
             Player.session_id q <> sid') ->
  find_player sid' (save_player ps db) = find_player sid' db.
Proof.
  unfold find_player, save_player. simpl. intros Hps.
  induction (players db) as [|q l IH]; [reflexivity|]. simpl. intros H.
  assert (IH' := IH (fun x Hx => H x (or_intror Hx))).
  destruct (Nat.eqb_spec (Player.id q) (Player.id ps)) as [e|n].
  - specialize (H q (or_introl eq_refl) e).
    destruct (String.eqb_spec (Player.session_id ps) sid'); [contradiction|].
    destruct (String.eqb_spec (Player.session_id q) sid'); [contradiction|].
    exact IH'.
  - destruct (String.eqb (Player.session_id q) sid'); [reflexivity|exact IH'].
Qed.

Lemma get_active_game_add_other pid g db :
  GameSession.player_id g <> pid ->
  get_active_game pid (add_game g db) = get_active_game pid db.
Proof.
  intros Hne. unfold get_active_game, add_game. simpl. rewrite find_app.
  destruct (find _ (games db)); [reflexivity|]. simpl.
  destruct (Nat.eqb_spec (GameSession.player_id g) pid); [contradiction|].
  reflexivity.
Qed.

Lemma get_active_game_save_other pid g' db :
  GameSession.player_id g' <> pid ->
  (forall h, In h (games db) -> GameSession.id h = GameSession.id g' ->
             GameSession.player_id h <> pid) ->
  get_active_game pid (save_game g' db) = get_active_game pid db.
Proof.
  unfold get_active_game, save_game. simpl. intros Hg.
  induction (games db) as [|h l IH]; [reflexivity|]. simpl. intros H.
  assert (IH' := IH (fun x Hx => H x (or_intror Hx))).
  destruct (Nat.eqb_spec (GameSession.id h) (GameSession.id g')) as [e|n].
  - specialize (H h (or_introl eq_refl) e).
    destruct (Nat.eqb_spec (GameSession.player_id g') pid); [contradiction|].
    destruct (Nat.eqb_spec (GameSession.player_id h) pid); [contradiction|].
    exact IH'.
  - destruct (_ && _); [reflexivity|exact IH'].
Qed.

(** What a request of one session leaves of another session. *)
Lemma run_other_session (cfg : Settings) (db : DB) (r : request)
    (sid' : string) :
  reachable cfg db ->
  session_of r <> sid' ->
  find_player sid' (run cfg r db) = find_player sid' db /\
  (forall q, find_player sid' db = Some q ->
     get_active_game (Player.id q) (run cfg r db) =
       get_active_game (Player.id q) db /\
     forall g, In g (games db) -> GameSession.player_id g = Player.id q ->
               In g (games (run cfg r db))).
Proof.
  intros Hr Hne.
  pose proof (reachable_players_ok cfg db Hr) as Hpok.
  pose proof (players_ok_resolved cfg (session_of r) db Hpok)
    as (Hid1 & Hs1 & _).
  destruct (reachable_one_open cfg db Hr) as [Hok _].
  pose proof (game_ids_ok_resolved cfg (session_of r) db Hok) as Hok1.
  pose proof (resolved_find cfg (session_of r) db) as Hf.
  pose proof (find_player_session _ _ _ Hf) as Hsess.
  pose proof (find_player_In _ _ _ Hf) as Hin.
  pose proof (find_player_resolved_other cfg _ sid' db Hne) as Hfo.
  pose proof (resolved_games cfg (session_of r) db) as Hg1.
  set (player := fst (resolved cfg (session_of r) db)) in *.
  set (db1 := snd (resolved cfg (session_of r) db)) in *.
  assert (Hact1 : forall pid, get_active_game pid db1 = get_active_game pid db)
    by (intros pid; unfold get_active_game; now rewrite Hg1).
  assert (Hother : forall q, find_player sid' db = Some q ->
                             Player.id player <> Player.id q).
  { intros q Hq e. rewrite <- Hfo in Hq.
    pose proof (find_player_session _ _ _ Hq) as Hsq.
    apply find_player_In in Hq.
    assert (player = q) by (apply (player_ids_unique db1); assumption).
    congruence. }
  destruct (run_shape cfg r db) as [->|[->|(ps & Hid & Hsid & H)]].
  { split; [reflexivity|]. intros q Hq. split; [reflexivity|]. auto. }
  { fold db1. split; [assumption|]. intros q Hq.
    split; [apply Hact1|]. intros g Hg _. now rewrite Hg1. }
  fold player db1 in Hid, Hsid, H.
  assert (Hfs : find_player sid' (save_player ps db1) = find_player sid' db).
  { rewrite <- Hfo. apply find_player_save_other; [congruence|].
    intros q Hq e.
    assert (q = player) as -> by (apply (player_ids_unique db1); congruence).
    congruence. }
  destruct H as [->|[(g & -> & _ & Hpid & _)|(game & g' & -> & Hg & Hgid & Hpid & _)]].
  - split; [assumption|]. intros q Hq.
    split; [apply Hact1|]. intros g Hg _. simpl. now rewrite Hg1.
  - split; [assumption|]. intros q Hq. split.
    + rewrite get_active_game_add_other; [apply Hact1|].
      rewrite Hpid. now apply Hother.
    + intros h Hh _. simpl. apply in_or_app. left. now rewrite Hg1.
  - split; [assumption|]. intros q Hq.
    apply get_active_game_In in Hg as (Hgin & Hgp & _).
    simpl in Hgin. split.
    + rewrite get_active_game_save_other; [apply Hact1| |].
      * rewrite Hpid, Hgp. now apply Hother.
      * intros h Hh e. simpl in Hh.
        assert (h = game) as ->
            by (apply (game_ids_unique db1); congruence).
        rewrite Hgp. now apply Hother.
    + intros h Hh Hhp. simpl. apply in_map_iff. exists h.
      split; [|now rewrite Hg1].
      destruct (Nat.eqb_spec (GameSession.id h) (GameSession.id g'))
        as [e|n]; [|reflexivity].
      exfalso. rewrite <- Hg1 in Hh.
      assert (h = game) as -> by (apply (game_ids_unique db1); congruence).
      apply (Hother q Hq). congruence.
Qed.

(** X11.  A request of one session leaves every other session alone: the
    player row of another session (balance and totals), its open game and
    all its game rows are after the request what they were before, and a
    session without a row still has none. *)
Theorem sessions_do_not_interfere
    (cfg : Settings) (db : DB) (r : request) (sid' : string) :
  reachable cfg db ->
  session_of r <> sid' ->
  find_player sid' (run cfg r db) = find_player sid' db /\
  (forall q, find_player sid' db = Some q ->
     get_active_game (Player.id q) (run cfg r db) =
       get_active_game (Player.id q) db /\
     forall g, In g (games db) -> GameSession.player_id g = Player.id q ->
               In g (games (run cfg r db))).
Proof. exact (run_other_session cfg db r sid'). Qed.

Lemma sessions_do_not_interfere_witness :
  find_player "s" (run default_settings (Reset "t") demo_started) =
  find_player "s" demo_started.
Proof.
  refine (proj1 (sessions_do_not_interfere default_settings demo_started
                   (Reset "t") "s" reachable_demo_started _)).
  simpl. discriminate.
Defined.

(* ===================================================================== *)
(** ** The totals, row by row *)
(* ===================================================================== *)

Lemma save_player_In_other (p q : Player.t) (db : DB) :
  In q (players (save_player p db)) ->
  q = p \/ In q (players db) /\ Player.id q <> Player.id p.
Proof.
  unfold save_player. simpl. intros H. apply in_map_iff in H as [r [H Hr]].
  destruct (Nat.eqb_spec (Player.id r) (Player.id p)); subst; auto.
Qed.

(** What a request does to the player table: nothing, or the resolution of
    the calling session only, with no game returned; or it writes back the
    row of the calling session with its totals moved by the tally of the
    returned status. *)
Lemma run_outcome cfg r db :
  let player := fst (resolved cfg (session_of r) db) in
  let db1 := snd (resolved cfg (session_of r) db) in
  (run cfg r db = db \/ run cfg r db = db1) /\
  returned_status cfg r db = IN_PROGRESS
  \/
  exists ps,
    Player.id ps = Player.id player /\
    Player.session_id ps = Player.session_id player /\
    counters ps = add4 (counters player) (tally (returned_status cfg r db)) /\
    players (run cfg r db) = players (save_player ps db1).
Proof.
  cbv zeta.
  destruct r as [rng now sid bet|now sid|now sid|sid];
    [cbn [run session_of returned_status]..
    |rewrite run_reset; cbn [session_of returned_status]].
  - destruct (start_game cfg rng now sid bet db) as [db' g|db' m|db' e] eqn:E.
    + right. apply start_game_player_row in E. cbv zeta in E.
      destruct E as (ps & -> & Hid & Hsid & Hc & _).
      exists ps. now repeat split.
    + left. split; [|reflexivity].
      destruct (start_game_not_done cfg rng now sid bet db)
        as [(db'' & g & E')|[E'|E']]; [congruence| |];
        rewrite E in E'; simpl in *; auto.
    + left. split; [|reflexivity].
      destruct (start_game_not_done cfg rng now sid bet db)
        as [(db'' & g & E')|[E'|E']]; [congruence| |];
        rewrite E in E'; simpl in *; auto.
  - destruct (hit cfg now sid db) as [db' g|db' m|db' e] eqn:E.
    + right. apply hit_player_row in E. cbv zeta in E.
      destruct E as (game & ps & _ & -> & Hid & Hsid & _ & Hc & _).
      exists ps. now repeat split.
    + left. split; [|reflexivity].
      destruct (hit_not_done cfg now sid db)
        as [(db'' & g & E')|[E'|E']]; [congruence| |];
        rewrite E in E'; simpl in *; auto.
    + left. split; [|reflexivity].
      destruct (hit_not_done cfg now sid db)
        as [(db'' & g & E')|[E'|E']]; [congruence| |];
        rewrite E in E'; simpl in *; auto.
  - destruct (stand cfg now sid db) as [db' g|db' m|db' e] eqn:E.
    + right. apply stand_player_row in E. cbv zeta in E.
      destruct E as (game & ps & _ & -> & Hid & Hsid & _ & Hc & _).
      exists ps. now repeat split.
    + left. split; [|reflexivity].
      destruct (stand_not_done cfg now sid db)
        as [(db'' & g & E')|[E'|E']]; [congruence| |];
        rewrite E in E'; simpl in *; auto.
    + left. split; [|reflexivity].
      destruct (stand_not_done cfg now sid db)
        as [(db'' & g & E')|[E'|E']]; [congruence| |];
        rewrite E in E'; simpl in *; auto.
  - destruct (enters cfg sid db && _); [|left; auto].
    right.
    exists (Player.set_balance (fst (resolved cfg sid db))
              (initial_balance cfg)).
    split; [reflexivity|]. split; [reflexivity|].
    split; [|reflexivity]. now rewrite add4_tally_in_progress.
Qed.

Lemma counters_of_row db p :
  players_ok db -> In p (players db) ->
  counters_of (Player.session_id p) db = counters p.
Proof.
  intros (_ & Hnd & _) Hin. unfold counters_of.
  now rewrite (find_player_of_row db p Hnd Hin).
Qed.

(** The totals of the row a session is resolved to are the totals the
    session had. *)
Lemma counters_of_resolved cfg sid db :
  counters (fst (resolved cfg sid db)) = counters_of sid db.
Proof.
  unfold resolved, counters_of. now destruct (find_player sid db).
Qed.

(** The rows of a table after player resolution: the rows before it, and
    the resolved one. *)
Lemma resolved_keeps cfg sid db q :
  In q (players db) -> In q (players (snd (resolved cfg sid db))).
Proof.
  unfold resolved. destruct (find_player sid db); simpl; [auto|].
  intros H. apply in_or_app. now left.
Qed.

(** Row by row: a request keeps every row, with its key and session, and
    the totals of a row after it are the totals its session had before,
    moved by the tally of the returned status on the row of the calling
    session and by nothing on every other row. *)
Lemma run_rows cfg r db :
  players_ok db ->
  (forall p, In p (players db) ->
     exists p', In p' (players (run cfg r db)) /\
                Player.id p' = Player.id p /\
                Player.session_id p' = Player.session_id p) /\
  (forall p', In p' (players (run cfg r db)) ->
     counters p' =
       if String.eqb (Player.session_id p') (session_of r)
       then add4 (counters_of (Player.session_id p') db)
                 (tally (returned_status cfg r db))
       else counters_of (Player.session_id p') db).
Proof.
  intros Hok.
  pose proof (players_ok_resolved cfg (session_of r) db Hok) as Hok1.
  pose proof (resolved_find cfg (session_of r) db) as Hf.
  pose proof (find_player_session _ _ _ Hf) as Hsess.
  pose proof (find_player_In _ _ _ Hf) as Hin1.
  pose proof (counters_of_resolved cfg (session_of r) db) as Hco.
  set (player := fst (resolved cfg (session_of r) db)) in *.
  set (db1 := snd (resolved cfg (session_of r) db)) in *.
  assert (Hold : forall q, In q (players db) ->
            counters q =
              if String.eqb (Player.session_id q) (session_of r)
              then add4 (counters_of (Player.session_id q) db)
                        (tally IN_PROGRESS)
              else counters_of (Player.session_id q) db).
  { intros q Hq. rewrite add4_tally_in_progress, counters_of_row by auto.
    now destruct (String.eqb _ _). }
  assert (Hres : forall q, In q (players db1) ->
            q = player \/ In q (players db))
    by (intros q; apply resolved_In).
  assert (Hother : forall q, In q (players db1) ->
            Player.id q <> Player.id player ->
            In q (players db) /\ Player.session_id q <> session_of r).
  { intros q Hq Hne. destruct (Hres q Hq) as [->|Hq']; [congruence|].
    split; [assumption|]. intros e. apply Hne. f_equal.
    destruct Hok1 as (_ & Hnd1 & _).
    pose proof (find_player_of_row db1 q Hnd1 Hq) as Hfq.
    rewrite e in Hfq. congruence. }
  pose proof (run_outcome cfg r db) as Ho. cbv zeta in Ho.
  fold player db1 in Ho.
  destruct Ho as [([E|E] & Hst)|(ps & Hid & Hsid & Hc & E)].
  - rewrite E, Hst. split; [intros p Hp; now exists p|exact Hold].
  - rewrite E, Hst. split.
    + intros p Hp. exists p. split; [|now split].
      now apply resolved_keeps.
    + intros q Hq. destruct (Hres q Hq) as [->|Hq']; [|now apply Hold].
      rewrite Hsess, String.eqb_refl, add4_tally_in_progress. exact Hco.
  - rewrite E. split.
    + intros p Hp. apply (resolved_keeps cfg (session_of r)) in Hp.
      fold db1 in Hp. unfold save_player. cbn [players].
      destruct (Nat.eqb_spec (Player.id p) (Player.id ps)) as [e|n].
      * exists ps. split.
        { apply in_map_iff. exists p. split; [|assumption].
          destruct (Nat.eqb_spec (Player.id p) (Player.id ps));
            [reflexivity|contradiction]. }
        assert (p = player) as ->.
        { destruct Hok1 as (Hid1 & _).
          apply (player_ids_unique db1); congruence. }
        now split.
      * exists p. split; [|now split].
        apply in_map_iff. exists p. split; [|assumption].
        destruct (Nat.eqb_spec (Player.id p) (Player.id ps));
          [contradiction|reflexivity].
    + intros q Hq. apply save_player_In_other in Hq as [->|[Hq Hne]].
      * now rewrite Hsid, Hsess, String.eqb_refl, Hc, Hco.
      * rewrite Hid in Hne. destruct (Hother q Hq Hne) as [Hq' Hs].
        destruct (String.eqb_spec (Player.session_id q) (session_of r));
          [contradiction|].
        symmetry. now apply counters_of_row.
Qed.

(** What the tally of a status adds: nothing while the game is in
    progress, and otherwise one game and exactly one win, loss or push. *)
Lemma tally_spec (st : GameStatus) :
  in_progress st = true /\ tally st = (0, 0, 0, 0) \/
  in_progress st = false /\
  (tally st = (1, 1, 0, 0) \/ tally st = (1, 0, 1, 0) \/
   tally st = (1, 0, 0, 1)).
Proof. destruct st; simpl; auto. Qed.

(** C10.  In every reachable state each player row has
    [total_games = total_wins + total_losses + total_pushes].  A request
    deletes no row and changes the totals of no row but that of the
    calling session, and that one only when [start_game], [hit] or [stand]
    returns a game: the totals of every row after a request are the totals
    its session had before it (zeros for the row a first contact creates),
    moved on the row of the calling session by the tally of the status of
    the returned game, which is one more game and exactly one more win,
    loss or push when that status is terminal, and nothing when it is
    [IN_PROGRESS] or no game is returned ([reset_player], a rejection, an
    exception).  Whenever [start_game], [hit] or [stand] returns a game,
    the totals of the calling session's row are moved by the tally of that
    game's status. *)
Theorem total_games_is_sum_of_outcomes (cfg : Settings) (db : DB) :
  reachable cfg db ->
  (forall p, In p (players db) -> totals_add_up p) /\
  (forall r,
     (forall p, In p (players db) ->
        exists p', In p' (players (run cfg r db)) /\
                   Player.id p' = Player.id p /\
                   Player.session_id p' = Player.session_id p) /\
     (forall p', In p' (players (run cfg r db)) ->
        counters p' =
          if String.eqb (Player.session_id p') (session_of r)
          then add4 (counters_of (Player.session_id p') db)
                    (tally (returned_status cfg r db))
          else counters_of (Player.session_id p') db)) /\
  (forall st,
     in_progress st = true /\ tally st = (0, 0, 0, 0) \/
     in_progress st = false /\
     (tally st = (1, 1, 0, 0) \/ tally st = (1, 0, 1, 0) \/
      tally st = (1, 0, 0, 1))) /\
  (forall sid db' g,
     (exists rng now bet, start_game cfg rng now sid bet db = Done db' g) \/
     (exists now, hit cfg now sid db = Done db' g) \/
     (exists now, stand cfg now sid db = Done db' g) ->
     exists p',
       find_player sid db' = Some p' /\
       counters p' =
         add4 (counters_of sid db) (tally (GameSession.status g))).
Proof.
  intros Hr. split; [|split; [|split; [exact tally_spec|]]].
  - clear -Hr. induction Hr as [|db r _ Hr IH]; [intros p []|].
    intros p' Hp'. apply run_counters in Hp' as (c & Hc & Hp').
    assert (Hc' : exists p, c = counters p /\ totals_add_up p).
    { destruct Hc as [->|(p & Hin & _ & ->)].
      - exists (Player.mk 0 EmptyString 0 0 0 0 0). split; reflexivity.
      - exists p. auto. }
    destruct Hc' as (p & -> & Hp). destruct Hp' as [Hp'|Hp'].
    + apply (tally_add_up (counters p) IN_PROGRESS p); auto.
      now rewrite add4_tally_in_progress.
    + now apply (tally_add_up (counters p) (returned_status cfg r db) p).
  - intros r. apply run_rows. now apply (reachable_players_ok cfg).
  - intros sid db' g [(rng & now & bet & E)|[(now & E)|(now & E)]];
      rewrite <- (counters_of_resolved cfg sid db).
    + apply start_game_player_row in E. cbv zeta in E.
      destruct E as (ps & -> & Hid & Hsid & Hc & _).
      now apply (caller_row_saved cfg sid db ps).
    + apply hit_player_row in E. cbv zeta in E.
      destruct E as (game & ps & _ & -> & Hid & Hsid & _ & Hc & _).
      now apply (caller_row_saved cfg sid db ps).
    + apply stand_player_row in E. cbv zeta in E.
      destruct E as (game & ps & _ & -> & Hid & Hsid & _ & Hc & _).
      now apply (caller_row_saved cfg sid db ps).
Qed.

Lemma total_games_is_sum_of_outcomes_witness :
  reachable default_settings demo_stood /\
  totals_add_up (Player.mk 1 "s" 100 1 0 0 1) /\
  counters (Player.mk 1 "s" 100 1 0 0 1) =
    add4 (counters_of "s" demo_started)
         (tally (returned_status default_settings (Stand 1 "s")
                   demo_started)).
Proof.
  assert (R : reachable default_settings demo_stood).
  { apply reachable_run; [exact I|]. exact reachable_demo_started. }
  split; [exact R|]. split.
  - apply (proj1 (total_games_is_sum_of_outcomes default_settings demo_stood
                    R)).
    vm_compute. left. reflexivity.
  - refine (proj2 (proj1 (proj2 (total_games_is_sum_of_outcomes
                                   default_settings demo_started
                                   reachable_demo_started))
                     (Stand 1 "s")) (Player.mk 1 "s" 100 1 0 0 1) _).
    vm_compute. left. reflexivity.
Defined.

(* ===================================================================== *)
(** ** From the bet to the settlement *)
(* ===================================================================== *)

Lemma find_hd {A : Type} (f : A -> bool) (l : list A) (x : A) :
  find f l = Some x -> exists t, filter f l = x :: t.
Proof.
  induction l as [|a l IH]; simpl; [discriminate|].
  destruct (f a) eqn:E; [intros [= ->]; now eexists|exact IH].
Qed.

(** With at most one open game per player, the open game found for a
    player is the only one. *)
Lemma open_game_unique pid db game h :
  (open_games pid db <= 1)%nat ->
  get_active_game pid db = Some game ->
  In h (games db) -> GameSession.player_id h = pid ->
  in_progress (GameSession.status h) = true -> h = game.
Proof.
  unfold open_games, get_active_game. intros H1 Hg Hin Hp Ho.
  apply find_hd in Hg as (t & Hf).
  assert (Hh : In h (filter
                       (fun g => Nat.eqb (GameSession.player_id g) pid
                                 && in_progress (GameSession.status g))
                       (games db))).
  { apply filter_In. split; [assumption|].
    now rewrite Hp, Nat.eqb_refl, Ho. }
  rewrite Hf in H1, Hh. destruct t; [|simpl in H1; lia].
  destruct Hh as [<-|[]]. reflexivity.
Qed.

(** Writing back, closed, the open game of a player leaves that player
    without an open game. *)
Lemma closed_game_saved pid db game g' :
  (open_games pid db <= 1)%nat ->
  get_active_game pid db = Some game ->
  GameSession.id g' = GameSession.id game ->
  in_progress (GameSession.status g') = false ->
  get_active_game pid (save_game g' db) = None.
Proof.
  intros H1 Hg Hid Hc.
  destruct (get_active_game pid (save_game g' db)) as [h|] eqn:E;
    [|reflexivity].
  exfalso. apply get_active_game_In in E as (Hin & Hp & Ho).
  unfold save_game in Hin. cbn [games] in Hin.
  apply in_map_iff in Hin as (x & Hx & Hin).
  destruct (Nat.eqb_spec (GameSession.id x) (GameSession.id g')) as [e|n].
  - subst h. congruence.
  - subst h.
    assert (x = game) by now apply (open_game_unique pid db).
    subst x. congruence.
Qed.

(** [stand] of a stored player with a game in progress, in a reachable
    state: the game is resolved by the table, the payout is added to the
    balance, and both rows are written back. *)
Lemma stand_settles cfg now sid db p game :
  reachable cfg db ->
  find_player sid db = Some p ->
  get_active_game (Player.id p) db = Some game ->
  exists p' g',
    stand cfg now sid db =
      (if Player.updatable p p' && GameSession.updatable game g'
       then Done (save_game g' (save_player p' db)) g'
       else Raised db OverflowError) /\
    (Player.insertable p' = true -> fits (GameSession.payout g') = true ->
     stand cfg now sid db = Done (save_game g' (save_player p' db)) g') /\
    GameSession.id g' = GameSession.id game /\
    GameSession.player_id g' = GameSession.player_id game /\
    GameSession.bet_amount g' = GameSession.bet_amount game /\
    GameSession.player_score g' = GameSession.player_score game /\
    GameSession.player_hand g' = GameSession.player_hand game /\
    GameSession.completed_at g' = Some now /\
    in_progress (GameSession.status g') = false /\
    (GameSession.status g', GameSession.payout g') =
      resolution (GameSession.dealer_score g') (GameSession.player_score g')
                 (GameSession.bet_amount game) /\
    Player.id p' = Player.id p /\
    Player.session_id p' = Player.session_id p /\
    Player.balance p' = Player.balance p + GameSession.payout g' /\
    counters p' = add4 (counters p) (tally (GameSession.status g')) /\
    find_player sid (save_game g' (save_player p' db)) = Some p' /\
    In g' (games (save_game g' (save_player p' db))) /\
    get_active_game (Player.id p) (save_game g' (save_player p' db)) = None /\
    balance_of cfg sid (save_game g' (save_player p' db)) =
      Player.balance p + GameSession.payout g'.
Proof.
  intros Hr Hp Hg.
  pose proof (get_active_game_In _ _ _ Hg) as (Hin & Hgp & Ho).
  destruct (reachable_one_open cfg db Hr) as [Hok H1].
  destruct (reachable_sound cfg db Hr game Hin)
    as (hand & dealer & deck & Eh & Ed & Ek & Sh & Sd & Hopen).
  destruct (Hopen Ho) as (Hpay0 & Hlen & Hdl & H21).
  destruct (stand_on_encoded cfg now sid db p game hand dealer deck
              Hp Hg Eh Ed Ek)
    as (g' & p' & E & Hid & Hsid & Hgid & _ & _ & Hds & Hps & Hbet & Hterm
        & Hst & Hpay & Hpay' & Hbal & Hc & Hgpid & Hph & Hca).
  assert (Hpayout : GameSession.payout g' =
                    snd (resolution (GameSession.dealer_score g')
                           (GameSession.player_score game)
                           (GameSession.bet_amount game))).
  { destruct (GameSession.status g') eqn:Est;
      try (apply Hpay; discriminate).
    rewrite (Hpay' eq_refl), Hpay0. revert Hst. unfold resolution.
    case_ifs; simpl; intros; congruence. }
  assert (Hf' : find_player sid (save_game g' (save_player p' db)) = Some p').
  { rewrite find_player_save_game.
    apply (find_player_save sid db p p' Hp); [|assumption].
    rewrite Hsid. now apply find_player_session in Hp. }
  exists p', g'.
  split; [exact E|]. split.
  { intros Hi Hfp. rewrite E. unfold commit_game.
    rewrite (stand_commits p game g' p'); auto.
    rewrite Hds.
    destruct (dealer_draws (dealer_stand_threshold cfg) dealer (rev deck))
      as [dealer' stack] eqn:Hd.
    apply dealer_draws_spec in Hd as (drawn & -> & Hrev & _).
    apply (f_equal (@List.length Card)) in Hrev.
    rewrite length_rev, length_app in Hrev.
    apply fits_calculate. cbn [fst]. rewrite length_app. lia. }
  repeat (split; [assumption|]).
  split.
  { rewrite Hps, Hst, Hpayout. now destruct (resolution _ _ _). }
  repeat (split; [assumption|]).
  split; [now rewrite Hbal, Hpayout|].
  repeat (split; [assumption|]).
  split; [now apply (In_save_game g' game)|].
  split.
  { apply (closed_game_saved _ (save_player p' db) game); auto. apply H1. }
  now rewrite (balance_of_found cfg sid _ p' Hf'), Hbal, Hpayout.
Qed.

Lemma save_game_keeps g h db :
  In h (games db) -> GameSession.id h <> GameSession.id g ->
  In h (games (save_game g db)).
Proof.
  intros Hin Hne. unfold save_game. cbn [games]. apply in_map_iff.
  exists h. split; [|assumption].
  destruct (Nat.eqb_spec (GameSession.id h) (GameSession.id g));
    [contradiction|reflexivity].
Qed.

(** Any request but a reset of the session leaves a held bet held. *)
Lemma run_holds_bet cfg sid pid bal gid b r db :
  reachable cfg db -> no_reset sid r ->
  bet_held sid pid bal gid b db -> bet_held sid pid bal gid b (run cfg r db).
Proof.
  intros Hr Hn Hheld. pose proof Hheld as Hsame.
  destruct Hheld as (p & h & Hp & Hpid & Hin & Hgid & Hhp & Hbet & Hbal).
  destruct (reachable_one_open cfg db Hr) as [Hok H1].
  destruct (String.eqb_spec (session_of r) sid) as [e|n].
  2:{ destruct (run_other_session cfg db r sid Hr n) as [Hfp Hq].
      destruct (Hq p Hp) as [_ Hkeep].
      exists p, h. rewrite Hfp. repeat split; auto.
      apply Hkeep; congruence. }
  pose proof (resolved_existing cfg sid db p Hp) as Hres.
  assert (Hsess : Player.session_id p = sid)
    by now apply find_player_session in Hp.
  destruct r as [rng now s bet|now s|now s|s]; cbn [session_of] in e;
    subst s; [| | |now cbn in Hn]; cbn [run].
  - destruct (start_game cfg rng now sid bet db) as [db' g|db' m|db' e] eqn:E.
    + cbn [db_of]. pose proof E as E'.
      apply start_game_player_row in E. cbv zeta in E.
      rewrite Hres in E. cbn [fst snd] in E.
      destruct E as (ps & -> & Hid & Hsid & _).
      apply start_game_done in E'. cbv zeta in E'.
      rewrite Hres in E'. cbn [fst snd] in E'.
      destruct E' as (c1 & c2 & c3 & c4 & d1 & d2 & d3 & d & p' & _ & _ & _
                      & _ & _ & _ & Hnone & _).
      exists ps, h. rewrite find_player_add_game.
      split; [apply (find_player_save sid db p ps Hp); congruence|].
      split; [congruence|].
      split; [cbn [add_game save_player games]; apply in_or_app; now left|].
      repeat (split; [assumption|]).
      intros Ho. exfalso. unfold get_active_game in Hnone.
      pose proof (find_none _ _ Hnone h Hin) as Hf. cbn beta in Hf.
      rewrite Hhp, <- Hpid, Nat.eqb_refl, Ho in Hf. discriminate.
    + assert (db' = db) as ->; [|exact Hsame].
      destruct (start_game_not_done cfg rng now sid bet db)
        as [(d & g & E')|[E'|E']]; [congruence| |];
        rewrite E in E'; simpl in E'; [|assumption].
      now rewrite Hres in E'.
    + assert (db' = db) as ->; [|exact Hsame].
      destruct (start_game_not_done cfg rng now sid bet db)
        as [(d & g & E')|[E'|E']]; [congruence| |];
        rewrite E in E'; simpl in E'; [|assumption].
      now rewrite Hres in E'.
  - destruct (hit cfg now sid db) as [db' g|db' m|db' e] eqn:E.
    + cbn [db_of]. apply hit_player_row in E. cbv zeta in E.
      rewrite Hres in E. cbn [fst snd] in E.
      destruct E as (game & ps & Hga & -> & Hid & Hsid & _ & _ & Hb & Hgid'
                     & Hgp & Hbet').
      pose proof (get_active_game_In _ _ _ Hga) as (Hgin & Hgpid & Hgo).
      assert (Hfs : find_player sid (save_game g (save_player ps db)) =
                    Some ps).
      { rewrite find_player_save_game.
        apply (find_player_save sid db p ps Hp); congruence. }
      destruct (Nat.eq_dec (GameSession.id h) (GameSession.id game))
        as [e|ne].
      * assert (h = game) by now apply (game_ids_unique db).
        subst h. exists ps, g. split; [assumption|].
        split; [congruence|].
        split; [now apply (In_save_game g game)|].
        split; [congruence|]. split; [congruence|]. split; [congruence|].
        intros _. rewrite Hb. now apply Hbal.
      * exists ps, h. split; [assumption|]. split; [congruence|].
        split; [apply save_game_keeps; [assumption|congruence]|].
        repeat (split; [assumption|]).
        intros Ho. rewrite Hb. now apply Hbal.
    + assert (db' = db) as ->; [|exact Hsame].
      destruct (hit_not_done cfg now sid db) as [(d & g & E')|[E'|E']];
        [congruence| |]; rewrite E in E'; simpl in E'; [|assumption].
      now rewrite Hres in E'.
    + assert (db' = db) as ->; [|exact Hsame].
      destruct (hit_not_done cfg now sid db) as [(d & g & E')|[E'|E']];
        [congruence| |]; rewrite E in E'; simpl in E'; [|assumption].
      now rewrite Hres in E'.
  - destruct (stand cfg now sid db) as [db' g|db' m|db' e] eqn:E.
    + cbn [db_of]. apply stand_player_row in E. cbv zeta in E.
      rewrite Hres in E. cbn [fst snd] in E.
      destruct E as (game & ps & Hga & -> & Hid & Hsid & Hterm & _ & _ & Hgid'
                     & Hgp & Hbet').
      pose proof (get_active_game_In _ _ _ Hga) as (Hgin & Hgpid & Hgo).
      assert (Hfs : find_player sid (save_game g (save_player ps db)) =
                    Some ps).
      { rewrite find_player_save_game.
        apply (find_player_save sid db p ps Hp); congruence. }
      destruct (Nat.eq_dec (GameSession.id h) (GameSession.id game))
        as [e|ne].
      * assert (h = game) by now apply (game_ids_unique db).
        subst h. exists ps, g. split; [assumption|].
        split; [congruence|].
        split; [now apply (In_save_game g game)|].
        split; [congruence|]. split; [congruence|]. split; [congruence|].
        intros Ho. congruence.
      * exists ps, h. split; [assumption|]. split; [congruence|].
        split; [apply save_game_keeps; [assumption|congruence]|].
        repeat (split; [assumption|]).
        intros Ho. exfalso. apply ne. f_equal.
        apply (open_game_unique (Player.id p) db); auto. congruence.
    + assert (db' = db) as ->; [|exact Hsame].
      destruct (stand_not_done cfg now sid db) as [(d & g & E')|[E'|E']];
        [congruence| |]; rewrite E in E'; simpl in E'; [|assumption].
      now rewrite Hres in E'.
    + assert (db' = db) as ->; [|exact Hsame].
      destruct (stand_not_done cfg now sid db) as [(d & g & E')|[E'|E']];
        [congruence| |]; rewrite E in E'; simpl in E'; [|assumption].
      now rewrite Hres in E'.
Qed.

Lemma run_all_holds_bet cfg sid pid bal gid b rs :
  forall db,
    reachable cfg db ->
    Forall fair_request rs -> Forall (no_reset sid) rs ->
    bet_held sid pid bal gid b db ->
    reachable cfg (run_all cfg rs db) /\
    bet_held sid pid bal gid b (run_all cfg rs db).
Proof.
  induction rs as [|r rs IH]; intros db Hr Hf Hl Hb; [now split|].
  inversion Hf as [|? ? Hf1 Hf2]; inversion Hl as [|? ? Hl1 Hl2]; subst.
  cbn [run_all fold_left]. apply IH; auto.
  - now apply reachable_run.
  - now apply run_holds_bet.
Qed.

(** The game [start_game] returns is a stored game of the session's
    player, and while it is in progress the balance is down by the bet. *)
Lemma start_game_holds_bet cfg rng now sid b db db1 g1 :
  start_game cfg rng now sid b db = Done db1 g1 ->
  exists p1,
    find_player sid db1 = Some p1 /\
    bet_held sid (Player.id p1) (balance_of cfg sid db - b)
             (GameSession.id g1) b db1.
Proof.
  intros E.
  destruct (start_game_stored _ _ _ _ _ _ _ _ E)
    as (p1 & Hp1 & Hbal & Hbet & Hpid & _).
  exists p1. split; [assumption|]. exists p1, g1.
  split; [assumption|]. split; [reflexivity|].
  pose proof E as E'. apply start_game_player_row in E'. cbv zeta in E'.
  destruct E' as (ps & Hdb & _).
  split; [rewrite Hdb; cbn [add_game games]; apply in_or_app; right;
          now left|].
  split; [reflexivity|]. split; [assumption|]. split; [assumption|].
  intros Ho. rewrite Hbal.
  apply start_game_done in E. cbv zeta in E.
  destruct E as (c1 & c2 & c3 & c4 & d1 & d2 & d3 & d & p' & _ & _ & _ & _
                 & _ & _ & _ & _ & Hg).
  destruct Hg as [(_ & -> & _)|[(_ & _ & -> & _)|(_ & _ & -> & _)]];
    [cbn [GameSession.payout]; lia|discriminate Ho|discriminate Ho].
Qed.

(** With a reset between the bet and the stand the balance after [stand]
    is not the balance before the bet, minus the bet, plus the payout: a
    bet of 10 from a balance of 100, a reset to 100, and a stand that the
    dealer wins (payout 0) leave 100, not 90. *)
Lemma stand_after_reset_keeps_the_bet :
  exists db1 g1 db' g',
    start_game default_settings reverse_shuffle 0 "s" 10 empty_db =
      Done db1 g1 /\
    in_progress (GameSession.status g1) = true /\
    balance_of default_settings "s" empty_db = 100 /\
    stand default_settings 2 "s" (run default_settings (Reset "s") db1) =
      Done db' g' /\
    GameSession.id g' = GameSession.id g1 /\
    GameSession.bet_amount g' = 10 /\
    GameSession.status g' = DEALER_WIN /\
    GameSession.payout g' = 0 /\
    balance_of default_settings "s" db' = 100 /\
    balance_of default_settings "s" db' <>
      balance_of default_settings "s" empty_db - 10 + GameSession.payout g'.
Proof.
  eexists _, _, _, _. split; [vm_compute; reflexivity|].
  split; [reflexivity|]. split; [reflexivity|].
  split; [vm_compute; reflexivity|].
  repeat split; vm_compute; discriminate.
Qed.

(** C5 (amended).  In every reachable state, [stand] of a player with a
    game in progress resolves that game by the resolution table on the
    final dealer score, the player's score and the bet (dealer bust first:
    twice the bet; then dealer above player: 0; player above dealer: twice
    the bet; equal scores: the bet), adds the payout to the stored
    balance, moves the totals by one game and one win, loss or push, and
    writes both rows back: the stored game has a terminal status and the
    player has no game in progress any more.  The one exception is a value
    (balance, payout, total) outside its 64-bit column: then the commit
    raises [OverflowError] and nothing changes.  For a game started with
    bet [b] and still in progress after any requests among which the
    session has not reset its balance, the balance before [stand] is the
    balance before the bet minus [b], and the balance after [stand] is the
    balance before the bet, minus [b], plus the payout.  A reset of the
    balance between the bet and the stand breaks this. *)
Theorem stand_settles_the_bet (cfg : Settings) (now : Z) (sid : string) :
  (forall db p game,
     reachable cfg db ->
     find_player sid db = Some p ->
     get_active_game (Player.id p) db = Some game ->
     exists p' g',
       stand cfg now sid db =
         (if Player.updatable p p' && GameSession.updatable game g'
          then Done (save_game g' (save_player p' db)) g'
          else Raised db OverflowError) /\
       (Player.insertable p' = true -> fits (GameSession.payout g') = true ->
        stand cfg now sid db = Done (save_game g' (save_player p' db)) g') /\
       GameSession.id g' = GameSession.id game /\
       GameSession.player_id g' = GameSession.player_id game /\
       GameSession.bet_amount g' = GameSession.bet_amount game /\
       GameSession.player_score g' = GameSession.player_score game /\
       GameSession.player_hand g' = GameSession.player_hand game /\
       GameSession.completed_at g' = Some now /\
       in_progress (GameSession.status g') = false /\
       (GameSession.status g', GameSession.payout g') =
         resolution (GameSession.dealer_score g')
                    (GameSession.player_score g')
                    (GameSession.bet_amount game) /\
       Player.id p' = Player.id p /\
       Player.session_id p' = Player.session_id p /\
       Player.balance p' = Player.balance p + GameSession.payout g' /\
       counters p' = add4 (counters p) (tally (GameSession.status g')) /\
       find_player sid (save_game g' (save_player p' db)) = Some p' /\
       In g' (games (save_game g' (save_player p' db))) /\
       get_active_game (Player.id p) (save_game g' (save_player p' db)) =
         None /\
       balance_of cfg sid (save_game g' (save_player p' db)) =
         Player.balance p + GameSession.payout g') /\
  (forall rng now0 b db0 db1 g1 rs,
     reachable cfg db0 -> fair rng ->
     start_game cfg rng now0 sid b db0 = Done db1 g1 ->
     Forall fair_request rs -> Forall (no_reset sid) rs ->
     exists p,
       find_player sid (run_all cfg rs db1) = Some p /\
       forall game,
         get_active_game (Player.id p) (run_all cfg rs db1) = Some game ->
         GameSession.id game = GameSession.id g1 ->
         GameSession.bet_amount game = b /\
         Player.balance p = balance_of cfg sid db0 - b /\
         exists p' g',
           stand cfg now sid (run_all cfg rs db1) =
             (if Player.updatable p p' && GameSession.updatable game g'
              then Done (save_game g' (save_player p' (run_all cfg rs db1)))
                        g'
              else Raised (run_all cfg rs db1) OverflowError) /\
           (Player.insertable p' = true ->
            fits (GameSession.payout g') = true ->
            stand cfg now sid (run_all cfg rs db1) =
              Done (save_game g' (save_player p' (run_all cfg rs db1))) g') /\
           GameSession.id g' = GameSession.id g1 /\
           in_progress (GameSession.status g') = false /\
           (GameSession.status g', GameSession.payout g') =
             resolution (GameSession.dealer_score g')
                        (GameSession.player_score g') b /\
           Player.balance p' =
             balance_of cfg sid db0 - b + GameSession.payout g' /\
           balance_of cfg sid
             (save_game g' (save_player p' (run_all cfg rs db1))) =
             balance_of cfg sid db0 - b + GameSession.payout g').
Proof.
  split.
  - intros db p game. apply stand_settles.
  - intros rng now0 b db0 db1 g1 rs Hr Hf Hstart Hfs Hls.
    destruct (start_game_holds_bet _ _ _ _ _ _ _ _ Hstart)
      as (p1 & Hp1 & Hheld).
    assert (Hr1 : reachable cfg db1).
    { replace db1 with (run cfg (StartGame rng now0 sid b) db0)
        by (cbn [run]; now rewrite Hstart).
      now apply reachable_run. }
    destruct (run_all_holds_bet cfg sid _ _ _ _ rs db1 Hr1 Hfs Hls Hheld)
      as (Hrk & p & h & Hp & Hpid & Hin & Hgid & Hhp & Hbet & Hbal).
    exists p. split; [assumption|].
    intros game Hg Hid.
    pose proof (get_active_game_In _ _ _ Hg) as (Hgin & Hgp & Hgo).
    destruct (reachable_one_open cfg _ Hrk) as [Hok _].
    assert (h = game)
      by (apply (game_ids_unique (run_all cfg rs db1)); congruence).
    subst h. specialize (Hbal Hgo).
    split; [assumption|]. split; [assumption|].
    destruct (stand_settles cfg now sid _ p game Hrk Hp Hg)
      as (p' & g' & E & Hdone & Hid' & _ & _ & _ & _ & _ & Hterm & Hres & _
          & _ & Hbal' & _ & _ & _ & _ & Hbo).
    exists p', g'. rewrite Hbet in Hres. rewrite Hbal in Hbal', Hbo.
    repeat (split; [first [assumption|congruence]|]). assumption.
Qed.

Lemma stand_settles_the_bet_witness :
  exists db' g',
    stand default_settings 2 "s" demo_rev_hit = Done db' g' /\
    in_progress (GameSession.status g') = false /\
    balance_of default_settings "s" db' = 100 - 10 + GameSession.payout g'.
Proof.
  assert (H1 : start_game default_settings reverse_shuffle 0 "s" 10 empty_db =
               Done demo_rev_started demo_rev_game)
    by (vm_compute; reflexivity).
  assert (H3 : Forall fair_request [Hit 1 "s"])
    by (constructor; [exact I|constructor]).
  assert (H4 : Forall (no_reset "s") [Hit 1 "s"])
    by (constructor; [exact I|constructor]).
  destruct (proj2 (stand_settles_the_bet default_settings 2 "s")
              reverse_shuffle 0 10 empty_db demo_rev_started demo_rev_game
              [Hit 1 "s"] (reachable_empty default_settings)
              fair_reverse_shuffle H1 H3 H4)
    as (p & Hp & H).
  vm_compute in Hp. injection Hp as <-.
  destruct (get_active_game 1
              (run_all default_settings [Hit 1 "s"] demo_rev_started))
    as [game|] eqn:Hg; [|vm_compute in Hg; discriminate Hg].
  assert (Hid : GameSession.id game = GameSession.id demo_rev_game)
    by (vm_compute in Hg; injection Hg as <-; reflexivity).
  destruct (H game Hg Hid)
    as (_ & _ & p' & g' & E & _ & _ & Hterm & _ & _ & Hbal).
  change (run_all default_settings [Hit 1 "s"] demo_rev_started)
    with demo_rev_hit in E, Hbal.
  destruct (Player.updatable _ p' && GameSession.updatable game g');
    [|vm_compute in E; discriminate E].
  eexists _, g'. split; [exact E|]. split; [exact Hterm|]. exact Hbal.
Defined.

(* ===================================================================== *)
(** ** Calls without an open game *)
(* ===================================================================== *)

Lemma no_game_of_new_player cfg sid db :
  players_ok db -> find_player sid db = None ->
  get_active_game (Player.id (fst (resolved cfg sid db)))
                  (snd (resolved cfg sid db)) = None.
Proof.
  intros (Hid & _ & Hg) Hn. unfold resolved. rewrite Hn. simpl.
  destruct (get_active_game _ _) as [g|] eqn:E; [|reflexivity]. exfalso.
  apply get_active_game_In in E as (Hin & Hp & _). simpl in Hin.
  apply Hg in Hin. rewrite Hid, Hp in Hin. unfold next_player_id in Hin.
  apply in_seq in Hin. lia.
Qed.

(** X12.  [hit] and [stand] of a player without a game in progress are
    rejected with "No active game" and change nothing.  For a session that
    has no player yet they are rejected in the same way, after the player
    row of that session has been created (next key, initial balance, zero
    totals); no game row is touched either way.  When the initial balance
    does not fit the 64-bit column, that row cannot be stored: the call
    raises [OverflowError] and the database is unchanged. *)
Theorem no_active_game_is_rejected
    (cfg : Settings) (now : Z) (sid : string) (db : DB) :
  (forall p,
     find_player sid db = Some p ->
     get_active_game (Player.id p) db = None ->
     hit cfg now sid db = Rejected db "No active game" /\
     stand cfg now sid db = Rejected db "No active game") /\
  (reachable cfg db ->
   find_player sid db = None ->
   let db1 :=
     add_player (Player.mk (S (List.length (players db))) sid
                           (initial_balance cfg) 0 0 0 0) db in
   hit cfg now sid db =
     (if fits (initial_balance cfg) then Rejected db1 "No active game"
      else Raised db OverflowError) /\
   stand cfg now sid db =
     (if fits (initial_balance cfg) then Rejected db1 "No active game"
      else Raised db OverflowError)).
Proof.
  split.
  - intros p Hp Hg. unfold hit, stand.
    rewrite (get_or_create_player_existing cfg sid db p Hp). cbv zeta.
    rewrite Hg. split; reflexivity.
  - intros Hr Hn db1.
    pose proof (no_game_of_new_player cfg sid db
                  (reachable_players_ok cfg db Hr) Hn) as Hg.
    unfold hit, stand. rewrite get_or_create_player_eq. unfold enters.
    rewrite Hn. destruct (fits (initial_balance cfg)); [|split; reflexivity].
    revert Hg. unfold resolved. rewrite Hn.
    simpl. intros ->. split; reflexivity.
Qed.

Lemma no_active_game_is_rejected_witness :
  hit default_settings 9 "s" demo_stood = Rejected demo_stood "No active game" /\
  hit default_settings 9 "t" demo_stood =
    Rejected (add_player (Player.mk 2 "t" 100 0 0 0 0) demo_stood)
             "No active game".
Proof.
  assert (R : reachable default_settings demo_stood).
  { apply reachable_run; [exact I|]. exact reachable_demo_started. }
  split.
  - refine (proj1 (proj1 (no_active_game_is_rejected default_settings 9 "s"
                            demo_stood) (Player.mk 1 "s" 100 1 0 0 1) _ _));
      reflexivity.
  - refine (proj1 (proj2 (no_active_game_is_rejected default_settings 9 "t"
                            demo_stood) R _)).
    reflexivity.
Defined.

(* ===================================================================== *)
(** ** What every game row satisfies *)
(* ===================================================================== *)

(** A property of game rows that [start_game] establishes and [hit] and
    [stand] keep holds of every game row of every reachable state. *)
Lemma reachable_games_invariant (cfg : Settings) (P : GameSession.t -> Prop) :
  (forall rng now sid bet db db' g,
     fair rng -> start_game cfg rng now sid bet db = Done db' g -> P g) ->
  (forall now sid db db' g' game,
     get_active_game (Player.id (fst (resolved cfg sid db)))
                     (snd (resolved cfg sid db)) = Some game ->
     game_sound game -> P game ->
     hit cfg now sid db = Done db' g' -> P g') ->
  (forall now sid db db' g' game,
     get_active_game (Player.id (fst (resolved cfg sid db)))
                     (snd (resolved cfg sid db)) = Some game ->
     game_sound game -> P game ->
     stand cfg now sid db = Done db' g' -> P g') ->
  forall db, reachable cfg db -> forall g, In g (games db) -> P g.
Proof.
  intros Hstart Hhit Hstand db Hr.
  induction Hr as [|db r Hf Hr IH]; [intros g []|].
  pose proof (reachable_sound cfg db Hr) as Hs.
  assert (Hres : forall sid g,
             In g (games (snd (resolved cfg sid db))) ->
             P g /\ game_sound g).
  { intros sid g. rewrite resolved_games. auto. }
  destruct r as [rng now sid bet|now sid|now sid|sid];
    [simpl..|rewrite run_reset].
  - destruct (start_game_not_done cfg rng now sid bet db)
      as [(db' & g & E)|[E|E]]; [| |rewrite E; exact IH].
    + rewrite E. simpl. pose proof (Hstart _ _ _ _ _ _ _ Hf E).
      apply start_game_player_row in E. cbv zeta in E.
      destruct E as (ps & -> & _). simpl. intros h Hh.
      apply in_app_or in Hh as [Hh|[<-|[]]]; [|assumption].
      now apply (Hres sid).
    + rewrite E. intros g Hg. now apply (Hres sid).
  - destruct (hit_not_done cfg now sid db)
      as [(db' & g & E)|[E|E]]; [| |rewrite E; exact IH].
    + rewrite E. simpl. pose proof E as E'.
      apply hit_player_row in E. cbv zeta in E.
      destruct E as (game & ps & Hg & -> & _). intros h Hh.
      apply save_game_In in Hh as [->|Hh]; [|now apply (Hres sid)].
      pose proof (get_active_game_In _ _ _ Hg) as (Hin & _).
      destruct (Hres sid game Hin) as [HP HS].
      exact (Hhit now sid db _ g game Hg HS HP E').
    + rewrite E. intros g Hg. now apply (Hres sid).
  - destruct (stand_not_done cfg now sid db)
      as [(db' & g & E)|[E|E]]; [| |rewrite E; exact IH].
    + rewrite E. simpl. pose proof E as E'.
      apply stand_player_row in E. cbv zeta in E.
      destruct E as (game & ps & Hg & -> & _). intros h Hh.
      apply save_game_In in Hh as [->|Hh]; [|now apply (Hres sid)].
      pose proof (get_active_game_In _ _ _ Hg) as (Hin & _).
      destruct (Hres sid game Hin) as [HP HS].
      exact (Hstand now sid db _ g game Hg HS HP E').
    + rewrite E. intros g Hg. now apply (Hres sid).
  - destruct (enters cfg sid db && _); [|exact IH].
    simpl. intros g Hg. now apply (Hres sid).
Qed.

Lemma four_draws_cards rng c1 c2 c3 c4 d1 d2 d3 d4 :
  fair rng ->
  draw rng (new_Deck rng) = Some (c1, d1) ->
  draw rng d1 = Some (c2, d2) ->
  draw rng d2 = Some (c3, d3) ->
  draw rng d3 = Some (c4, d4) ->
  rng O ordered_deck = _cards d4 ++ [c4; c3; c2; c1].
Proof.
  intros Hf D1 D2 D3 D4. pose proof (new_Deck_length rng Hf) as H0.
  assert (N : forall d n, List.length (_cards d) = S n -> _cards d <> [])
    by (intros d n H E; rewrite E in H; discriminate).
  change (rng O ordered_deck) with (_cards (new_Deck rng)).
  apply draw_length in D1; [|now apply (N _ 51%nat)].
  rewrite D1, length_app in H0. simpl in H0.
  apply draw_length in D2; [|apply (N _ 50%nat); lia].
  rewrite D2, length_app in H0. simpl in H0.
  apply draw_length in D3; [|apply (N _ 49%nat); lia].
  rewrite D3, length_app in H0. simpl in H0.
  apply draw_length in D4; [|apply (N _ 48%nat); lia].
  rewrite D1, D2, D3, D4, <- !app_assoc. reflexivity.
Qed.

Lemma in_progress_status (st : GameStatus) :
  in_progress st = true <-> st = IN_PROGRESS.
Proof.
  split; [|now intros ->]. destruct st; first [reflexivity|discriminate].
Qed.

Lemma is_blackjack_21 (hand : list Card) :
  is_blackjack hand = true -> calculate hand = 21.
Proof.
  unfold is_blackjack. destruct (negb _); [discriminate|]. apply Z.eqb_eq.
Qed.

(** X13.  In every reachable state the cards of every game row, in
    progress or over, are those of one deck: player hand, dealer hand and
    remaining deck decode without error and together hold each of the 52
    cards exactly once. *)
Theorem cards_are_conserved (cfg : Settings) (db : DB) (g : GameSession.t) :
  reachable cfg db -> In g (games db) ->
  exists hand dealer deck,
    cards_from_dicts (GameSession.player_hand g) = Some hand /\
    cards_from_dicts (GameSession.dealer_hand g) = Some dealer /\
    cards_from_dicts (GameSession.deck_state g) = Some deck /\
    Permutation (hand ++ dealer ++ deck) ordered_deck /\
    NoDup (hand ++ dealer ++ deck) /\
    (List.length hand + List.length dealer + List.length deck = 52)%nat.
Proof.
  intros Hr Hin.
  assert (H : cards_conserved g).
  { revert db Hr g Hin. apply reachable_games_invariant.
    - intros rng now sid bet db db' g Hf E.
      apply start_game_done in E. cbv zeta in E.
      destruct E as (c1 & c2 & c3 & c4 & d1 & d2 & d3 & d & p' & D1 & D2 & D3
                     & D4 & _ & _ & _ & _ & Hg).
      pose proof (four_draws_cards rng _ _ _ _ _ _ _ _ Hf D1 D2 D3 D4) as Hc.
      exists [c1; c2], [c3; c4], (_cards d).
      assert (Hp : Permutation ([c1; c2] ++ [c3; c4] ++ _cards d)
                               ordered_deck).
      { change ([c1; c2] ++ [c3; c4] ++ _cards d)
          with ([c1; c2; c3; c4] ++ _cards d).
        apply Permutation_sym, (Permutation_trans (Hf O ordered_deck)).
        rewrite Hc. apply (Permutation_trans (Permutation_app_comm _ _)).
        apply Permutation_app_tail.
        apply Permutation_sym, (Permutation_rev [c1; c2; c3; c4]). }
      destruct Hg as [(_ & -> & _)|[(_ & _ & -> & _)|(_ & _ & -> & _)]];
        repeat split; assumption.
    - intros now sid db db' g' game Hg _ (hand & dealer & deck & Eh & Ed & Ek
                                          & Hp) E.
      apply hit_done in E. cbv zeta in E.
      destruct E as (game' & hand' & rest & c & p' & Hg' & Edk & Ehd & _ & H).
      rewrite Hg in Hg'. injection Hg' as <-.
      rewrite Ek, cards_from_dicts_map in Edk. injection Edk as ->.
      rewrite Eh, cards_from_dicts_map in Ehd. injection Ehd as <-.
      exists (hand ++ [c]), dealer, rest.
      assert (Hp' : Permutation ((hand ++ [c]) ++ dealer ++ rest)
                                ordered_deck).
      { apply (fun H => Permutation_trans H Hp).
        rewrite <- app_assoc. apply Permutation_app_head.
        rewrite (app_assoc dealer rest [c]).
        apply (Permutation_app_comm [c] (dealer ++ rest)). }
      destruct H as [(_ & -> & _)|(_ & -> & _)]; repeat split; assumption.
    - intros now sid db db' g' game Hg _ (hand & dealer & deck & Eh & Ed & Ek
                                          & Hp) E.
      apply stand_done in E. cbv zeta in E.
      destruct E as (game' & hand' & dealer0 & deck0 & dealer' & stack & p'
                     & Hg' & _ & Edl & Edk & Hd & _ & H).
      rewrite Hg in Hg'. injection Hg' as <-.
      rewrite Ed, cards_from_dicts_map in Edl. injection Edl as <-.
      rewrite Ek, cards_from_dicts_map in Edk. injection Edk as <-.
      apply dealer_draws_spec in Hd as (drawn & -> & Hrev & _).
      exists hand, (dealer ++ drawn), (rev stack).
      assert (Hp' : Permutation (hand ++ (dealer ++ drawn) ++ rev stack)
                                ordered_deck).
      { apply (fun H => Permutation_trans H Hp).
        apply Permutation_app_head. rewrite <- app_assoc.
        apply Permutation_app_head.
        rewrite <- (rev_involutive deck), Hrev, rev_app_distr.
        apply (Permutation_trans (Permutation_app_comm _ _)).
        apply Permutation_app_head, Permutation_rev. }
      destruct H as [(_ & -> & _)|[(_ & _ & -> & _)|[(_ & _ & -> & _)
                                                   |(_ & _ & -> & _)]]];
        repeat split; first [assumption | reflexivity]. }
  destruct H as (hand & dealer & deck & Eh & Ed & Ek & Hp).
  exists hand, dealer, deck. rewrite Eh, Ed, Ek, !cards_from_dicts_map.
  repeat split; try assumption.
  - apply (Permutation_NoDup (Permutation_sym Hp)), ordered_deck_NoDup.
  - apply Permutation_length in Hp. rewrite !length_app in Hp.
    change (List.length ordered_deck) with 52%nat in Hp. lia.
Qed.

Lemma reachable_demo_rev_started :
  reachable default_settings demo_rev_started.
Proof.
  apply reachable_run; [exact fair_reverse_shuffle|]. apply reachable_empty.
Qed.

Lemma In_demo_rev_game : In demo_rev_game (games demo_rev_started).
Proof. vm_compute. left. reflexivity. Qed.

Lemma cards_are_conserved_witness :
  exists hand dealer deck,
    cards_from_dicts (GameSession.player_hand demo_rev_game) = Some hand /\
    cards_from_dicts (GameSession.dealer_hand demo_rev_game) = Some dealer /\
    cards_from_dicts (GameSession.deck_state demo_rev_game) = Some deck /\
    Permutation (hand ++ dealer ++ deck) ordered_deck.
Proof.
  destruct (cards_are_conserved default_settings demo_rev_started
              demo_rev_game reachable_demo_rev_started In_demo_rev_game)
    as (hand & dealer & deck & H1 & H2 & H3 & H4 & _).
  now exists hand, dealer, deck.
Defined.

(** The columns of a stored game row agree with its status. *)
Lemma reachable_row_consistent cfg db g :
  reachable cfg db -> In g (games db) -> row_consistent cfg g.
Proof.
  intros Hr Hin. revert db Hr g Hin. apply reachable_games_invariant.
  - intros rng now sid bet db db' g Hf E.
    destruct (start_game_done_stored _ _ _ _ _ _ _ _ E) as (_ & _ & _ & Hcr).
    apply start_game_done in E. cbv zeta in E.
    destruct E as (c1 & c2 & c3 & c4 & d1 & d2 & d3 & d & p' & _ & _ & _
                   & _ & _ & _ & _ & _ & Hg).
    pose proof (calculate_two_cards c1 c2) as H21.
    destruct Hg as [(_ & -> & _)|[(B1 & B2 & -> & _)|(B1 & _ & -> & _)]];
      unfold row_consistent; simpl.
    + repeat split; auto.
    + apply is_blackjack_21 in B1, B2.
      repeat split; try discriminate; congruence.
    + apply is_blackjack_21 in B1. repeat split; try discriminate; auto.
  - intros now sid db db' g' game Hg _ Hc E.
    apply hit_done in E. cbv zeta in E.
    destruct E as (game' & hand & rest & c & p' & Hg' & _ & _ & _ & H).
    rewrite Hg in Hg'. injection Hg' as <-.
    apply get_active_game_In in Hg as (_ & _ & Ho).
    apply in_progress_status in Ho. unfold row_consistent in *.
    rewrite Ho in Hc. destruct Hc as (Hc1 & Hc2 & _ & Hpay).
    unfold is_bust in H.
    destruct H as [(B & -> & _)|(B & -> & _)]; simpl; rewrite ?Ho.
    + apply Z.ltb_ge in B. repeat split; auto; tauto.
    + apply Z.ltb_lt in B. repeat split; try discriminate; auto.
  - intros now sid db db' g' game Hg _ Hc E.
    apply stand_done in E. cbv zeta in E.
    destruct E as (game' & hand & dealer & deck & dealer' & stack & p'
                   & Hg' & _ & _ & _ & _ & _ & H).
    rewrite Hg in Hg'. injection Hg' as <-.
    apply get_active_game_In in Hg as (_ & _ & Ho).
    apply in_progress_status in Ho. unfold row_consistent in *.
    rewrite Ho in Hc. destruct Hc as (Hc1 & Hc2 & H21 & Hpay).
    unfold is_bust in H.
    destruct H as [(B & -> & _)|[(B & L & -> & _)|[(B & L & -> & _)
                                                  |(B & L & -> & _)]]];
      simpl; try apply Z.ltb_lt in B; try apply Z.ltb_ge in B;
      repeat split; try discriminate; auto; lia.
Qed.

(** X14.  In every reachable state the columns of a game row agree with
    its status: the completion time is missing and the message empty
    exactly while the game is in progress; a game in progress has a player
    score of at most 21 and no payout; [PLAYER_BUST] goes with a player
    score above 21 and no payout, [DEALER_BUST] with a dealer score above
    21 and twice the bet, [DEALER_WIN] and [PLAYER_WIN] with the winner's
    score above the loser's and at most 21 (payout 0, twice the bet),
    [PUSH] with equal scores and the bet, [BLACKJACK] with a player score
    of 21 and the truncated blackjack payout.  The stored scores are those
    of the stored hands. *)
Theorem game_rows_are_consistent
    (cfg : Settings) (db : DB) (g : GameSession.t) :
  reachable cfg db -> In g (games db) ->
  row_consistent cfg g /\
  exists hand dealer,
    cards_from_dicts (GameSession.player_hand g) = Some hand /\
    cards_from_dicts (GameSession.dealer_hand g) = Some dealer /\
    GameSession.player_score g = calculate hand /\
    GameSession.dealer_score g = calculate dealer.
Proof.
  intros Hr Hin. split; [now apply (reachable_row_consistent cfg db)|].
  destruct (reachable_sound cfg db Hr g Hin)
    as (hand & dealer & deck & Eh & Ed & _ & Sh & Sd & _).
  exists hand, dealer. rewrite Eh, Ed, !cards_from_dicts_map. auto.
Qed.

Lemma game_rows_are_consistent_witness :
  row_consistent default_settings demo_rev_game.
Proof.
  exact (proj1 (game_rows_are_consistent default_settings demo_rev_started
                  demo_rev_game reachable_demo_rev_started In_demo_rev_game)).
Defined.

(* ===================================================================== *)
(** ** Money *)
(* ===================================================================== *)

Lemma resolution_nonneg (ds ps bet : Z) :
  0 <= bet -> 0 <= snd (resolution ds ps bet).
Proof.
  intros Hb. unfold resolution. case_ifs; simpl; lia.
Qed.

Lemma balance_of_resolved cfg sid db :
  balance_of cfg sid (snd (resolved cfg sid db)) =
  balance_of cfg sid db.
Proof.
  unfold balance_of.
  rewrite (resolved_existing cfg sid _ _
             (resolved_find cfg sid db)).
  reflexivity.
Qed.

Lemma balance_of_saved cfg sid db ps (g : list GameSession.t) :
  Player.id ps = Player.id (fst (resolved cfg sid db)) ->
  Player.session_id ps =
    Player.session_id (fst (resolved cfg sid db)) ->
  balance_of cfg sid
    {| players := players (save_player ps
                             (snd (resolved cfg sid db)));
       games := g |} = Player.balance ps.
Proof.
  intros Hid Hsid. apply balance_of_found.
  pose proof (resolved_find cfg sid db) as Hf.
  apply (find_player_save sid _ _ ps Hf); [|assumption].
  rewrite Hsid. now apply find_player_session in Hf.
Qed.

(** X15.  The balance of a session changes only as follows.  [hit] never
    changes it, whatever it returns.  [start_game] changes it only when it
    returns a game: by the payout minus the bet, that is by minus the bet
    for a game in progress and by nothing for a tie of two naturals.
    [stand] changes it only when it returns a game: by the payout of the
    resolution table.  [reset_player] sets it to the initial balance, and
    raises only when the initial balance does not fit the 64-bit column. *)
Theorem balance_ledger (cfg : Settings) (sid : string) (db : DB) :
  (forall now,
     balance_of cfg sid (db_of (hit cfg now sid db)) = balance_of cfg sid db) /\
  (forall rng now bet,
     match start_game cfg rng now sid bet db with
     | Done db' g =>
         balance_of cfg sid db' =
           balance_of cfg sid db - bet + GameSession.payout g /\
         (GameSession.status g = IN_PROGRESS -> GameSession.payout g = 0) /\
         (GameSession.status g = PUSH -> GameSession.payout g = bet)
     | Rejected db' _ => balance_of cfg sid db' = balance_of cfg sid db
     | Raised db' _ => balance_of cfg sid db' = balance_of cfg sid db
     end) /\
  (forall now,
     match stand cfg now sid db with
     | Done db' g =>
         balance_of cfg sid db' =
           balance_of cfg sid db +
           snd (resolution (GameSession.dealer_score g)
                  (GameSession.player_score g) (GameSession.bet_amount g))
     | Rejected db' _ => balance_of cfg sid db' = balance_of cfg sid db
     | Raised db' _ => balance_of cfg sid db' = balance_of cfg sid db
     end) /\
  match reset_player cfg sid db with
  | Some (p, db') =>
      Player.balance p = initial_balance cfg /\
      balance_of cfg sid db' = initial_balance cfg
  | None => fits (initial_balance cfg) = false
  end.
Proof.
  split; [|split; [|split]].
  - intros now.
    destruct (hit_not_done cfg now sid db) as [(db' & g & E)|[E|E]].
    + rewrite E. simpl. apply hit_player_row in E. cbv zeta in E.
      destruct E as (game & ps & _ & -> & Hid & Hsid & _ & _ & Hbal & _).
      unfold save_game.
      now rewrite (balance_of_saved cfg sid db ps _ Hid Hsid), Hbal.
    + rewrite E. apply balance_of_resolved.
    + now rewrite E.
  - intros rng now bet.
    destruct (start_game cfg rng now sid bet db) as [db' g|db' m|db' e] eqn:E.
    + pose proof E as E'. apply start_game_player_row in E. cbv zeta in E.
      destruct E as (ps & -> & Hid & Hsid & _ & Hbal).
      unfold add_game. split.
      * now rewrite (balance_of_saved cfg sid db ps _ Hid Hsid), Hbal.
      * apply start_game_done in E'. cbv zeta in E'.
        destruct E' as (c1 & c2 & c3 & c4 & d1 & d2 & d3 & d & p' & _ & _ & _
                        & _ & _ & _ & _ & _ & Hg).
        destruct Hg as [(_ & -> & _)|[(_ & _ & -> & _)|(_ & _ & -> & _)]];
          simpl; split; intros; first [reflexivity|discriminate].
    + destruct (start_game_not_done cfg rng now sid bet db)
        as [(db'' & g & E')|[E'|E']]; [congruence| |];
        rewrite E in E'; simpl in E'; subst db';
        [apply balance_of_resolved|reflexivity].
    + destruct (start_game_not_done cfg rng now sid bet db)
        as [(db'' & g & E')|[E'|E']]; [congruence| |];
        rewrite E in E'; simpl in E'; subst db';
        [apply balance_of_resolved|reflexivity].
  - intros now.
    destruct (stand cfg now sid db) as [db' g|db' m|db' e] eqn:E.
    + apply stand_player_row in E. cbv zeta in E.
      destruct E as (game & ps & _ & -> & Hid & Hsid & _ & _ & Hbal & _).
      unfold save_game.
      now rewrite (balance_of_saved cfg sid db ps _ Hid Hsid), Hbal.
    + destruct (stand_not_done cfg now sid db)
        as [(db'' & g & E')|[E'|E']]; [congruence| |];
        rewrite E in E'; simpl in E'; subst db';
        [apply balance_of_resolved|reflexivity].
    + destruct (stand_not_done cfg now sid db)
        as [(db'' & g & E')|[E'|E']]; [congruence| |];
        rewrite E in E'; simpl in E'; subst db';
        [apply balance_of_resolved|reflexivity].
  - rewrite reset_player_eq.
    destruct (enters cfg sid db) eqn:En; cbn [andb].
    + destruct (storable _ _) eqn:Es.
      * split; [reflexivity|].
        pose proof (resolved_find cfg sid db) as Hf.
        rewrite (balance_of_found cfg sid _
                   (Player.set_balance (fst (resolved cfg sid db))
                      (initial_balance cfg))); [reflexivity|].
        apply (find_player_save sid _ _ _ Hf); [|reflexivity].
        now apply find_player_session in Hf.
      * unfold storable in Es. now apply orb_false_elim in Es.
    + unfold enters in En. now destruct (find_player sid db).
Qed.

(** Bets of stored games are within the limits. *)
Lemma reachable_bets cfg db g :
  reachable cfg db -> In g (games db) ->
  min_bet cfg <= GameSession.bet_amount g <= max_bet cfg.
Proof.
  intros Hr Hin. revert db Hr g Hin. apply reachable_games_invariant.
  - intros rng now sid bet db db' g _ E.
    apply start_game_done in E. cbv zeta in E.
    destruct E as (c1 & c2 & c3 & c4 & d1 & d2 & d3 & d & p' & _ & _ & _ & _
                   & Hb & _ & _ & _ & Hg).
    destruct Hg as [(_ & -> & _)|[(_ & _ & -> & _)|(_ & _ & -> & _)]];
      exact Hb.
  - intros now sid db db' g' game Hg0 _ Hb E.
    apply hit_player_row in E. cbv zeta in E.
    destruct E as (game' & ps & Hg & _ & _ & _ & _ & _ & _ & _ & _ & Hbet).
    rewrite Hg0 in Hg. injection Hg as <-. now rewrite Hbet.
  - intros now sid db db' g' game Hg0 _ Hb E.
    apply stand_player_row in E. cbv zeta in E.
    destruct E as (game' & ps & Hg & _ & _ & _ & _ & _ & _ & _ & _ & Hbet).
    rewrite Hg0 in Hg. injection Hg as <-. now rewrite Hbet.
Qed.

(** X16.  With settings whose initial balance and minimum bet are not
    negative and for which [1 + blackjack_payout], computed in binary64, is
    not negative (the defaults are 100, 1 and 1.5), in every reachable
    state no balance is negative, every stored bet is between the minimum
    and the maximum bet, and no payout is negative. *)
Theorem balances_never_negative (cfg : Settings) (db : DB) :
  0 <= initial_balance cfg ->
  0 <= min_bet cfg ->
  factor_nonneg cfg = true ->
  reachable cfg db ->
  (forall p, In p (players db) -> 0 <= Player.balance p) /\
  (forall g, In g (games db) ->
     min_bet cfg <= GameSession.bet_amount g <= max_bet cfg /\
     0 <= GameSession.payout g).
Proof.
  intros Hi Hm Hq Hr. split.
  - induction Hr as [|db r _ Hr IH]; [intros p []|].
    pose proof (reachable_bets cfg db) as Hbets. specialize (Hbets).
    assert (Hres : forall sid q,
               In q (players (snd (resolved cfg sid db))) ->
               0 <= Player.balance q).
    { intros sid q Hq'. apply resolved_In in Hq' as [->|Hq'];
        [|now apply IH].
      unfold resolved.
      destruct (find_player sid db) as [p|] eqn:E; simpl; [|assumption].
      apply IH. now apply find_player_In in E. }
    assert (Hpl : forall sid,
               0 <= Player.balance (fst (resolved cfg sid db))).
    { intros sid. apply (Hres sid).
      apply (find_player_In sid), resolved_find. }
    assert (Hsave : forall sid ps q,
               0 <= Player.balance ps ->
               In q (players (save_player ps
                                (snd (resolved cfg sid db)))) ->
               0 <= Player.balance q).
    { intros sid ps q Hps Hq'. apply save_player_In in Hq' as [->|Hq'];
        [assumption|now apply (Hres sid)]. }
    destruct r as [rng now sid bet|now sid|now sid|sid];
      [simpl..|rewrite run_reset].
    + destruct (start_game_not_done cfg rng now sid bet db)
        as [(db' & g & E)|[E|E]];
        [|rewrite E; apply Hres|rewrite E; exact IH].
      rewrite E. simpl. pose proof E as E'.
      apply start_game_player_row in E. cbv zeta in E.
      destruct E as (ps & -> & _ & _ & _ & Hbal).
      apply start_game_done in E'. cbv zeta in E'.
      destruct E' as (c1 & c2 & c3 & c4 & d1 & d2 & d3 & d & p' & _ & _ & _
                      & _ & Hb & Hle & _ & _ & Hg).
      intros q Hq'. cbn [add_game players] in Hq'.
      apply (Hsave sid ps q); [|exact Hq']. rewrite Hbal.
      assert (0 <= GameSession.payout g).
      { destruct Hg as [(_ & -> & _)|[(_ & _ & -> & _)|(_ & _ & -> & _)]];
          simpl; [lia|lia|apply credited_nonneg; [assumption|lia]]. }
      lia.
    + destruct (hit_not_done cfg now sid db) as [(db' & g & E)|[E|E]];
        [|rewrite E; apply Hres|rewrite E; exact IH].
      rewrite E. simpl. apply hit_player_row in E. cbv zeta in E.
      destruct E as (game & ps & _ & -> & _ & _ & _ & _ & Hbal & _).
      intros q Hq'. cbn [save_game players] in Hq'.
      apply (Hsave sid ps q); [|exact Hq']. rewrite Hbal. apply Hpl.
    + destruct (stand_not_done cfg now sid db) as [(db' & g & E)|[E|E]];
        [|rewrite E; apply Hres|rewrite E; exact IH].
      rewrite E. simpl. apply stand_player_row in E. cbv zeta in E.
      destruct E as (game & ps & Hg & -> & _ & _ & _ & _ & Hbal & _ & _
                     & Hbet).
      intros q Hq'. cbn [save_game players] in Hq'.
      apply (Hsave sid ps q); [|exact Hq']. rewrite Hbal.
      apply get_active_game_In in Hg as (Hin & _).
      rewrite resolved_games in Hin.
      pose proof (Hbets game Hr Hin) as Hb.
      pose proof (Hpl sid).
      pose proof (resolution_nonneg (GameSession.dealer_score g)
                    (GameSession.player_score g) (GameSession.bet_amount g)).
      lia.
    + destruct (enters cfg sid db && _); [|exact IH].
      intros q Hq'. now apply (Hsave sid _ q) in Hq'.
  - intros g Hin. pose proof (reachable_bets cfg db g Hr Hin) as Hb.
    split; [assumption|].
    destruct (reachable_row_consistent cfg db g Hr Hin) as (_ & _ & Hc).
    destruct (GameSession.status g);
      try (destruct Hc as (_ & _ & ->)); try (destruct Hc as (_ & ->));
      try lia.
    destruct Hc as (_ & Hc).
    apply (blackjack_credit_nonneg cfg (GameSession.bet_amount g));
      [assumption|lia|assumption].
Qed.

Lemma balances_never_negative_witness :
  min_bet default_settings <= GameSession.bet_amount demo_rev_game
    <= max_bet default_settings /\
  0 <= GameSession.payout demo_rev_game.
Proof.
  refine (proj2 (balances_never_negative default_settings demo_rev_started
                   _ _ _ reachable_demo_rev_started)
            demo_rev_game In_demo_rev_game);
    vm_compute; first [reflexivity|discriminate].
Defined.

(* ===================================================================== *)
(** ** Dealing *)
(* ===================================================================== *)

(** [start_game] of an accepted bet on a shuffle that permutes the deck:
    the four cards come from the end of the shuffled deck. *)
Lemma start_game_on_fair_deck cfg rng now sid bet db :
  fair rng ->
  enters cfg sid db = true ->
  min_bet cfg <= bet <= max_bet cfg ->
  bet <= Player.balance (fst (resolved cfg sid db)) ->
  get_active_game (Player.id (fst (resolved cfg sid db)))
                  (snd (resolved cfg sid db)) = None ->
  exists p1 p2 d1 d2 rest,
    rng O ordered_deck = rest ++ [d2; d1; p2; p1] /\
    List.length rest = 48%nat /\
    start_game cfg rng now sid bet db =
      dealt cfg now bet (fst (resolved cfg sid db))
            (snd (resolved cfg sid db)) p1 p2 d1 d2 rest.
Proof.
  intros Hf En Hb Hle Hn.
  destruct (draw_succeeds rng (new_Deck rng) Hf) as (c1 & d1 & D1).
  destruct (draw_succeeds rng d1 Hf) as (c2 & d2 & D2).
  destruct (draw_succeeds rng d2 Hf) as (c3 & d3 & D3).
  destruct (draw_succeeds rng d3 Hf) as (c4 & d4 & D4).
  pose proof (four_draws_cards rng _ _ _ _ _ _ _ _ Hf D1 D2 D3 D4) as Hd.
  pose proof (new_Deck_length rng Hf) as Hl.
  change (_cards (new_Deck rng)) with (rng O ordered_deck) in Hl.
  rewrite Hd, length_app in Hl. simpl in Hl.
  exists c1, c2, c3, c4, (_cards d4).
  split; [assumption|]. split; [lia|].
  unfold start_game. rewrite get_or_create_player_eq, En.
  destruct (resolved cfg sid db) as [player db1]. simpl in *.
  rewrite (proj2 (Z.ltb_ge bet (min_bet cfg))) by lia.
  rewrite (proj2 (Z.ltb_ge (max_bet cfg) bet)) by lia.
  rewrite (proj2 (Z.ltb_ge (Player.balance player) bet)) by lia.
  rewrite Hn, D1. cbn [draw_or_raise]. rewrite D2. cbn [draw_or_raise].
  rewrite D3. cbn [draw_or_raise]. rewrite D4. cbn [draw_or_raise].
  unfold dealt, blackjack_credit.
  destruct (is_blackjack [c1; c2]); [|reflexivity].
  destruct (is_blackjack [c3; c4]); [reflexivity|].
  destruct (int_add_float 1 (blackjack_payout cfg)) as [e|factor];
    cbn [value_or_raise]; [reflexivity|].
  destruct (int_mul_float bet factor) as [e|product];
    cbn [value_or_raise]; [reflexivity|].
  destruct (int_of_float product) as [e|pay];
    cbn [value_or_raise]; reflexivity.
Qed.

(** The rows of an accepted bet are committed when every value that may be
    written fits its column. *)
Lemma dealt_commits cfg now bet player db p1 p2 d1 d2 rest pay :
  fits bet = true ->
  fits (Player.balance player - bet) = true ->
  fits (Player.total_games player + 1) = true ->
  fits (Player.total_wins player + 1) = true ->
  fits (Player.total_pushes player + 1) = true ->
  blackjack_credit cfg bet = inr pay ->
  fits pay = true ->
  fits (Player.balance player - bet + pay) = true ->
  exists db' g, dealt cfg now bet player db p1 p2 d1 d2 rest = Done db' g.
Proof.
  intros Hbet Hbal Hg Hw Hp Hcr Hpay Hbal'.
  assert (H2 : forall a b : Card, fits (calculate [a; b]) = true)
    by (intros a b; apply fits_calculate; simpl; lia).
  unfold dealt, commit_new_game. rewrite Hcr.
  unfold Player.updatable, GameSession.insertable. simpl.
  replace (Player.balance player - bet + bet) with (Player.balance player)
    by lia.
  rewrite !storable_refl, !H2, Hbet, Hpay, fits_0.
  rewrite !(storable_fits _ _ Hbal), !(storable_fits _ _ Hg),
    !(storable_fits _ _ Hw), !(storable_fits _ _ Hp),
    !(storable_fits _ _ Hbal').
  simpl.
  destruct (is_blackjack [p1; p2]), (is_blackjack [d1; d2]);
    eexists _, _; reflexivity.
Qed.

(** What [start_game] raises on a shuffle that permutes the deck:
    [OverflowError] before anything is stored, or [OverflowError] or
    [ValueError] after the player row is. *)
Lemma start_game_raised cfg rng now sid bet db db' e :
  fair rng ->
  start_game cfg rng now sid bet db = Raised db' e ->
  (e = OverflowError \/ e = ValueError) /\
  (db' = db /\ enters cfg sid db = false \/
   db' = snd (resolved cfg sid db) /\ enters cfg sid db = true).
Proof.
  intros Hf E. destruct (enters cfg sid db) eqn:En.
  - destruct (Z_lt_le_dec bet (min_bet cfg)) as [H1|H1];
      [rewrite start_game_rejection_reason in E by auto; discriminate|].
    destruct (Z_lt_le_dec (max_bet cfg) bet) as [H2|H2];
      [rewrite start_game_rejection_reason in E by auto; discriminate|].
    destruct (Z_lt_le_dec (Player.balance (fst (resolved cfg sid db))) bet)
      as [H3|H3];
      [rewrite start_game_rejection_reason in E by auto; discriminate|].
    destruct (get_active_game (Player.id (fst (resolved cfg sid db)))
                (snd (resolved cfg sid db))) as [h|] eqn:H4.
    + rewrite start_game_rejection_reason in E;
        [discriminate|assumption|].
      right; right; right. congruence.
    + destruct (start_game_on_fair_deck cfg rng now sid bet db Hf En
                  (conj H1 H2) H3 H4)
        as (p1 & p2 & d1 & d2 & rest & _ & _ & E').
      rewrite E' in E. revert E. unfold dealt, commit_new_game.
      destruct (blackjack_credit cfg bet) as [e'|pay] eqn:Ecr.
      * apply blackjack_credit_exn in Ecr.
        case_matches; intros [= <- <-];
          (split; [auto|right; split; reflexivity]).
      * case_matches; intros [= <- <-];
          (split; [auto|right; split; reflexivity]).
  - rewrite start_game_entry in E by assumption.
    injection E as <- <-. split; [now left|left; now split].
Qed.

(** X17.  With a shuffle that permutes the deck, [start_game] never raises
    [IndexError].  It returns a game only when the bet is within the limits
    and the balance and the player has no game in progress; under these
    conditions it deals from the end of the freshly shuffled 52 cards (the
    last card and the one before it to the player, the next two to the
    dealer, the first 48 cards staying in the persisted deck in the order
    of the shuffle), settles a natural at once, and commits: it returns the
    game when every value written fits its 64-bit column and the payout of
    a natural can be computed, and raises otherwise ([OverflowError], or
    [ValueError] for a payout that is not a number), keeping the player
    row but storing no game.  When the bet fails a check it rejects, and
    when the row of a new session cannot be stored it raises
    [OverflowError] and changes nothing.  The status of a returned game is
    [PUSH] when both two-card hands score 21, [BLACKJACK] when only the
    player's does, and [IN_PROGRESS] otherwise. *)
Theorem start_game_deals_from_the_end
    (cfg : Settings) (rng : shuffler) (now : Z) (sid : string) (bet : Z)
    (db : DB) :
  fair rng ->
  let player := fst (resolved cfg sid db) in
  let db1 := snd (resolved cfg sid db) in
  ((exists db' g, start_game cfg rng now sid bet db = Done db' g) ->
   enters cfg sid db = true /\
   min_bet cfg <= bet <= max_bet cfg /\ bet <= Player.balance player /\
   get_active_game (Player.id player) db1 = None) /\
  (enters cfg sid db = false ->
   start_game cfg rng now sid bet db = Raised db OverflowError) /\
  (enters cfg sid db = true ->
   bet < min_bet cfg \/ max_bet cfg < bet \/ Player.balance player < bet \/
   get_active_game (Player.id player) db1 <> None ->
   exists reason, start_game cfg rng now sid bet db = Rejected db1 reason) /\
  (enters cfg sid db = true ->
   min_bet cfg <= bet <= max_bet cfg -> bet <= Player.balance player ->
   get_active_game (Player.id player) db1 = None ->
   (exists p1 p2 d1 d2 rest,
      rng O ordered_deck = rest ++ [d2; d1; p2; p1] /\
      List.length rest = 48%nat /\
      start_game cfg rng now sid bet db =
        dealt cfg now bet player db1 p1 p2 d1 d2 rest) /\
   (forall pay,
      fits bet = true ->
      fits (Player.balance player - bet) = true ->
      fits (Player.total_games player + 1) = true ->
      fits (Player.total_wins player + 1) = true ->
      fits (Player.total_pushes player + 1) = true ->
      blackjack_credit cfg bet = inr pay ->
      fits pay = true ->
      fits (Player.balance player - bet + pay) = true ->
      exists db' g, start_game cfg rng now sid bet db = Done db' g)) /\
  (forall db' e,
     start_game cfg rng now sid bet db = Raised db' e ->
     (e = OverflowError \/ e = ValueError) /\
     (db' = db /\ enters cfg sid db = false \/
      db' = db1 /\ enters cfg sid db = true)) /\
  (forall db' g,
     start_game cfg rng now sid bet db = Done db' g ->
     exists p1 p2 d1 d2 rest,
       rng O ordered_deck = rest ++ [d2; d1; p2; p1] /\
       List.length rest = 48%nat /\
       GameSession.player_hand g = map to_dict [p1; p2] /\
       GameSession.dealer_hand g = map to_dict [d1; d2] /\
       GameSession.deck_state g = map to_dict rest /\
       GameSession.status g =
         (if calculate [p1; p2] =? 21
          then if calculate [d1; d2] =? 21 then PUSH else BLACKJACK
          else IN_PROGRESS)).
Proof.
  intros Hf player db1. split; [|split; [|split; [|split; [|split]]]].
  - intros (db' & g & E).
    destruct (start_game_done_stored _ _ _ _ _ _ _ _ E) as (En & _).
    apply start_game_done in E. cbv zeta in E.
    destruct E as (c1 & c2 & c3 & c4 & d1 & d2 & d3 & d & p' & _ & _ & _ & _
                   & Hb & Hle & Hn & _).
    auto.
  - apply start_game_entry.
  - intros En H. eexists.
    now apply (start_game_rejection_reason cfg rng now sid bet db).
  - intros En Hb Hle Hn.
    pose proof (start_game_on_fair_deck cfg rng now sid bet db Hf En Hb Hle
                  Hn) as (p1 & p2 & d1 & d2 & rest & Hd & Hl & E).
    split; [now exists p1, p2, d1, d2, rest|].
    intros pay H1 H2 H3 H4 H5 H6 H7 H8. rewrite E.
    now apply (dealt_commits cfg now bet _ _ p1 p2 d1 d2 rest pay).
  - intros db' e E. now apply (start_game_raised cfg rng now sid bet db).
  - intros db' g E. apply start_game_done in E. cbv zeta in E.
    destruct E as (c1 & c2 & c3 & c4 & d1 & d2 & d3 & d & p' & D1 & D2 & D3
                   & D4 & _ & _ & _ & _ & Hg).
    pose proof (four_draws_cards rng _ _ _ _ _ _ _ _ Hf D1 D2 D3 D4) as Hd.
    pose proof (new_Deck_length rng Hf) as Hl.
    change (_cards (new_Deck rng)) with (rng O ordered_deck) in Hl.
    rewrite Hd, length_app in Hl. simpl in Hl.
    exists c1, c2, c3, c4, (_cards d).
    split; [assumption|]. split; [lia|].
    unfold is_blackjack in Hg. simpl in Hg.
    destruct Hg as [(B1 & -> & _)|[(B1 & B2 & -> & _)|(B1 & B2 & -> & _)]];
      simpl; rewrite ?B1, ?B2; auto.
Qed.

Lemma start_game_deals_from_the_end_witness :
  exists db' g,
    start_game default_settings reverse_shuffle 0 "s" 10 empty_db =
    Done db' g.
Proof.
  destruct (start_game_deals_from_the_end default_settings
              reverse_shuffle 0 "s" 10 empty_db fair_reverse_shuffle)
    as (_ & _ & _ & H & _).
  refine (proj2 (H eq_refl _ _ eq_refl) 25 eq_refl eq_refl eq_refl eq_refl
            eq_refl _ eq_refl eq_refl);
    [vm_compute; split; discriminate|vm_compute; discriminate
    |vm_compute; reflexivity].
Defined.

(* ===================================================================== *)
(** ** Metrics *)
(* ===================================================================== *)

Lemma tl_skipn {A : Type} (k : nat) (l : list A) :
  tl (skipn k l) = skipn (S k) l.
Proof.
  revert l. induction k as [|k IH]; intros [|a l]; try reflexivity.
  exact (IH l).
Qed.

(** Appending to the window of the last [maxlen] elements of [l] gives the
    window of [l] with the element appended. *)
Lemma deque_append_window {A : Type} (l : list A) (x : A) :
  deque_append (skipn (List.length l - maxlen) l) x =
  skipn (List.length (l ++ [x]) - maxlen) (l ++ [x]).
Proof.
  unfold deque_append.
  assert (HM : (1 <= maxlen)%nat) by (unfold maxlen; lia).
  revert HM. generalize maxlen as M. intros M HM.
  rewrite length_skipn, length_app. simpl List.length.
  destruct (Nat.eqb_spec (List.length l - (List.length l - M)) M) as [E|E].
  - rewrite tl_skipn, skipn_app.
    replace (S (List.length l - M)) with (List.length l + 1 - M)%nat by lia.
    replace (List.length l + 1 - M - List.length l)%nat with O by lia.
    reflexivity.
  - replace (List.length l - M)%nat with O by lia.
    replace (List.length l + 1 - M)%nat with O by lia.
    reflexivity.
Qed.

Lemma record_all_snoc (xs : list Q) (x : Q) (m : Metrics.t) :
  record_all (xs ++ [x]) m = record_response_time x (record_all xs m).
Proof. unfold record_all. now rewrite fold_left_app. Qed.

(** X18.  The response times are a window of at most 1000 values: when the
    window holds at most 1000 values, after any further recordings it
    holds the last 1000 of the values it held followed by the recorded
    ones, in the order of recording (all of them while they are at most
    1000), so it never holds more than 1000; recording a response time
    changes no counter. *)
Theorem response_times_keep_last_1000
    (durations : list Q) (m : Metrics.t) :
  (List.length (Metrics.response_times m) <= maxlen)%nat ->
  let all := Metrics.response_times m ++ durations in
  let m' := record_all durations m in
  Metrics.response_times m' = skipn (List.length all - maxlen) all /\
  (List.length (Metrics.response_times m') <= maxlen)%nat /\
  (List.length all <= maxlen -> Metrics.response_times m' = all)%nat /\
  Metrics.request_count m' = Metrics.request_count m /\
  Metrics.error_count m' = Metrics.error_count m /\
  Metrics.endpoint_counts m' = Metrics.endpoint_counts m /\
  Metrics.start_time m' = Metrics.start_time m.
Proof.
  intros Hm all m'.
  assert (H : Metrics.response_times m' =
              skipn (List.length all - maxlen) all /\
              Metrics.request_count m' = Metrics.request_count m /\
              Metrics.error_count m' = Metrics.error_count m /\
              Metrics.endpoint_counts m' = Metrics.endpoint_counts m /\
              Metrics.start_time m' = Metrics.start_time m).
  { subst all m'. induction durations as [|x xs IH] using rev_ind.
    - rewrite app_nil_r.
      replace (List.length (Metrics.response_times m) - maxlen)%nat
        with O by lia.
      repeat split.
    - destruct IH as (IH & I1 & I2 & I3 & I4).
      rewrite record_all_snoc. unfold record_response_time at 1.
      cbn [Metrics.set_response_times Metrics.response_times
           Metrics.request_count Metrics.error_count Metrics.endpoint_counts
           Metrics.start_time].
      rewrite IH, deque_append_window, <- app_assoc. auto. }
  destruct H as (H & H1 & H2 & H3 & H4). repeat split; try assumption.
  - rewrite H, length_skipn. lia.
  - intros Hl. rewrite H.
    now replace (List.length all - maxlen)%nat with O by lia.
Qed.

Lemma response_times_keep_last_1000_witness :
  Metrics.response_times (record_all [1%Q; 2%Q] (new_Metrics 0)) =
  [1%Q; 2%Q].
Proof.
  assert (H : (List.length (Metrics.response_times (new_Metrics 0))
               <= maxlen)%nat) by (simpl; lia).
  exact (proj1 (response_times_keep_last_1000 [1%Q; 2%Q] (new_Metrics 0) H)).
Defined.

Lemma dict_get_set_same d k v default :
  dict_get (dict_set d k v) k default = v.
Proof.
  induction d as [|[k' w] d IH]; simpl.
  - now rewrite String.eqb_refl.
  - destruct (String.eqb_spec k' k) as [->|N]; simpl.
    + now rewrite String.eqb_refl.
    + destruct (String.eqb_spec k' k); [contradiction|assumption].
Qed.

Lemma dict_get_set_other d k v k' default :
  k' <> k -> dict_get (dict_set d k v) k' default = dict_get d k' default.
Proof.
  intros N. induction d as [|[k0 w] d IH]; simpl.
  - destruct (String.eqb_spec k k'); [congruence|reflexivity].
  - destruct (String.eqb_spec k0 k) as [->|N0]; simpl.
    + destruct (String.eqb_spec k k'); [congruence|reflexivity].
    + destruct (String.eqb_spec k0 k'); [reflexivity|assumption].
Qed.

(** Writing a key keeps the keys in place; a new key goes to the end. *)
Lemma dict_set_keys d k v :
  map fst (dict_set d k v) =
  map fst d ++ (if in_dec string_dec k (map fst d) then [] else [k]).
Proof.
  induction d as [|[k0 w] d IH]; simpl; [reflexivity|].
  destruct (String.eqb_spec k0 k) as [->|N]; simpl.
  - destruct (string_dec k k); [|contradiction].
    now rewrite app_nil_r.
  - rewrite IH. destruct (string_dec k0 k); [contradiction|].
    now destruct (in_dec string_dec k (map fst d)).
Qed.

Lemma dict_set_NoDup d k v :
  NoDup (map fst d) -> NoDup (map fst (dict_set d k v)).
Proof.
  intros H. rewrite dict_set_keys.
  destruct (in_dec string_dec k (map fst d)) as [I|N].
  - now rewrite app_nil_r.
  - apply NoDup_app; [assumption|repeat constructor; intros []|].
    intros x Hx [<-|[]]. contradiction.
Qed.

Lemma calls_with_cons e o endpoints :
  calls_with e (o :: endpoints) =
  (match o with
   | Some e' => if String.eqb e' e then 1 else 0
   | None => 0
   end) + calls_with e endpoints.
Proof.
  unfold calls_with. simpl filter.
  destruct o as [e'|]; [destruct (String.eqb e' e)|]; simpl List.length;
    lia.
Qed.

(** X19.  After any run of [increment_request] calls, the request counter
    has grown by the number of calls, and the count kept for a path (0
    when the path has no entry) by the number of calls made with that
    path; calls without a path, or with the empty string, are counted as
    requests only, and the empty string never gets an entry.  The keys of
    the table stay distinct and keep their order, new paths are added at
    the end; the error counter and the response times are untouched. *)
Theorem request_counts_count_calls
    (endpoints : list (option string)) (m : Metrics.t) :
  let m' := count_requests endpoints m in
  Metrics.request_count m' =
    Metrics.request_count m + Z.of_nat (List.length endpoints) /\
  (forall e,
     dict_get (Metrics.endpoint_counts m') e 0 =
     dict_get (Metrics.endpoint_counts m) e 0 +
     (if String.eqb e EmptyString then 0 else calls_with e endpoints)) /\
  (NoDup (map fst (Metrics.endpoint_counts m)) ->
   NoDup (map fst (Metrics.endpoint_counts m'))) /\
  (exists added,
     map fst (Metrics.endpoint_counts m') =
     map fst (Metrics.endpoint_counts m) ++ added /\
     ~ In EmptyString added) /\
  Metrics.error_count m' = Metrics.error_count m /\
  Metrics.response_times m' = Metrics.response_times m.
Proof.
  revert m. induction endpoints as [|o es IH]; intros m.
  - unfold count_requests, calls_with. simpl.
    split; [lia|]. split; [|split; [auto|split; [|auto]]].
    + intros e. destruct (String.eqb e EmptyString); lia.
    + exists []. now rewrite app_nil_r.
  - cbv zeta. change (count_requests (o :: es) m)
      with (count_requests es (increment_request o m)).
    destruct (IH (increment_request o m)) as (H1 & H2 & H3 & H4 & H5 & H6).
    clear IH. cbv zeta in *.
    rewrite H1, H5, H6. clear H1 H5 H6.
    assert (Hcase :
      (increment_request o m =
         Metrics.set_request_count m (Metrics.request_count m + 1) /\
       forall e, (if String.eqb e EmptyString then 0
                  else calls_with e (o :: es)) =
                 (if String.eqb e EmptyString then 0
                  else calls_with e es)) \/
      (exists e0, o = Some e0 /\ e0 <> EmptyString /\
         increment_request o m =
           Metrics.set_endpoint_counts
             (Metrics.set_request_count m (Metrics.request_count m + 1))
             (dict_set (Metrics.endpoint_counts m) e0
                (dict_get (Metrics.endpoint_counts m) e0 0 + 1)))).
    { destruct o as [e0|]; simpl.
      - destruct (String.eqb_spec e0 EmptyString) as [->|N].
        + left. split; [reflexivity|]. intros e. rewrite calls_with_cons.
          rewrite (String.eqb_sym EmptyString e).
          now destruct (String.eqb e EmptyString).
        + right. exists e0. auto.
      - left. split; [reflexivity|]. intros e. rewrite calls_with_cons.
        now destruct (String.eqb e EmptyString). }
    destruct Hcase as [(E & Hc)|(e0 & -> & N & E)]; rewrite E in *;
      cbn [Metrics.set_request_count Metrics.set_endpoint_counts
           Metrics.request_count Metrics.error_count Metrics.response_times
           Metrics.endpoint_counts] in *.
    + split; [|split; [|auto]].
      * simpl List.length. rewrite Nat2Z.inj_succ. lia.
      * intros e. now rewrite H2, Hc.
    + split; [|split; [|split; [|split; [|auto]]]].
      * simpl List.length. rewrite Nat2Z.inj_succ. lia.
      * intros e. rewrite H2, calls_with_cons.
        destruct (String.eqb_spec e0 e) as [<-|N'].
        -- rewrite dict_get_set_same.
           destruct (String.eqb_spec e0 EmptyString); [contradiction|lia].
        -- rewrite dict_get_set_other by congruence.
           destruct (String.eqb e EmptyString); lia.
      * intros Hn. now apply H3, dict_set_NoDup.
      * destruct H4 as (added & H4 & H4'). rewrite dict_set_keys in H4.
        exists ((if in_dec string_dec e0
                      (map fst (Metrics.endpoint_counts m))
                 then [] else [e0]) ++ added).
        split; [now rewrite H4, app_assoc|].
        intros Hin. apply in_app_or in Hin as [Hin|Hin]; [|contradiction].
        destruct (in_dec string_dec e0
                    (map fst (Metrics.endpoint_counts m)));
          [destruct Hin|].
        destruct Hin as [E'|[]]. exact (N E').
Qed.

Lemma request_counts_count_calls_witness :
  NoDup (map fst (Metrics.endpoint_counts
                    (count_requests [Some "/api/hit"; None; Some "/api/hit"]
                                    (new_Metrics 0)))).
Proof.
  apply (proj1 (proj2 (proj2 (request_counts_count_calls
                                [Some "/api/hit"; None; Some "/api/hit"]
                                (new_Metrics 0))))).
  simpl. constructor.
Defined.

Lemma lstrip_spec (c : ascii) (s : list ascii) :
  (exists n, s = repeat c n ++ lstrip c s) /\
  hd_error (lstrip c s) <> Some c.
Proof.
  induction s as [|a s [(n & IH) IH']]; simpl.
  - split; [now exists O|discriminate].
  - destruct (Ascii.eqb_spec a c) as [->|N].
    + split; [|assumption]. exists (S n). simpl. now rewrite <- IH.
    + split; [now exists O|]. simpl. congruence.
Qed.

Lemma rev_repeat_char (c : ascii) (n : nat) : rev (repeat c n) = repeat c n.
Proof.
  induction n as [|n IH]; [reflexivity|].
  simpl. rewrite IH. symmetry. apply repeat_cons.
Qed.

Lemma rstrip_spec (c : ascii) (s : list ascii) :
  (exists n, s = rstrip c s ++ repeat c n) /\
  hd_error (rev (rstrip c s)) <> Some c.
Proof.
  unfold rstrip. destruct (lstrip_spec c (rev s)) as [(n & E) H].
  split.
  - exists n. set (t := lstrip c (rev s)) in *.
    rewrite <- (rev_involutive s) at 1.
    now rewrite E, rev_app_distr, rev_repeat_char.
  - now rewrite rev_involutive.
Qed.

Lemma lstrip_id (c : ascii) (s : list ascii) :
  hd_error s <> Some c -> lstrip c s = s.
Proof.
  destruct s as [|a s]; [reflexivity|]. simpl. intros H.
  destruct (Ascii.eqb_spec a c); [congruence|reflexivity].
Qed.

Lemma rstrip_id (c : ascii) (s : list ascii) :
  hd_error (rev s) <> Some c -> rstrip c s = s.
Proof.
  intros H. unfold rstrip. rewrite lstrip_id by assumption.
  apply rev_involutive.
Qed.

Lemma strip_spec (c : ascii) (s : list ascii) :
  (exists n k, s = repeat c n ++ strip c s ++ repeat c k) /\
  hd_error (strip c s) <> Some c /\
  hd_error (rev (strip c s)) <> Some c.
Proof.
  unfold strip.
  destruct (lstrip_spec c s) as [(n & E1) H1].
  destruct (rstrip_spec c (lstrip c s)) as [(k & E2) H2].
  split; [|split; [|assumption]].
  - exists n, k. now rewrite <- E2.
  - destruct (rstrip c (lstrip c s)) as [|a r]; [discriminate|].
    rewrite E2 in H1. exact H1.
Qed.

Lemma replace_id (old new : ascii) (s : list ascii) :
  ~ In old s -> replace old new s = s.
Proof.
  intros H. unfold replace. rewrite <- (map_id s) at 2.
  apply map_ext_in. intros a Ha.
  destruct (Ascii.eqb_spec a old); [subst; contradiction|reflexivity].
Qed.

Lemma replace_removes (old new : ascii) (s : list ascii) :
  new <> old -> ~ In old (replace old new s).
Proof.
  intros N H. unfold replace in H. apply in_map_iff in H as (a & E & _).
  destruct (Ascii.eqb_spec a old); congruence.
Qed.

Lemma replace_keeps_out (old new x : ascii) (s : list ascii) :
  x <> new -> ~ In x s -> ~ In x (replace old new s).
Proof.
  intros N H H'. unfold replace in H'.
  apply in_map_iff in H' as (a & E & Ha).
  destruct (Ascii.eqb_spec a old); [congruence|]. subst. contradiction.
Qed.

(** X20.  The metric name of an endpoint holds no slash and no hyphen and
    neither starts nor ends with an underscore; it is the endpoint with
    every slash and hyphen turned into an underscore, less the underscores
    at both ends; and naming is idempotent. *)
Theorem safe_endpoint_is_clean (endpoint : string) :
  let name := list_ascii_of_string (safe_endpoint endpoint) in
  ~ In "/"%char name /\ ~ In "-"%char name /\
  hd_error name <> Some "_"%char /\
  hd_error (rev name) <> Some "_"%char /\
  (exists n k,
     replace "-" "_" (replace "/" "_" (list_ascii_of_string endpoint)) =
     repeat "_"%char n ++ name ++ repeat "_"%char k) /\
  safe_endpoint (safe_endpoint endpoint) = safe_endpoint endpoint.
Proof.
  cbv zeta. unfold safe_endpoint at 1 2 3 4 5.
  rewrite !list_ascii_of_string_of_list_ascii.
  set (s := replace "-" "_" (replace "/" "_" (list_ascii_of_string endpoint))).
  destruct (strip_spec "_" s) as ((n & k & E) & H1 & H2).
  assert (Hs : ~ In "/"%char s /\ ~ In "-"%char s).
  { subst s. split.
    - apply replace_keeps_out; [discriminate|].
      apply replace_removes. discriminate.
    - apply replace_removes. discriminate. }
  assert (Hin : forall x, In x (strip "_" s) -> In x s).
  { intros x Hx. rewrite E. apply in_or_app. right. apply in_or_app. auto. }
  destruct Hs as [Hs1 Hs2].
  assert (N1 : ~ In "/"%char (strip "_" s)) by (intros H; auto).
  assert (N2 : ~ In "-"%char (strip "_" s)) by (intros H; auto).
  repeat split; try assumption.
  - now exists n, k.
  - unfold safe_endpoint. rewrite list_ascii_of_string_of_list_ascii.
    fold s. rewrite (replace_id "/" "_") by assumption.
    rewrite (replace_id "-" "_") by assumption.
    unfold strip at 1. rewrite (lstrip_id "_" (strip "_" s)) by assumption.
    now rewrite rstrip_id by assumption.
Qed.

(* ===================================================================== *)
(** ** Monitoring figures, statistics and routes *)
(* ===================================================================== *)

Lemma filter_length_cons_le {A : Type} (f : A -> bool) (a : A) (l : list A) :
  (List.length (filter f l) <= List.length (filter f (a :: l)))%nat.
Proof. simpl. destruct (f a); simpl; lia. Qed.

(** With at most one open game per player, the open games have distinct
    players. *)
Lemma open_players_NoDup (gs : list GameSession.t) :
  (forall pid,
     (List.length
        (filter (fun g => Nat.eqb (GameSession.player_id g) pid
                          && in_progress (GameSession.status g)) gs)
      <= 1)%nat) ->
  NoDup (map GameSession.player_id
           (filter (fun g => in_progress (GameSession.status g)) gs)).
Proof.
  induction gs as [|g gs IH]; intros H; [constructor|].
  assert (H' : forall pid,
             (List.length
                (filter (fun g => Nat.eqb (GameSession.player_id g) pid
                                  && in_progress (GameSession.status g)) gs)
              <= 1)%nat).
  { intros pid. specialize (H pid).
    pose proof (filter_length_cons_le
                  (fun g => Nat.eqb (GameSession.player_id g) pid
                            && in_progress (GameSession.status g)) g gs).
    lia. }
  simpl. destruct (in_progress (GameSession.status g)) eqn:Eg; [|auto].
  simpl. constructor; [|auto].
  intros Hin. apply in_map_iff in Hin as (h & Eh & Hh).
  apply filter_In in Hh as [Hh Oh].
  specialize (H (GameSession.player_id g)). cbn [filter] in H.
  rewrite Nat.eqb_refl, Eg in H. cbn [andb] in H.
  set (open := filter
                 (fun g0 => Nat.eqb (GameSession.player_id g0)
                                    (GameSession.player_id g)
                            && in_progress (GameSession.status g0))
                 gs) in *.
  assert (Hf : In h open).
  { apply filter_In. split; [assumption|].
    rewrite Eh, Nat.eqb_refl, Oh. reflexivity. }
  destruct open; [destruct Hf|]. simpl in H. lia.
Qed.

(** X21.  In every reachable state the number of active games reported by
    [/metrics] is at most the number of players: the games in progress
    belong to distinct players, each of them a stored player. *)
Theorem active_games_at_most_players (cfg : Settings) (db : DB) :
  reachable cfg db ->
  (active_games db <= total_players db)%nat /\
  NoDup (map GameSession.player_id
           (filter (fun g => in_progress (GameSession.status g))
                   (games db))).
Proof.
  intros Hr.
  destruct (reachable_one_open cfg db Hr) as [_ H1].
  destruct (reachable_players_ok cfg db Hr) as (_ & _ & Hp).
  pose proof (open_players_NoDup (games db) H1) as Hn.
  split; [|assumption].
  unfold active_games, total_players.
  rewrite <- (length_map GameSession.player_id),
          <- (length_map Player.id (players db)).
  apply NoDup_incl_length; [assumption|].
  intros pid Hin. apply in_map_iff in Hin as (g & <- & Hg).
  apply filter_In in Hg as [Hg _]. now apply Hp.
Qed.

Lemma active_games_at_most_players_witness :
  (active_games demo_rev_started <= total_players demo_rev_started)%nat.
Proof.
  exact (proj1 (active_games_at_most_players default_settings
                  demo_rev_started reachable_demo_rev_started)).
Defined.



Lemma find_player_none sid db :
  find_player sid db = None <->
  ~ In sid (map Player.session_id (players db)).
Proof.
  unfold find_player. split.
  - intros H Hin. apply in_map_iff in Hin as (p & <- & Hp).
    pose proof (find_none _ _ H p Hp) as E. simpl in E.
    now rewrite String.eqb_refl in E.
  - intros H.
    destruct (find _ (players db)) as [p|] eqn:E; [|reflexivity].
    apply find_some in E as [Hin E]. apply String.eqb_eq in E.
    exfalso. apply H. apply in_map_iff. now exists p.
Qed.

(** Every request leaves a row for its session, unless that row is new and
    cannot be stored. *)
Lemma run_finds_player cfg r db :
  enters cfg (session_of r) db = true ->
  exists p, find_player (session_of r) (run cfg r db) = Some p.
Proof.
  intros En.
  pose proof (resolved_find cfg (session_of r) db) as Hf.
  pose proof (find_player_session _ _ _ Hf) as Hs.
  destruct (run_shape cfg r db) as [E|[->|(ps & Hid & Hsid & H)]];
    [|eexists; eassumption|].
  { rewrite E. destruct (find_player (session_of r) db) as [p|] eqn:Ep;
      [now exists p|].
    exfalso. destruct r as [rng now sid bet|now sid|now sid|sid];
      cbn [run session_of] in *.
    - destruct (start_game_not_done cfg rng now sid bet db)
        as [(db' & g & E')|[E'|E']].
      + rewrite E' in E. simpl in E. subst db'.
        apply start_game_player_row in E'. cbv zeta in E'.
        destruct E' as (ps & E' & _).
        apply (f_equal (fun d => List.length (games d))) in E'.
        simpl in E'. rewrite length_app, resolved_games in E'. simpl in E'.
        lia.
      + rewrite E in E'. rewrite <- E' in Hf. congruence.
      + clear E'. revert E. unfold start_game.
        rewrite get_or_create_player_eq, En.
        unfold resolved. rewrite Ep. cbv zeta.
        cbn [fst snd]. intros E.
        assert (Hl : forall o : outcome,
                   db_of o = db ->
                   (List.length (players (db_of o)) =
                    List.length (players db))%nat)
          by (intros o ->; reflexivity).
        apply Hl in E. clear Hl. revert E.
        unfold draw_or_raise, value_or_raise, commit_new_game.
        case_matches; simpl; rewrite ?length_map, ?length_app; simpl; lia.
    - destruct (hit_not_done cfg now sid db) as [(db' & g & E')|[E'|E']].
      + rewrite E' in E. simpl in E. subst db'.
        apply hit_player_row in E'. cbv zeta in E'.
        destruct E' as (game & ps & _ & E' & _).
        apply (f_equal (fun d => List.length (players d))) in E'.
        revert E'. unfold resolved. rewrite Ep. simpl.
        rewrite length_map, length_app. simpl. lia.
      + rewrite E in E'. rewrite <- E' in Hf. congruence.
      + clear E'. revert E. unfold hit.
        rewrite get_or_create_player_eq, En.
        pose proof (no_game_of_new_player cfg sid db) as Hn.
        unfold resolved in *. rewrite Ep in *. cbv zeta. cbn [fst snd] in *.
        intros E.
        apply (f_equal (fun d => List.length (players d))) in E.
        revert E.
        destruct (get_active_game _ _);
          unfold decode_or_raise, draw_or_raise, commit_game;
          case_matches; simpl; rewrite ?length_map, ?length_app; simpl; lia.
    - destruct (stand_not_done cfg now sid db) as [(db' & g & E')|[E'|E']].
      + rewrite E' in E. simpl in E. subst db'.
        apply stand_player_row in E'. cbv zeta in E'.
        destruct E' as (game & ps & _ & E' & _).
        apply (f_equal (fun d => List.length (players d))) in E'.
        revert E'. unfold resolved. rewrite Ep. simpl.
        rewrite length_map, length_app. simpl. lia.
      + rewrite E in E'. rewrite <- E' in Hf. congruence.
      + clear E'. revert E. unfold stand.
        rewrite get_or_create_player_eq, En.
        unfold resolved in *. rewrite Ep in *. cbv zeta. cbn [fst snd] in *.
        intros E.
        apply (f_equal (fun d => List.length (players d))) in E.
        revert E.
        destruct (get_active_game _ _);
          unfold decode_or_raise, commit_game;
          case_matches; simpl; rewrite ?length_map, ?length_app; simpl; lia.
    - rewrite reset_player_eq, En in E. cbn [andb] in E.
      destruct (storable _ _) eqn:Es.
      + apply (f_equal (fun d => List.length (players d))) in E.
        revert E. unfold resolved. rewrite Ep. simpl.
        rewrite length_map, length_app. simpl. lia.
      + unfold enters in En. rewrite Ep in En. unfold storable in Es.
        rewrite En, orb_true_r in Es. discriminate. }
  assert (Hps : find_player (session_of r)
                  (save_player ps
                     (snd (resolved cfg (session_of r) db))) =
                Some ps).
  { apply (find_player_save _ _ _ ps Hf); [|assumption]. congruence. }
  exists ps.
  destruct H as [->|[(g & -> & _)|(game & g' & -> & _)]].
  - assumption.
  - now rewrite find_player_add_game.
  - now rewrite find_player_save_game.
Qed.






(** A service call of a session whose row cannot be stored raises, and
    changes nothing. *)
Lemma service_entry cfg r db o :
  enters cfg (session_of r) db = false ->
  service_call cfg r db = Some o -> o = Raised db OverflowError.
Proof.
  destruct r as [rng now sid bet|now sid|now sid|sid]; cbn [session_of];
    intros En [= <-].
  - now apply start_game_entry.
  - now apply hit_entry.
  - now apply stand_entry.
Qed.


(** The database a service call hands back is the one the request leaves. *)
Lemma service_db cfg r db o :
  service_call cfg r db = Some o -> db_of o = run cfg r db.
Proof.
  destruct r; simpl; try discriminate; now intros [= <-].
Qed.



Lemma increment_request_counts (e : string) (m : Metrics.t) :
  e <> EmptyString ->
  let m' := increment_request (Some e) m in
  Metrics.request_count m' = Metrics.request_count m + 1 /\
  dict_get (Metrics.endpoint_counts m') e 0 =
    dict_get (Metrics.endpoint_counts m) e 0 + 1 /\
  Metrics.error_count m' = Metrics.error_count m.
Proof.
  intros N. unfold increment_request.
  destruct (String.eqb_spec e EmptyString); [contradiction|]. simpl.
  now rewrite dict_get_set_same.
Qed.

Lemma route_is_respond cfg r m db :
  route cfg r m db =
  match service_call cfg r db with
  | Some o =>
      respond cfg (session_of r) o
        (increment_request (Some (endpoint_of r)) m)
  | None => Routes.reset_balance cfg (session_of r) m db
  end.
Proof. destruct r; reflexivity. Qed.




Lemma messages_of_fit (st : GameStatus) (msg : string) :
  In msg (messages_of st) -> (String.length msg <= 26)%nat.
Proof.
  destruct st; simpl; intros H;
    repeat (destruct H as [<-|H]; [vm_compute; lia|]); destruct H.
Qed.

(** X24.  In every reachable state the message of a game row is one the
    service writes with the status of the row: none while the game is in
    progress, one fixed text for each way to win or lose, and for a push
    either the text of a tie after [stand] or that of two naturals, the
    latter only on a row whose two scores are 21.  So every stored message
    and every stored status fit their columns of 100 and 20 characters. *)
Theorem messages_follow_status
    (cfg : Settings) (db : DB) (g : GameSession.t) :
  reachable cfg db -> In g (games db) ->
  In (GameSession.message g) (messages_of (GameSession.status g)) /\
  (GameSession.message g = "Both have Blackjack! Push!" ->
   GameSession.player_score g = 21 /\ GameSession.dealer_score g = 21) /\
  (String.length (GameSession.message g) <= 100)%nat /\
  (String.length (GameStatus_value (GameSession.status g)) <= 20)%nat.
Proof.
  intros Hr Hin.
  assert (H : In (GameSession.message g)
                (messages_of (GameSession.status g)) /\
              (GameSession.message g = "Both have Blackjack! Push!" ->
               GameSession.player_score g = 21 /\
               GameSession.dealer_score g = 21)).
  { revert db Hr g Hin. apply reachable_games_invariant.
    - intros rng now sid bet db db' g _ E.
      apply start_game_done in E. cbv zeta in E.
      destruct E as (c1 & c2 & c3 & c4 & d1 & d2 & d3 & d & p' & _ & _ & _
                     & _ & _ & _ & _ & _ & Hg).
      destruct Hg as [(_ & -> & _)|[(B1 & B2 & -> & _)|(_ & _ & -> & _)]];
        simpl.
      + split; [auto|discriminate].
      + apply is_blackjack_21 in B1, B2. auto.
      + split; [auto|discriminate].
    - intros now sid db db' g' game Hg _ [Hm _] E.
      apply hit_done in E. cbv zeta in E.
      destruct E as (game' & hand & rest & c & p' & Hg' & _ & _ & _ & H).
      rewrite Hg in Hg'. injection Hg' as <-.
      apply get_active_game_In in Hg as (_ & _ & Ho).
      apply in_progress_status in Ho. rewrite Ho in Hm.
      destruct Hm as [Hm|[]].
      destruct H as [(_ & -> & _)|(_ & -> & _)]; simpl.
      + rewrite Ho, <- Hm. split; [simpl; auto|discriminate].
      + split; [auto|discriminate].
    - intros now sid db db' g' game _ _ _ E.
      apply stand_done in E. cbv zeta in E.
      destruct E as (game' & hand & dealer & deck & dealer' & stack & p'
                     & _ & _ & _ & _ & _ & _ & H).
      destruct H as [(_ & -> & _)|[(_ & _ & -> & _)|[(_ & _ & -> & _)
                                                    |(_ & _ & -> & _)]]];
        simpl; (split; [auto|discriminate]). }
  destruct H as [H1 H2]. split; [assumption|]. split; [assumption|].
  split.
  - pose proof (messages_of_fit _ _ H1). lia.
  - destruct (GameSession.status g); vm_compute; lia.
Qed.

Lemma messages_follow_status_witness :
  In (GameSession.message demo_rev_game)
     (messages_of (GameSession.status demo_rev_game)).
Proof.
  exact (proj1 (messages_follow_status default_settings demo_rev_started
                  demo_rev_game reachable_demo_rev_started
                  In_demo_rev_game)).
Defined.

(** Whatever a route answers, it leaves a row for its session. *)
(** The database a route leaves is the one its request leaves. *)
Lemma route_db cfg r m db :
  snd (route cfg r m db) = run cfg r db \/
  exists p,
    find_player (session_of r) (run cfg r db) = Some p /\
    find_player (session_of r) (snd (route cfg r m db)) = Some p.
Proof.
  rewrite route_is_respond.
  destruct (service_call cfg r db) as [o|] eqn:Es.
  - pose proof (service_db cfg r db o Es) as Ho.
    unfold respond. destruct o as [db1 g|db1 msg|db1 e]; simpl in Ho.
    + destruct (enters cfg (session_of r) db) eqn:En;
        [|discriminate (service_entry cfg r db _ En Es)].
      destruct (run_finds_player cfg r db En) as (p & Hp).
      right. exists p. split; [assumption|]. rewrite <- Ho in Hp.
      rewrite (get_or_create_player_existing cfg _ db1 p Hp).
      now destruct (get_game_state g p).
    + left. now destruct (negb (String.eqb msg EmptyString)).
    + now left.
  - destruct r as [| | |sid]; try discriminate. left.
    cbn [run session_of]. unfold Routes.reset_balance.
    now destruct (reset_player cfg sid db) as [[p db']|].
Qed.

Lemma route_finds_player cfg r m db :
  find_player (session_of r) (snd (route cfg r m db)) =
  find_player (session_of r) (run cfg r db).
Proof.
  destruct (route_db cfg r m db) as [->|(p & H1 & H2)]; congruence.
Qed.

(** X25.  The statistics route only reads the database: it leaves it as it
    is and creates no player, counts one request under its path and never
    an error.  It answers "Player not found" exactly for a session without
    a player row and otherwise the statistics of [get_player_stats]; after
    any call of a game route by a session, whatever that route answered,
    it answers statistics for that session, unless the session had no row
    and a row with the initial balance cannot be stored: then it still
    answers "Player not found". *)
Theorem get_stats_only_reads (sid : string) (m : Metrics.t) (db : DB) :
  let resp := fst (fst (Routes.get_stats sid m db)) in
  let m' := snd (fst (Routes.get_stats sid m db)) in
  snd (Routes.get_stats sid m db) = db /\
  Metrics.request_count m' = Metrics.request_count m + 1 /\
  Metrics.error_count m' = Metrics.error_count m /\
  dict_get (Metrics.endpoint_counts m') "/api/stats" 0 =
    dict_get (Metrics.endpoint_counts m) "/api/stats" 0 + 1 /\
  (resp = error_response "Player not found" <->
   ~ In sid (map Player.session_id (players db))) /\
  (forall st, resp = stats_response st <-> get_player_stats sid db = Some st)
  /\
  (forall cfg r m0 m1,
     session_of r = sid ->
     if enters cfg sid db
     then exists st,
            fst (fst (Routes.get_stats sid m1 (snd (route cfg r m0 db)))) =
            stats_response st
     else fst (fst (Routes.get_stats sid m1 (snd (route cfg r m0 db)))) =
          error_response "Player not found").
Proof.
  cbv zeta.
  assert (N : "/api/stats" <> EmptyString) by discriminate.
  destruct (increment_request_counts "/api/stats" m N) as (M1 & M2 & M3).
  unfold Routes.get_stats.
  split; [now destruct (get_player_stats sid db)|].
  split; [now destruct (get_player_stats sid db)|].
  split; [now destruct (get_player_stats sid db)|].
  split; [now destruct (get_player_stats sid db)|].
  split; [|split].
  - rewrite <- find_player_none. unfold get_player_stats.
    destruct (find_player sid db); simpl; split; intros; congruence.
  - intros st. destruct (get_player_stats sid db); simpl; split; intros;
      congruence.
  - intros cfg r m0 m1 <-. unfold get_player_stats.
    rewrite route_finds_player.
    destruct (enters cfg (session_of r) db) eqn:En.
    + destruct (run_finds_player cfg r db En) as (p & ->).
      simpl. eexists. reflexivity.
    + rewrite (run_entry cfg r db En). unfold enters in En.
      now destruct (find_player (session_of r) db).
Qed.
